(** * PharmaLync security services: a shallow embedding and its properties

    The development follows the backend services of the repository:

    - [KeyManagementService]   (kms.service.ts)
    - [EncryptionService]      (encryption.service.ts)
    - [AadhaarService]         (aadhaar service)
    - [AuthService]            (auth service, with the jsonwebtoken calls it makes)
    - [ConsentService]         (consent.service.ts)
    - [QrSecurityService]      (QR security service)
    - [BlockchainService], [AuditService] (blockchain.service.ts, audit.service.ts)

    Conventions.  A JavaScript string is modelled by its UTF-8 byte sequence
    (a Rocq [string]), the text [Buffer.from(s, 'utf-8')] writes; [Unicode]
    relates it to the code units of the string.  A Node [Buffer] is a
    [list byte].  A function that can [throw] returns a [Result]; randomness
    ([crypto.randomBytes]), the clock ([Date.now]) and the database are
    explicit arguments.  The hash functions and AES-256-GCM are parameters
    ([Crypto]); HMAC and PBKDF2 are written out over them, as RFC 2104 and
    RFC 8018 define them. *)

From Stdlib Require Import Strings.String Strings.Ascii Strings.Byte.
From Stdlib Require Import List ZArith NArith Bool Lia.
From Stdlib Require Import Numbers.DecimalString Numbers.DecimalZ Numbers.DecimalPos.
From stdpp Require Import gmap strings.
Import ListNotations.

Open Scope string_scope.
Open Scope list_scope.
Set Warnings "-register-all".

(** ** Exceptions and results *)

(** The error classes the services raise or test with [instanceof]. *)
Inductive ErrorClass :=
| Error | TypeError | RangeError | SyntaxError
| JsonWebTokenError | TokenExpiredError | NotBeforeError
| PrismaClientKnownRequestError.

Record Exn := mkExn { exn_class : ErrorClass; exn_message : string }.

Inductive Result (A : Type) :=
| Ok (a : A)
| Throw (e : Exn).
Arguments Ok {A} a.
Arguments Throw {A} e.

Definition bind {A B} (m : Result A) (k : A -> Result B) : Result B :=
  match m with
  | Ok a => k a
  | Throw e => Throw e
  end.

Notation "x <- m ;; k" := (bind m (fun x => k))
  (at level 100, m at next level, right associativity).

(** [try { body } catch (error) { handler }] *)
Definition try_catch {A} (body : Result A) (handler : Exn -> Result A) : Result A :=
  match body with
  | Ok a => Ok a
  | Throw e => handler e
  end.

(** [error instanceof C]: [TokenExpiredError] and [NotBeforeError] extend
    [JsonWebTokenError]; every class extends [Error]. *)
Definition instanceof (e : Exn) (c : ErrorClass) : bool :=
  match c, exn_class e with
  | Error, _ => true
  | TypeError, TypeError => true
  | RangeError, RangeError => true
  | SyntaxError, SyntaxError => true
  | JsonWebTokenError, (JsonWebTokenError | TokenExpiredError | NotBeforeError) => true
  | TokenExpiredError, TokenExpiredError => true
  | NotBeforeError, NotBeforeError => true
  | PrismaClientKnownRequestError, PrismaClientKnownRequestError => true
  | _, _ => false
  end.

Definition is_Ok {A} (r : Result A) : bool :=
  match r with Ok _ => true | Throw _ => false end.

(** ** Buffers, UTF-8 and hexadecimal *)

Abbreviation Buffer := (list byte).

#[global] Instance byte_eq_decision : EqDecision byte := Byte.byte_eq_dec.

(** [Buffer.from(s, 'utf-8')] and [buf.toString('utf-8')] on the text of a
    string, which is its bytes; [Unicode.encode] and [Unicode.decode] are
    the two on the code units of a string. *)
Definition Buffer_from_utf8 (s : string) : Buffer := list_byte_of_string s.
Definition toString_utf8 (b : Buffer) : string := string_of_list_byte b.

Definition byte_of_N (n : N) : byte :=
  match Byte.of_N (N.land n 255) with
  | Some b => b
  | None => x00
  end.

Definition byte_xor (a b : byte) : byte :=
  byte_of_N (N.lxor (Byte.to_N a) (Byte.to_N b)).

Definition hex_digit (n : N) : ascii :=
  match n with
  | 0 => "0" | 1 => "1" | 2 => "2" | 3 => "3" | 4 => "4" | 5 => "5"
  | 6 => "6" | 7 => "7" | 8 => "8" | 9 => "9" | 10 => "a" | 11 => "b"
  | 12 => "c" | 13 => "d" | 14 => "e" | _ => "f"
  end%N%char.

(** [buf.toString('hex')]: two lower-case digits per byte. *)
Fixpoint toString_hex (b : Buffer) : string :=
  match b with
  | [] => ""
  | x :: rest =>
      String (hex_digit (Byte.to_N x / 16))
        (String (hex_digit (Byte.to_N x mod 16)) (toString_hex rest))
  end.

(** The value of a hexadecimal digit; both cases are accepted. *)
Definition hex_value (c : ascii) : option N :=
  let n := N_of_ascii c in
  if (48 <=? n)%N && (n <=? 57)%N then Some (n - 48)%N
  else if (97 <=? n)%N && (n <=? 102)%N then Some (n - 87)%N
  else if (65 <=? n)%N && (n <=? 70)%N then Some (n - 55)%N
  else None.

(** [Buffer.from(s, 'hex')]: decodes pairs of digits and stops, without an
    error, at the first pair that is not hexadecimal; a trailing single
    character is dropped. *)
Fixpoint Buffer_from_hex (s : string) : Buffer :=
  match s with
  | String c1 (String c2 rest) =>
      match hex_value c1, hex_value c2 with
      | Some h, Some l => byte_of_N (16 * h + l) :: Buffer_from_hex rest
      | _, _ => []
      end
  | _ => []
  end.

Definition is_lower_hex (c : ascii) : bool :=
  let n := N_of_ascii c in
  ((48 <=? n)%N && (n <=? 57)%N) || ((97 <=? n)%N && (n <=? 102)%N).

Fixpoint string_forallb (p : ascii -> bool) (s : string) : bool :=
  match s with
  | "" => true
  | String c rest => p c && string_forallb p rest
  end.

Definition buffer_eqb (a b : Buffer) : bool :=
  bool_decide (a = b).

(** [crypto.timingSafeEqual(a, b)]: a [RangeError] when the byte lengths
    differ, the comparison otherwise. *)
Definition timingSafeEqual (a b : Buffer) : Result bool :=
  if Nat.eqb (length a) (length b) then Ok (buffer_eqb a b)
  else Throw (mkExn RangeError "Input buffers must have the same byte length").

(** [crypto.randomBytes]: the generator is a stream of bytes read in order. *)
Definition Rng := nat -> byte.

Definition randomBytes (n : nat) (g : Rng) : Buffer * Rng :=
  (map g (seq 0 n), fun i => g (n + i)%nat).

(** [s.split(sep)] for a one-character separator. *)
Fixpoint split_on (sep : ascii) (s : string) : list string :=
  match s with
  | "" => [""]
  | String c rest =>
      if Ascii.eqb c sep then "" :: split_on sep rest
      else match split_on sep rest with
           | h :: t => String c h :: t
           | [] => [String c ""]
           end
  end.

(** Truthiness of a possibly undefined string: [undefined] and [''] are falsy. *)
Definition truthy (s : option string) : bool :=
  match s with
  | Some (String _ _) => true
  | _ => false
  end.

(** ** Cryptographic primitives *)

(** The hash functions and the AES-256-GCM transform of OpenSSL, with the
    facts about them that the services rely on: digest and tag sizes, and
    that decryption under the same key, IV and tag returns the plaintext. *)
Class Crypto := {
  sha256 : Buffer -> Buffer;
  sha512 : Buffer -> Buffer;
  (** key, IV, plaintext: ciphertext and authentication tag *)
  aes_256_gcm_encrypt : Buffer -> Buffer -> Buffer -> Buffer * Buffer;
  (** key, IV, tag, ciphertext: the plaintext when the tag verifies *)
  aes_256_gcm_decrypt : Buffer -> Buffer -> Buffer -> Buffer -> option Buffer;
  sha256_length : forall m, length (sha256 m) = 32%nat;
  sha512_length : forall m, length (sha512 m) = 64%nat;
  gcm_tag_length : forall k iv p, length (snd (aes_256_gcm_encrypt k iv p)) = 16%nat;
  gcm_decrypt_encrypt : forall k iv p,
    length k = 32%nat -> iv <> [] ->
    aes_256_gcm_decrypt k iv (snd (aes_256_gcm_encrypt k iv p))
                        (fst (aes_256_gcm_encrypt k iv p)) = Some p
}.

Section Primitives.
Context `{Crypto}.

(** *** HMAC (RFC 2104) *)

(** A key longer than the block is hashed first; the key is then padded
    with zero bytes to the block size. *)
Definition hmac_key (H : Buffer -> Buffer) (block : nat) (key : Buffer) : Buffer :=
  let k0 := if (block <? length key)%nat then H key else key in
  k0 ++ repeat x00 (block - length k0).

Definition hmac (H : Buffer -> Buffer) (block : nat) (key msg : Buffer) : Buffer :=
  let k := hmac_key H block key in
  H (map (byte_xor x5c) k ++ H (map (byte_xor x36) k ++ msg)).

(** [crypto.createHmac('sha256', key).update(msg).digest()] *)
Definition hmac_sha256 (key msg : Buffer) : Buffer := hmac sha256 64 key msg.
(** [crypto.createHmac('sha512', key).update(msg).digest()] *)
Definition hmac_sha512 (key msg : Buffer) : Buffer := hmac sha512 128 key msg.

(** *** PBKDF2 (RFC 8018, section 5.2) *)

Definition INT_32_BE (i : N) : Buffer :=
  [byte_of_N (i / 16777216); byte_of_N (i / 65536); byte_of_N (i / 256); byte_of_N i].

Definition xor_buffers (a b : Buffer) : Buffer :=
  map (fun p => byte_xor (fst p) (snd p)) (combine a b).

(** [F(P, S, c, i) = U_1 xor ... xor U_c] *)
Definition pbkdf2_F (prf : Buffer -> Buffer) (salt : Buffer) (c : N) (i : N) : Buffer :=
  let u1 := prf (salt ++ INT_32_BE i) in
  snd (N.iter (c - 1)
         (fun st => let u := prf (fst st) in (u, xor_buffers (snd st) u))
         (u1, u1)).

Definition pbkdf2_hmac_sha512 (password salt : Buffer) (c : N) (dkLen : nat) : Buffer :=
  let blocks := ((dkLen + 63) / 64)%nat in
  firstn dkLen
    (flat_map (fun i => pbkdf2_F (hmac_sha512 password) salt c (N.of_nat i))
              (seq 1 blocks)).

(** The iteration counts [crypto.pbkdf2] accepts: a positive 32-bit integer. *)
Definition valid_iterations (iterations : Z) : bool :=
  (1 <=? iterations)%Z && (iterations <=? 2147483647)%Z.

(** [crypto.pbkdf2(password, salt, iterations, keylen, 'sha512', cb)] *)
Definition pbkdf2 (password : string) (salt : Buffer) (iterations : Z) (keylen : nat)
  : Result Buffer :=
  if negb (valid_iterations iterations)
  then Throw (mkExn RangeError "The value of iterations is out of range")
  else Ok (pbkdf2_hmac_sha512 (Buffer_from_utf8 password) salt (Z.to_N iterations) keylen).

(** *** AES-256-GCM through [createCipheriv] / [createDecipheriv] *)

Definition check_key_iv (key iv : Buffer) : Result unit :=
  if negb (length key =? 32)%nat then Throw (mkExn RangeError "Invalid key length")
  else if (length iv =? 0)%nat then Throw (mkExn TypeError "Invalid initialization vector")
  else Ok tt.

(** [createCipheriv('aes-256-gcm', key, iv)], [update], [final], [getAuthTag] *)
Definition cipher_aes_256_gcm (key iv data : Buffer) : Result (Buffer * Buffer) :=
  _ <- check_key_iv key iv ;;
  Ok (aes_256_gcm_encrypt key iv data).

(** [decipher.setAuthTag(tag)]: GCM tags are 4, 8 or 12 to 16 bytes long. *)
Definition setAuthTag (tag : Buffer) : Result unit :=
  let n := length tag in
  if (n =? 4)%nat || (n =? 8)%nat || ((12 <=? n)%nat && (n <=? 16)%nat) then Ok tt
  else Throw (mkExn TypeError "Invalid authentication tag length").

(** [decipher.update(ciphertext)] and [decipher.final()], which raises when
    the tag does not verify. *)
Definition decipher_final (key iv tag ciphertext : Buffer) : Result Buffer :=
  match aes_256_gcm_decrypt key iv tag ciphertext with
  | Some p => Ok p
  | None => Throw (mkExn Error "Unsupported state or unable to authenticate data")
  end.

End Primitives.

(** ** The process environment *)

Record ProcessEnv := {
  ENCRYPTION_KEY : option string;
  PBKDF2_ITERATIONS_var : option string;
  JWT_ACCESS_SECRET_var : option string;
  JWT_REFRESH_SECRET_var : option string;
  JWT_ACCESS_EXPIRY_var : option string;
  JWT_REFRESH_EXPIRY_var : option string;
  CONSENT_TOKEN_SECRET_var : option string
}.

(** [process.env.X || d] *)
Definition or_default (v : option string) (d : string) : string :=
  if truthy v then default d v else d.

Definition is_digit (c : ascii) : bool :=
  let n := N_of_ascii c in (48 <=? n)%N && (n <=? 57)%N.

Definition is_hex_digit (c : ascii) : bool :=
  match hex_value c with Some _ => true | None => false end.

Definition is_space (c : ascii) : bool :=
  let n := N_of_ascii c in (n =? 32)%N || ((9 <=? n)%N && (n <=? 13)%N).

Fixpoint skip_spaces (s : string) : string :=
  match s with
  | String c rest => if is_space c then skip_spaces rest else s
  | "" => ""
  end.

(** The longest prefix of decimal digits, as a number ([None] when empty). *)
Fixpoint digits_prefix (acc : option Z) (s : string) : option Z :=
  match s with
  | String c rest =>
      if is_digit c
      then digits_prefix
             (Some (10 * default 0%Z acc + Z.of_N (N_of_ascii c - 48))%Z) rest
      else acc
  | "" => acc
  end.

(** [parseInt(s)] for decimal input: leading white space and a sign are
    accepted, what follows the digits is ignored, [None] stands for [NaN]. *)
Definition parseInt (s : string) : option Z :=
  match skip_spaces s with
  | String "-" rest => Z.opp <$> digits_prefix None rest
  | String "+" rest => digits_prefix None rest
  | rest => digits_prefix None rest
  end.

(** ** KeyManagementService *)

Module KeyManagementService.
Section KMS.
Context `{Crypto}.

Record t := { masterKey : Buffer }.

(** [/^[0-9a-fA-F]{64}$/.test(keyHex)] *)
Definition valid_key_format (keyHex : string) : bool :=
  (String.length keyHex =? 64)%nat && string_forallb is_hex_digit keyHex.

Definition new (env : ProcessEnv) : Result t :=
  match ENCRYPTION_KEY env with
  | Some (String _ _ as keyHex) =>
      if negb (valid_key_format keyHex)
      then Throw (mkExn Error
             "ENCRYPTION_KEY must be a 64-character hexadecimal string (256 bits)")
      else Ok {| masterKey := Buffer_from_hex keyHex |}
  | _ => Throw (mkExn Error "ENCRYPTION_KEY environment variable is not set")
  end.

Definition getMasterKey (kms : t) : Buffer := masterKey kms.

(** HKDF-style derivation: extract keyed by the user id over the master
    key, expand keyed by the extract output over [info ‖ 0x01]. *)
Definition deriveUserKey (kms : t) (userId : string) (info : string) : Buffer :=
  let salt := Buffer_from_utf8 userId in
  let infoBuffer := Buffer_from_utf8 info in
  let prk := hmac_sha256 salt (masterKey kms) in
  hmac_sha256 prk (infoBuffer ++ [x01]).

Definition default_info : string := "pharmalync-user-key".

End KMS.
End KeyManagementService.

(** [getKMS()]: the singleton is built from the environment on first use. *)
Definition getKMS `{Crypto} (env : ProcessEnv) : Result KeyManagementService.t :=
  KeyManagementService.new env.

(** ** EncryptionService *)

Module EncryptionService.
Section Svc.
Context `{Crypto}.

Record t := { kms : KeyManagementService.t }.

Definition new (env : ProcessEnv) : Result t :=
  k <- getKMS env ;;
  Ok {| kms := k |}.

(** [userId ? kms.deriveUserKey(userId) : kms.getMasterKey()] *)
Definition select_key (svc : t) (userId : option string) : Buffer :=
  match userId with
  | Some (String _ _ as u) =>
      KeyManagementService.deriveUserKey (kms svc) u KeyManagementService.default_info
  | _ => KeyManagementService.getMasterKey (kms svc)
  end.

Definition encryptPII (svc : t) (data : string) (userId : option string) (g : Rng)
  : Result (Buffer * Rng) :=
  if negb (truthy (Some data))
  then Throw (mkExn Error "Data to encrypt cannot be empty")
  else
    let key := select_key svc userId in
    let (iv, g') := randomBytes 16 g in
    ct <- cipher_aes_256_gcm key iv (Buffer_from_utf8 data) ;;
    let encrypted := fst ct in
    let authTag := snd ct in
    Ok (iv ++ authTag ++ encrypted, g').

Definition decryptPII (svc : t) (encryptedBuffer : Buffer) (userId : option string)
  : Result string :=
  if (length encryptedBuffer <? 32)%nat
  then Throw (mkExn Error "Invalid encrypted buffer")
  else
    let key := select_key svc userId in
    let iv := firstn 16 encryptedBuffer in
    let authTag := firstn 16 (skipn 16 encryptedBuffer) in
    let ciphertext := skipn 32 encryptedBuffer in
    _ <- check_key_iv key iv ;;
    _ <- setAuthTag authTag ;;
    try_catch
      (decrypted <- decipher_final key iv authTag ciphertext ;;
       Ok (toString_utf8 decrypted))
      (fun _ => Throw (mkExn Error
         "Decryption failed. Data may be corrupted or tampered with.")).

End Svc.
End EncryptionService.

(** ** AadhaarService *)

Module AadhaarService.
Section Svc.
Context `{Crypto}.

Record t := { kms : KeyManagementService.t }.

Definition new (env : ProcessEnv) : Result t :=
  k <- getKMS env ;;
  Ok {| kms := k |}.

(** [/^\d{12}$/.test(aadhaar)] *)
Definition validateAadhaarFormat (aadhaar : string) : bool :=
  (String.length aadhaar =? 12)%nat && string_forallb is_digit aadhaar.

(** Layer 1: HMAC-SHA256 under the master key, first 32 hex characters. *)
Definition tokenizeAadhaar (svc : t) (aadhaar : string) : Result string :=
  if negb (validateAadhaarFormat aadhaar)
  then Throw (mkExn Error "Invalid Aadhaar format. Must be exactly 12 digits.")
  else
    let digest := hmac_sha256 (KeyManagementService.getMasterKey (kms svc))
                              (Buffer_from_utf8 aadhaar) in
    Ok (substring 0 32 (toString_hex digest)).

(** Layer 2: AES-256-GCM of the token, [IV(16) | AuthTag(16) | Ciphertext]. *)
Definition encryptAadhaar (svc : t) (aadhaar : string) (g : Rng) : Result (Buffer * Rng) :=
  token <- tokenizeAadhaar svc aadhaar ;;
  let (iv, g') := randomBytes 16 g in
  ct <- cipher_aes_256_gcm (KeyManagementService.getMasterKey (kms svc)) iv
          (Buffer_from_utf8 token) ;;
  let encrypted := fst ct in
  let authTag := snd ct in
  Ok (iv ++ authTag ++ encrypted, g').

(** Layer 3: SHA-256 of the token, in hex. *)
Definition hashAadhaar (svc : t) (aadhaar : string) : Result string :=
  token <- tokenizeAadhaar svc aadhaar ;;
  Ok (toString_hex (sha256 (Buffer_from_utf8 token))).

Definition decryptAadhaar (svc : t) (encryptedBuffer : Buffer) : Result string :=
  if (length encryptedBuffer <? 32)%nat
  then Throw (mkExn Error "Invalid encrypted Aadhaar buffer")
  else
    let iv := firstn 16 encryptedBuffer in
    let authTag := firstn 16 (skipn 16 encryptedBuffer) in
    let ciphertext := skipn 32 encryptedBuffer in
    let key := KeyManagementService.getMasterKey (kms svc) in
    _ <- check_key_iv key iv ;;
    _ <- setAuthTag authTag ;;
    decrypted <- decipher_final key iv authTag ciphertext ;;
    Ok (toString_utf8 decrypted).

Definition encryptForStorage (svc : t) (aadhaar : string) (g : Rng)
  : Result ((Buffer * string) * Rng) :=
  e <- encryptAadhaar svc aadhaar g ;;
  h <- hashAadhaar svc aadhaar ;;
  Ok ((fst e, h), snd e).

Definition verifyAadhaarHash (svc : t) (aadhaar storedHash : string) : Result bool :=
  computedHash <- hashAadhaar svc aadhaar ;;
  timingSafeEqual (Buffer_from_utf8 computedHash) (Buffer_from_utf8 storedHash).

End Svc.
End AadhaarService.

(** ** JSON *)

(** JSON values.  A number written as an integer is [JNum]; one written
    with a fraction or an exponent is kept as its literal ([JFrac]).  An
    object keeps its properties in insertion order, one entry per key. *)
Inductive json :=
| JNull
| JBool (b : bool)
| JNum (z : Z)
| JFrac (literal : string)
| JStr (s : string)
| JArr (items : list json)
| JObj (fields : list (string * json)).

(** Induction over values, through the lists of an array and of an object. *)
Section json_induction.
Variable P : json -> Prop.
Hypothesis HNull : P JNull.
Hypothesis HBool : forall b, P (JBool b).
Hypothesis HNum : forall z, P (JNum z).
Hypothesis HFrac : forall l, P (JFrac l).
Hypothesis HStr : forall s, P (JStr s).
Hypothesis HArr : forall items, Forall P items -> P (JArr items).
Hypothesis HObj : forall fields, Forall (fun kv => P (snd kv)) fields -> P (JObj fields).

Fixpoint json_nested_ind (v : json) : P v :=
  match v with
  | JNull => HNull
  | JBool b => HBool b
  | JNum z => HNum z
  | JFrac l => HFrac l
  | JStr s => HStr s
  | JArr items =>
      HArr items
        ((fix go (l : list json) : Forall P l :=
            match l with
            | [] => @List.Forall_nil _ P
            | x :: r => @List.Forall_cons _ P x r (json_nested_ind x) (go r)
            end) items)
  | JObj fields =>
      HObj fields
        ((fix go (l : list (string * json)) : Forall (fun kv => P (snd kv)) l :=
            match l with
            | [] => @List.Forall_nil _ _
            | kv :: r => @List.Forall_cons _ _ kv r (json_nested_ind (snd kv)) (go r)
            end) fields)
  end.
End json_induction.

Definition dquote : ascii := ascii_of_nat 34.
Definition code (c : ascii) : N := N_of_ascii c.

(** [obj[k]]: [None] is [undefined]. *)
Fixpoint obj_get (k : string) (fields : list (string * json)) : option json :=
  match fields with
  | [] => None
  | (k', v) :: rest => if String.eqb k k' then Some v else obj_get k rest
  end.

(** [obj[k] = v]: an existing property keeps its place, a new one is added
    at the end. *)
Fixpoint obj_set (k : string) (v : json) (fields : list (string * json))
  : list (string * json) :=
  match fields with
  | [] => [(k, v)]
  | (k', v') :: rest =>
      if String.eqb k k' then (k, v) :: rest else (k', v') :: obj_set k v rest
  end.

(** Property access on any value: only objects have the properties read here. *)
Definition get_property (k : string) (v : json) : option json :=
  match v with
  | JObj fields => obj_get k fields
  | _ => None
  end.

(** *** [JSON.stringify] *)

Definition escape_char (c : ascii) : string :=
  let n := code c in
  if (n =? 34)%N then String "\" (String dquote "")
  else if (n =? 92)%N then "\\"
  else if (n =? 8)%N then "\b"
  else if (n =? 12)%N then "\f"
  else if (n =? 10)%N then "\n"
  else if (n =? 13)%N then "\r"
  else if (n =? 9)%N then "\t"
  else if (n <? 32)%N
       then "\u00" +:+ String (hex_digit (n / 16)) (String (hex_digit (n mod 16)) "")
  else String c "".

Fixpoint escape_string (s : string) : string :=
  match s with
  | "" => ""
  | String c rest => escape_char c +:+ escape_string rest
  end.

Definition quote (s : string) : string :=
  String dquote (escape_string s +:+ String dquote "").

Definition string_of_Z (z : Z) : string := NilZero.string_of_int (Z.to_int z).

Fixpoint join (sep : string) (l : list string) : string :=
  match l with
  | [] => ""
  | [x] => x
  | x :: rest => x +:+ sep +:+ join sep rest
  end.

Fixpoint JSON_stringify (v : json) : string :=
  match v with
  | JNull => "null"
  | JBool true => "true"
  | JBool false => "false"
  | JNum z => string_of_Z z
  | JFrac literal => literal
  | JStr s => quote s
  | JArr items => "[" +:+ join "," (map JSON_stringify items) +:+ "]"
  | JObj fields =>
      "{" +:+ join "," (map (fun kv => quote (fst kv) +:+ ":" +:+ JSON_stringify (snd kv))
                            fields) +:+ "}"
  end.

(** *** [JSON.parse] *)

Definition is_json_space (c : ascii) : bool :=
  let n := code c in (n =? 32)%N || (n =? 9)%N || (n =? 10)%N || (n =? 13)%N.

Fixpoint skip_ws (s : string) : string :=
  match s with
  | String c rest => if is_json_space c then skip_ws rest else s
  | "" => ""
  end.

(** UTF-8 bytes of a code point below 0x10000, as a [\uXXXX] escape gives it. *)
Definition utf8_of_code_point (cp : N) : string :=
  if (cp <? 128)%N then String (ascii_of_N cp) ""
  else if (cp <? 2048)%N
       then String (ascii_of_N (192 + cp / 64)) (String (ascii_of_N (128 + cp mod 64)) "")
  else String (ascii_of_N (224 + cp / 4096))
         (String (ascii_of_N (128 + (cp / 64) mod 64))
            (String (ascii_of_N (128 + cp mod 64)) "")).

Definition hex4 (a b c d : ascii) : option N :=
  match hex_value a, hex_value b, hex_value c, hex_value d with
  | Some w, Some x, Some y, Some z => Some (4096 * w + 256 * x + 16 * y + z)%N
  | _, _, _, _ => None
  end.

(** The characters of a string literal after its opening quote, and what
    follows the closing quote. *)
Fixpoint parse_string_body (s : string) : option (string * string) :=
  match s with
  | "" => None
  | String c rest =>
      if (code c =? 34)%N then Some ("", rest)
      else if (code c =? 92)%N then
        match rest with
        | String e rest' =>
            let plain (x : ascii) :=
              match parse_string_body rest' with
              | Some (body, after) => Some (String x body, after)
              | None => None
              end in
            if (code e =? 34)%N || (code e =? 92)%N || (code e =? 47)%N then plain e
            else if (code e =? 98)%N then plain (ascii_of_nat 8)
            else if (code e =? 102)%N then plain (ascii_of_nat 12)
            else if (code e =? 110)%N then plain (ascii_of_nat 10)
            else if (code e =? 114)%N then plain (ascii_of_nat 13)
            else if (code e =? 116)%N then plain (ascii_of_nat 9)
            else if (code e =? 117)%N then
              match rest' with
              | String h1 (String h2 (String h3 (String h4 rest''))) =>
                  match hex4 h1 h2 h3 h4, parse_string_body rest'' with
                  | Some cp, Some (body, after) =>
                      Some (utf8_of_code_point cp +:+ body, after)
                  | _, _ => None
                  end
              | _ => None
              end
            else None
        | "" => None
        end
      else if (code c <? 32)%N then None
      else match parse_string_body rest with
           | Some (body, after) => Some (String c body, after)
           | None => None
           end
  end.

(** The longest prefix of [s] whose characters satisfy [p], and the rest. *)
Fixpoint span (p : ascii -> bool) (s : string) : string * string :=
  match s with
  | String c rest =>
      if p c then let r := span p rest in (String c (fst r), snd r) else ("", s)
  | "" => ("", "")
  end.

Definition nonempty_digits (s : string) : bool :=
  match s with
  | "" => false
  | _ => string_forallb is_digit s
  end.

(** [0] or a digit sequence that does not start with [0]. *)
Definition json_int_part (s : string) : bool :=
  match s with
  | String "0" "" => true
  | String "0" _ => false
  | _ => nonempty_digits s
  end.

Definition strip_sign (s : string) : string :=
  match s with
  | String "-" rest => rest
  | String "+" rest => rest
  | _ => s
  end.

(** A number literal: [None] when ill-formed, [Some true] for an integer,
    [Some false] for a literal with a fraction or an exponent. *)
Definition number_shape (literal : string) : option bool :=
  let unsigned := match literal with String "-" rest => rest | _ => literal end in
  let (int_part, after_int) := span is_digit unsigned in
  if negb (json_int_part int_part) then None
  else
    match after_int with
    | "" => Some true
    | String c rest =>
        let (frac_ok, after_frac) :=
          if (code c =? 46)%N
          then let (digits, after) := span is_digit rest in (nonempty_digits digits, after)
          else (true, after_int) in
        if negb frac_ok then None
        else match after_frac with
             | "" => Some false
             | String e exponent =>
                 if ((code e =? 101)%N || (code e =? 69)%N)
                    && nonempty_digits (strip_sign exponent)
                 then Some false else None
             end
    end.

Definition is_number_char (c : ascii) : bool :=
  is_digit c || (code c =? 45)%N || (code c =? 43)%N || (code c =? 46)%N
  || (code c =? 101)%N || (code c =? 69)%N.

Definition parse_number (s : string) : option (json * string) :=
  let (literal, rest) := span is_number_char s in
  match number_shape literal with
  | Some true => z ← NilZero.int_of_string literal; Some (JNum (Z.of_int z), rest)
  | Some false => Some (JFrac literal, rest)
  | None => None
  end.

(** [s] without the prefix [p], when it starts with it. *)
Fixpoint strip_prefix (p s : string) : option string :=
  match p, s with
  | "", _ => Some s
  | String a p', String b s' => if Ascii.eqb a b then strip_prefix p' s' else None
  | _, "" => None
  end.

(** Recursive descent; [fuel] bounds the number of nested calls. *)
Fixpoint parse_value (fuel : nat) (s : string) : option (json * string) :=
  match fuel with
  | O => None
  | S fuel' =>
      match skip_ws s with
      | "" => None
      | String c rest as s' =>
          if (code c =? 123)%N then
            match skip_ws rest with
            | String "}" after => Some (JObj [], after)
            | _ => '(fields, after) ← parse_members fuel' rest;
                   Some (JObj (fold_left (fun acc kv => obj_set (fst kv) (snd kv) acc)
                                         fields []), after)
            end
          else if (code c =? 91)%N then
            match skip_ws rest with
            | String "]" after => Some (JArr [], after)
            | _ => '(items, after) ← parse_elements fuel' rest; Some (JArr items, after)
            end
          else if (code c =? 34)%N then
            '(body, after) ← parse_string_body rest; Some (JStr body, after)
          else if (code c =? 116)%N then
            after ← strip_prefix "true" s'; Some (JBool true, after)
          else if (code c =? 102)%N then
            after ← strip_prefix "false" s'; Some (JBool false, after)
          else if (code c =? 110)%N then
            after ← strip_prefix "null" s'; Some (JNull, after)
          else parse_number s'
      end
  end
with parse_elements (fuel : nat) (s : string) : option (list json * string) :=
  match fuel with
  | O => None
  | S fuel' =>
      '(v, after) ← parse_value fuel' s;
      match skip_ws after with
      | String "," more =>
          '(vs, after') ← parse_elements fuel' more; Some (v :: vs, after')
      | String "]" after' => Some ([v], after')
      | _ => None
      end
  end
with parse_members (fuel : nat) (s : string) : option (list (string * json) * string) :=
  match fuel with
  | O => None
  | S fuel' =>
      match skip_ws s with
      | String c rest =>
          if (code c =? 34)%N then
            '(key, after_key) ← parse_string_body rest;
            match skip_ws after_key with
            | String ":" after_colon =>
                '(v, after) ← parse_value fuel' after_colon;
                match skip_ws after with
                | String "," more =>
                    '(kvs, after') ← parse_members fuel' more;
                    Some ((key, v) :: kvs, after')
                | String "}" after' => Some ([(key, v)], after')
                | _ => None
                end
            | _ => None
            end
          else None
      | "" => None
      end
  end.

(** [JSON.parse(text)]: one value, then only white space; a [SyntaxError]
    otherwise. *)
Definition JSON_parse (text : string) : Result json :=
  match parse_value (2 * String.length text + 2) text with
  | Some (v, rest) =>
      match skip_ws rest with
      | "" => Ok v
      | _ => Throw (mkExn SyntaxError "Unexpected non-whitespace character after JSON")
      end
  | None => Throw (mkExn SyntaxError "Unexpected token in JSON")
  end.

(** ** base64url *)

(** The character of a six-bit value in the URL-safe alphabet. *)
Definition base64url_char (v : N) : ascii :=
  if (v <? 26)%N then ascii_of_N (65 + v)
  else if (v <? 52)%N then ascii_of_N (71 + v)
  else if (v <? 62)%N then ascii_of_N (v - 4)
  else if (v =? 62)%N then "-"%char
  else "_"%char.

(** The six-bit value of a character: Node's decoder accepts the standard
    and the URL-safe alphabet alike. *)
Definition unbase64 (c : ascii) : option N :=
  let n := code c in
  if (65 <=? n)%N && (n <=? 90)%N then Some (n - 65)%N
  else if (97 <=? n)%N && (n <=? 122)%N then Some (n - 71)%N
  else if (48 <=? n)%N && (n <=? 57)%N then Some (n + 4)%N
  else if (n =? 45)%N || (n =? 43)%N then Some 62%N
  else if (n =? 95)%N || (n =? 47)%N then Some 63%N
  else None.

(** [buf.toString('base64url')]: no padding. *)
Fixpoint toString_base64url (b : Buffer) : string :=
  match b with
  | x :: y :: z :: rest =>
      let x := Byte.to_N x in let y := Byte.to_N y in let z := Byte.to_N z in
      String (base64url_char (x / 4))
        (String (base64url_char ((x mod 4) * 16 + y / 16))
           (String (base64url_char ((y mod 16) * 4 + z / 64))
              (String (base64url_char (z mod 64)) (toString_base64url rest))))
  | [x; y] =>
      let x := Byte.to_N x in let y := Byte.to_N y in
      String (base64url_char (x / 4))
        (String (base64url_char ((x mod 4) * 16 + y / 16))
           (String (base64url_char ((y mod 16) * 4)) ""))
  | [x] =>
      let x := Byte.to_N x in
      String (base64url_char (x / 4)) (String (base64url_char ((x mod 4) * 16)) "")
  | [] => ""
  end.

(** The six-bit values Node's decoder reads: characters outside the
    alphabets are skipped, [=] ends the input. *)
Fixpoint sextets (s : string) : list N :=
  match s with
  | "" => []
  | String c rest =>
      if (code c =? 61)%N then []
      else match unbase64 c with
           | Some v => v :: sextets rest
           | None => sextets rest
           end
  end.

(** Four values give three bytes; a final group of three gives two bytes,
    of two gives one byte (the unused low bits are dropped), and a single
    left-over value gives nothing. *)
Fixpoint bytes_of_sextets (l : list N) : Buffer :=
  match l with
  | a :: b :: c :: d :: rest =>
      byte_of_N (a * 4 + b / 16) :: byte_of_N ((b mod 16) * 16 + c / 4)
        :: byte_of_N ((c mod 4) * 64 + d) :: bytes_of_sextets rest
  | [a; b; c] => [byte_of_N (a * 4 + b / 16); byte_of_N ((b mod 16) * 16 + c / 4)]
  | [a; b] => [byte_of_N (a * 4 + b / 16)]
  | _ => []
  end.

(** [Buffer.from(s, 'base64url')] *)
Definition Buffer_from_base64url (s : string) : Buffer := bytes_of_sextets (sextets s).

(** ** Dates *)

(** A [Date] is its time value, milliseconds since the epoch. *)

Definition pad (width : nat) (z : Z) : string :=
  let digits := string_of_Z z in
  string_of_list_ascii (repeat "0"%char (width - String.length digits)) +:+ digits.

(** Year, month and day of a day number counted from 1970-01-01
    (proleptic Gregorian calendar). *)
Definition civil_from_days (days : Z) : Z * Z * Z :=
  let z := (days + 719468)%Z in
  let era := (z / 146097)%Z in
  let doe := (z - era * 146097)%Z in
  let yoe := ((doe - doe / 1460 + doe / 36524 - doe / 146096) / 365)%Z in
  let doy := (doe - (365 * yoe + yoe / 4 - yoe / 100))%Z in
  let mp := ((5 * doy + 2) / 153)%Z in
  let d := (doy - (153 * mp + 2) / 5 + 1)%Z in
  let m := if (mp <? 10)%Z then (mp + 3)%Z else (mp - 9)%Z in
  let y := (yoe + era * 400 + (if (m <=? 2)%Z then 1 else 0))%Z in
  (y, m, d).

(** [date.toISOString()], for the years 0000 to 9999. *)
Definition toISOString (t : Z) : string :=
  let days := (t / 86400000)%Z in
  let rest := (t mod 86400000)%Z in
  let '(y, m, d) := civil_from_days days in
  pad 4 y +:+ "-" +:+ pad 2 m +:+ "-" +:+ pad 2 d +:+ "T" +:+
  pad 2 (rest / 3600000) +:+ ":" +:+ pad 2 ((rest / 60000) mod 60) +:+ ":" +:+
  pad 2 ((rest / 1000) mod 60) +:+ "." +:+ pad 3 (rest mod 1000) +:+ "Z".

(** ** jsonwebtoken

    [jwt.sign] and [jwt.verify] of the jsonwebtoken package for HS256, the
    one algorithm the services sign and accept.  A token is the compact
    serialization [base64url(header).base64url(payload).base64url(signature)];
    the clock is in milliseconds, as [Date.now()]. *)

Module jwt.
Section JWT.
Context `{Crypto}.

Record SignOptions := {
  expiresIn : option string;
  sign_issuer : option string;
  sign_audience : option string
}.

Record VerifyOptions := {
  issuer : option string;
  audience : option string;
  algorithms : list string
}.

Definition lower (c : ascii) : ascii :=
  let n := code c in
  if (65 <=? n)%N && (n <=? 90)%N then ascii_of_N (n + 32) else c.

Fixpoint lowercase (s : string) : string :=
  match s with
  | "" => ""
  | String c rest => String (lower c) (lowercase rest)
  end.

Fixpoint skip_blanks (s : string) : string :=
  match s with
  | String " " rest => skip_blanks rest
  | _ => s
  end.

(** Milliseconds per unit of the [ms] package. *)
Definition unit_ms (u : string) : option Z :=
  let u := lowercase u in
  if bool_decide (u ∈ [""; "ms"; "msec"; "msecs"; "millisecond"; "milliseconds"])
  then Some 1%Z
  else if bool_decide (u ∈ ["s"; "sec"; "secs"; "second"; "seconds"]) then Some 1000%Z
  else if bool_decide (u ∈ ["m"; "min"; "mins"; "minute"; "minutes"]) then Some 60000%Z
  else if bool_decide (u ∈ ["h"; "hr"; "hrs"; "hour"; "hours"]) then Some 3600000%Z
  else if bool_decide (u ∈ ["d"; "day"; "days"]) then Some 86400000%Z
  else if bool_decide (u ∈ ["w"; "week"; "weeks"]) then Some 604800000%Z
  else if bool_decide (u ∈ ["y"; "yr"; "yrs"; "year"; "years"]) then Some 31557600000%Z
  else None.

(** [ms(s)] for a whole number followed by an optional unit ("15m", "7d",
    "60 minutes"); [None] is [undefined]. *)
Definition ms (s : string) : option Z :=
  let negative := match s with String "-" _ => true | _ => false end in
  let unsigned := match s with String "-" rest => rest | _ => s end in
  let (digits, rest) := span is_digit unsigned in
  n ← digits_prefix None digits;
  u ← unit_ms (skip_blanks rest);
  Some ((if negative then - n else n) * u)%Z.

(** [timespan(time, iat)] of jsonwebtoken: seconds since the epoch. *)
Definition timespan (time : string) (iat : Z) : option Z :=
  m ← ms time; Some (iat + m / 1000)%Z.

Definition header_HS256 : json := JObj [("alg", JStr "HS256"); ("typ", JStr "JWT")].

Definition encode_part (v : json) : string :=
  toString_base64url (Buffer_from_utf8 (JSON_stringify v)).

(** The HS256 signature of a signing input, base64url encoded. *)
Definition HS256 (secret signing_input : string) : string :=
  toString_base64url (hmac_sha256 (Buffer_from_utf8 secret) (Buffer_from_utf8 signing_input)).

(** Adds the claim [claim] from an option of the same meaning; the payload
    must not carry it already. *)
Definition option_to_payload (opt : option string) (claim option_name : string)
    (payload : list (string * json)) : Result (list (string * json)) :=
  match opt with
  | None => Ok payload
  | Some v =>
      match obj_get claim payload with
      | Some _ => Throw (mkExn Error ("Bad options." +:+ option_name +:+
                    " option. The payload already has a " +:+ claim +:+ " property."))
      | None => Ok (obj_set claim (JStr v) payload)
      end
  end.

(** [jwt.sign(payload, secret, options)] for an object payload. *)
Definition sign (payload : list (string * json)) (secret : option string)
    (options : SignOptions) (now : Z) : Result string :=
  if negb (truthy secret)
  then Throw (mkExn Error "secretOrPrivateKey must have a value")
  else
    timestamp <-
      match obj_get "iat" payload with
      | None => Ok (now / 1000)%Z
      | Some (JNum z) => Ok (if (z =? 0)%Z then (now / 1000)%Z else z)
      | Some _ => Throw (mkExn Error "iat should be a number of seconds")
      end ;;
    let payload := obj_set "iat" (JNum timestamp) payload in
    payload <-
      match expiresIn options with
      | None => Ok payload
      | Some e =>
          match obj_get "exp" payload with
          | Some _ => Throw (mkExn Error
                        "Bad options.expiresIn option the payload already has an exp property.")
          | None =>
              match timespan e timestamp with
              | Some exp => Ok (obj_set "exp" (JNum exp) payload)
              | None => Throw (mkExn Error
                  "expiresIn should be a number of seconds or string representing a timespan")
              end
          end
      end ;;
    payload <- option_to_payload (sign_audience options) "aud" "audience" payload ;;
    payload <- option_to_payload (sign_issuer options) "iss" "issuer" payload ;;
    let signing_input := encode_part header_HS256 +:+ "." +:+ encode_part (JObj payload) in
    Ok (signing_input +:+ "." +:+ HS256 (default "" secret) signing_input).

(** Characters of the base64url alphabet, as the JWS format check reads them. *)
Definition is_base64url_char (c : ascii) : bool :=
  let n := code c in
  ((65 <=? n)%N && (n <=? 90)%N) || ((97 <=? n)%N && (n <=? 122)%N)
  || ((48 <=? n)%N && (n <=? 57)%N) || (n =? 45)%N || (n =? 95)%N.

Definition decode_part (part : string) : Result json :=
  JSON_parse (toString_utf8 (Buffer_from_base64url part)).

Definition JsonWebToken_error (message : string) : Exn := mkExn JsonWebTokenError message.

(** [v === s] for a string [s] *)
Definition is_string (v : option json) (s : string) : bool :=
  match v with
  | Some (JStr x) => String.eqb x s
  | _ => false
  end.

(** Truthiness of a parsed value. *)
Definition json_truthy (v : json) : bool :=
  match v with
  | JNull | JBool false | JNum 0 | JStr "" => false
  | _ => true
  end.

(** The payload as [jwt.decode] returns it: a payload that is not JSON is
    an error when the header's [typ] is JWT and stays a string otherwise. *)
Definition decode_payload (header : json) (p1 : string) : Result json :=
  let typ_JWT := is_string (get_property "typ" header) "JWT" in
  let raw := JStr (toString_utf8 (Buffer_from_base64url p1)) in
  match decode_part p1 with
  | Ok (JObj _ as v) | Ok (JArr _ as v) => Ok v
  | Ok v => if typ_JWT then Ok v else Ok raw
  | Throw e => if typ_JWT then Throw e else Ok raw
  end.

(** [payload.claim] while verifying: reading a property of [null] raises. *)
Definition claim (name : string) (payload : json) : Result (option json) :=
  match payload with
  | JNull => Throw (mkExn TypeError "Cannot read properties of null")
  | _ => Ok (get_property name payload)
  end.

(** A numeric date claim against the clock: [check] tells whether the
    claim's value is acceptable. *)
Definition check_date (value : option json) (check : Z -> bool)
    (invalid : string) (failed : Exn) : Result unit :=
  match value with
  | None => Ok tt
  | Some (JNum z) => if check z then Ok tt else Throw failed
  | Some _ => Throw (JsonWebToken_error invalid)
  end.

(** The checks of the registered claims, after the signature has been
    accepted: [nbf], [exp], [aud] and [iss]. *)
Definition verify_claims (payload : json) (options : VerifyOptions) (clockTimestamp : Z)
  : Result json :=
  nbf <- claim "nbf" payload ;;
  _ <- check_date nbf (fun z => (z <=? clockTimestamp)%Z)
         "invalid nbf value" (mkExn NotBeforeError "jwt not active") ;;
  exp <- claim "exp" payload ;;
  _ <- check_date exp (fun z => (clockTimestamp <? z)%Z)
         "invalid exp value" (mkExn TokenExpiredError "jwt expired") ;;
  _ <- match audience options with
       | Some (String _ _ as a) =>
           aud <- claim "aud" payload ;;
           let target := match aud with
                         | Some (JArr items) => map Some items
                         | other => [other]
                         end in
           if existsb (fun t => is_string t a) target
           then Ok tt
           else Throw (JsonWebToken_error ("jwt audience invalid. expected: " +:+ a))
       | _ => Ok tt
       end ;;
  _ <- match issuer options with
       | Some (String _ _ as i) =>
           iss <- claim "iss" payload ;;
           if is_string iss i then Ok tt
           else Throw (JsonWebToken_error ("jwt issuer invalid. expected: " +:+ i))
       | _ => Ok tt
       end ;;
  Ok payload.

(** [jwt.verify(token, secret, options)]: the decoded payload, or the
    error raised. *)
Definition verify (token : string) (secret : option string) (options : VerifyOptions)
    (now : Z) : Result json :=
  let clockTimestamp := (now / 1000)%Z in
  if negb (truthy (Some token)) then Throw (JsonWebToken_error "jwt must be provided")
  else
    match split_on "." token with
    | [p0; p1; p2] =>
        if negb (truthy (Some p0) && string_forallb is_base64url_char p0
                 && truthy (Some p1) && string_forallb is_base64url_char p1
                 && string_forallb is_base64url_char p2)
        then Throw (JsonWebToken_error "invalid token")
        else
          match decode_part p0 with
          | Throw _ => Throw (JsonWebToken_error "invalid token")
          | Ok header =>
              if negb (json_truthy header) then Throw (JsonWebToken_error "invalid token")
              else
              payload <- decode_payload header p1 ;;
              let hasSignature := truthy (Some p2) in
              if negb hasSignature && truthy secret
              then Throw (JsonWebToken_error "jwt signature is required")
              else if hasSignature && negb (truthy secret)
              then Throw (JsonWebToken_error "secret or public key must be provided")
              else
                match get_property "alg" header with
                | Some (JStr alg) =>
                    if negb (bool_decide (alg ∈ algorithms options))
                    then Throw (JsonWebToken_error "invalid algorithm")
                    else if negb (String.eqb alg "HS256")
                    then Throw (JsonWebToken_error "invalid algorithm")
                    else if negb (truthy secret)
                    then Throw (mkExn TypeError "secret must be a string or buffer")
                    else if negb (String.eqb p2 (HS256 (default "" secret) (p0 +:+ "." +:+ p1)))
                    then Throw (JsonWebToken_error "invalid signature")
                    else verify_claims payload options clockTimestamp
                | _ => Throw (JsonWebToken_error "invalid algorithm")
                end
          end
    | _ => Throw (JsonWebToken_error "jwt malformed")
    end.

End JWT.
End jwt.
(** ** AuthService *)

Module AuthService.
Section Svc.
Context `{Crypto}.

Record t := {
  PBKDF2_ITERATIONS : option Z;     (* [parseInt(...)], [None] for [NaN] *)
  SALT_LENGTH : nat;
  HASH_LENGTH : nat;
  JWT_ACCESS_SECRET : option string;
  JWT_REFRESH_SECRET : option string;
  JWT_ACCESS_EXPIRY : string;
  JWT_REFRESH_EXPIRY : string
}.

Definition new (env : ProcessEnv) : t := {|
  PBKDF2_ITERATIONS := parseInt (or_default (PBKDF2_ITERATIONS_var env) "10000");
  SALT_LENGTH := 16;
  HASH_LENGTH := 64;
  JWT_ACCESS_SECRET := JWT_ACCESS_SECRET_var env;
  JWT_REFRESH_SECRET := JWT_REFRESH_SECRET_var env;
  JWT_ACCESS_EXPIRY := or_default (JWT_ACCESS_EXPIRY_var env) "15m";
  JWT_REFRESH_EXPIRY := or_default (JWT_REFRESH_EXPIRY_var env) "7d"
|}.

(** The [crypto.pbkdf2] call both functions make; [NaN] iterations are
    rejected by its argument check like a count below 1. *)
Definition derive (svc : t) (password : string) (salt : Buffer) : Result Buffer :=
  match PBKDF2_ITERATIONS svc with
  | Some n => pbkdf2 password salt n (HASH_LENGTH svc)
  | None => Throw (mkExn RangeError "The value of iterations is out of range")
  end.

(** Storage format [salt:hash], both in hex.  A rejected promise is [Throw]. *)
Definition hashPassword (svc : t) (password : string) (g : Rng) : Result (string * Rng) :=
  let (salt, g') := randomBytes (SALT_LENGTH svc) g in
  derivedKey <- derive svc password salt ;;
  let hash := toString_hex derivedKey in
  let saltHex := toString_hex salt in
  Ok (saltHex +:+ ":" +:+ hash, g').

Definition verifyPassword (svc : t) (password storedHash : string) : Result bool :=
  let parts := split_on ":" storedHash in
  let saltHex := nth_error parts 0 in
  let hashHex := nth_error parts 1 in
  if negb (truthy saltHex) || negb (truthy hashHex) then Ok false
  else
    let salt := Buffer_from_hex (default "" saltHex) in
    derivedKey <- derive svc password salt ;;
    let hash := toString_hex derivedKey in
    let storedHashBuffer := Buffer_from_hex (default "" hashHex) in
    let computedHashBuffer := Buffer_from_hex hash in
    try_catch (timingSafeEqual storedHashBuffer computedHashBuffer)
              (fun _ => Ok false).

Record AccessPayload := { userId : string; email : string; role : string }.

(** [decoded.userId], [decoded.email] and [decoded.role]; [None] is
    [undefined]. *)
Record AccessClaims := {
  claims_userId : option json;
  claims_email : option json;
  claims_role : option json
}.

(** JWT access token; payload [{ userId, email, role }]. *)
Definition generateAccessToken (svc : t) (payload : AccessPayload) (now : Z)
  : Result string :=
  jwt.sign [("userId", JStr (userId payload));
            ("email", JStr (email payload));
            ("role", JStr (role payload))]
           (JWT_ACCESS_SECRET svc)
           {| jwt.expiresIn := Some (JWT_ACCESS_EXPIRY svc);
              jwt.sign_issuer := None;
              jwt.sign_audience := None |}
           now.

(** JWT refresh token; payload [{ userId }]. *)
Definition generateRefreshToken (svc : t) (user : string) (now : Z) : Result string :=
  jwt.sign [("userId", JStr user)]
           (JWT_REFRESH_SECRET svc)
           {| jwt.expiresIn := Some (JWT_REFRESH_EXPIRY svc);
              jwt.sign_issuer := None;
              jwt.sign_audience := None |}
           now.

Definition access_verify_options : jwt.VerifyOptions :=
  {| jwt.issuer := Some "pharmalync";
     jwt.audience := Some "pharmalync-api";
     jwt.algorithms := ["HS256"] |}.

Definition verifyAccessToken (svc : t) (token : string) (now : Z) : Result AccessClaims :=
  try_catch
    (decoded <- jwt.verify token (JWT_ACCESS_SECRET svc) access_verify_options now ;;
     Ok {| claims_userId := get_property "userId" decoded;
           claims_email := get_property "email" decoded;
           claims_role := get_property "role" decoded |})
    (fun error =>
       if instanceof error TokenExpiredError then Throw (mkExn Error "Token expired")
       else if instanceof error JsonWebTokenError then Throw (mkExn Error "Invalid token")
       else Throw error).

Definition verifyRefreshToken (svc : t) (token : string) (now : Z) : Result (option json) :=
  try_catch
    (decoded <- jwt.verify token (JWT_REFRESH_SECRET svc) access_verify_options now ;;
     Ok (get_property "userId" decoded))
    (fun error =>
       if instanceof error TokenExpiredError then Throw (mkExn Error "Refresh token expired")
       else if instanceof error JsonWebTokenError
       then Throw (mkExn Error "Invalid refresh token")
       else Throw error).

End Svc.
End AuthService.


(** ** ConsentService *)

Module ConsentService.
Section Svc.
Context `{Crypto}.

Inductive ConsentScope := VIEW_MEDICAL_RECORDS | VIEW_AADHAAR | UPDATE_RECORDS.

#[global] Instance ConsentScope_eq_dec : EqDecision ConsentScope.
Proof. solve_decision. Defined.

(** The string value of a scope, as it is stored and signed. *)
Definition scope_name (s : ConsentScope) : string :=
  match s with
  | VIEW_MEDICAL_RECORDS => "VIEW_MEDICAL_RECORDS"
  | VIEW_AADHAAR => "VIEW_AADHAAR"
  | UPDATE_RECORDS => "UPDATE_RECORDS"
  end.

(** A row of the [consent] table. *)
Record Consent := {
  id : string;
  patientId : string;
  grantedTo : string;
  scopes : list ConsentScope;
  expiresAt : Z;
  revoked : bool
}.

(** The [consent] table, by primary key. *)
Abbreviation Table := (gmap string Consent).

Record t := { CONSENT_TOKEN_SECRET : option string }.

Definition new (env : ProcessEnv) : t :=
  {| CONSENT_TOKEN_SECRET := CONSENT_TOKEN_SECRET_var env |}.

(** Modelled from the spec: the Prisma schema is not among the sources; a
    created grant is persisted with [revoked = false], under the generated
    primary key [newId].  A key already in use violates the unique
    constraint. *)
Definition prisma_consent_create (db : Table) (newId : string)
    (patient grantee : string) (granted : list ConsentScope) (expires : Z)
  : Result (Consent * Table) :=
  match db !! newId with
  | Some _ => Throw (mkExn PrismaClientKnownRequestError
                "Unique constraint failed on the fields: (id)")
  | None =>
      let consent := {| id := newId; patientId := patient; grantedTo := grantee;
                        scopes := granted; expiresAt := expires; revoked := false |} in
      Ok (consent, <[newId := consent]> db)
  end.

(** [prisma.consent.update({ where: { id }, data: { revoked: true } })]:
    an error when no row has the id. *)
Definition prisma_consent_update_revoked (db : Table) (consentId : string)
  : Result Table :=
  match db !! consentId with
  | Some consent =>
      Ok (<[consentId := {| id := id consent; patientId := patientId consent;
                            grantedTo := grantedTo consent; scopes := scopes consent;
                            expiresAt := expiresAt consent; revoked := true |}]> db)
  | None => Throw (mkExn PrismaClientKnownRequestError
              "An operation failed because it depends on one or more records that were required but not found.")
  end.

Definition sign_options (expiryMinutes : Z) : jwt.SignOptions :=
  {| jwt.expiresIn := Some (string_of_Z expiryMinutes +:+ "m");
     jwt.sign_issuer := Some "pharmalync";
     jwt.sign_audience := Some "pharmalync-consent" |}.

Definition verify_options : jwt.VerifyOptions :=
  {| jwt.issuer := Some "pharmalync";
     jwt.audience := Some "pharmalync-consent";
     jwt.algorithms := ["HS256"] |}.

(** Persists the grant, then signs a token with [consentId], [patientId],
    [grantedTo], [scopes] and [expiresAt]. *)
Definition generateConsentToken (svc : t) (db : Table) (newId : string)
    (patient grantee : string) (granted : list ConsentScope) (expiryMinutes : Z)
    (now : Z) : Result ((string * string) * Table) :=
  let expires := (now + expiryMinutes * 60 * 1000)%Z in
  created <- prisma_consent_create db newId patient grantee granted expires ;;
  let consent := fst created in
  token <- jwt.sign [("consentId", JStr (id consent));
                     ("patientId", JStr patient);
                     ("grantedTo", JStr grantee);
                     ("scopes", JArr (map (fun s => JStr (scope_name s)) granted));
                     ("expiresAt", JStr (toISOString expires))]
                    (CONSENT_TOKEN_SECRET svc) (sign_options expiryMinutes) now ;;
  Ok ((token, id consent), snd created).

Record Verification := {
  valid : bool;
  v_consentId : option string;
  v_patientId : option string;
  v_grantedTo : option string;
  v_scopes : option (list ConsentScope);
  error : option string
}.

Definition invalid (message : string) : Verification :=
  {| valid := false; v_consentId := None; v_patientId := None; v_grantedTo := None;
     v_scopes := None; error := Some message |}.

(** [prisma.consent.findUnique({ where: { id: decoded.consentId } })]: the
    id must be a string. *)
Definition prisma_consent_findUnique (db : Table) (consentId : option json)
  : Result (option Consent) :=
  match consentId with
  | Some (JStr i) => Ok (db !! i)
  | _ => Throw (mkExn Error "Argument where needs at least one of id arguments.")
  end.

(** Checks the token, then the persisted grant: found, not revoked, not
    expired, and holding every required scope. *)
Definition verifyConsentToken (svc : t) (db : Table) (token : string)
    (requiredScopes : list ConsentScope) (now : Z) : Verification :=
  match
    (decoded <- jwt.verify token (CONSENT_TOKEN_SECRET svc) verify_options now ;;
     found <- prisma_consent_findUnique db (get_property "consentId" decoded) ;;
     Ok match found with
        | None => invalid "Consent not found"
        | Some consent =>
            if revoked consent then invalid "Consent has been revoked"
            else if (expiresAt consent <? now)%Z then invalid "Consent has expired"
            else
              let hasRequiredScopes :=
                forallb (fun scope => bool_decide (scope ∈ scopes consent)) requiredScopes in
              if negb hasRequiredScopes then invalid "Insufficient consent scopes"
              else {| valid := true;
                      v_consentId := Some (id consent);
                      v_patientId := Some (patientId consent);
                      v_grantedTo := Some (grantedTo consent);
                      v_scopes := Some (scopes consent);
                      error := None |}
        end)
  with
  | Ok result => result
  | Throw e =>
      if instanceof e TokenExpiredError then invalid "Consent token expired"
      else if instanceof e JsonWebTokenError then invalid "Invalid consent token"
      else invalid "Consent verification failed"
  end.

Definition revokeConsent (db : Table) (consentId : string) : Result Table :=
  prisma_consent_update_revoked db consentId.

End Svc.
End ConsentService.

(** ** QrSecurityService *)

(** [Buffer.from(o)] for an array or an object read from JSON.  Node
    copies an array, an array-like object and a [{type: 'Buffer', data}]
    object element by element, each element converted to a byte as
    JavaScript converts a value to an unsigned 8-bit integer, and raises a
    [TypeError] for any other object.  The conversion is a parameter. *)
Class BufferCoercion := { Buffer_from_object : json -> Result Buffer }.

Module QrSecurityService.
Section Svc.
Context `{Crypto} `{BufferCoercion}.

Definition IV_LENGTH : nat := 12.

(** The two keys of a resource type: [QR_TOKEN_<type>] for encryption,
    [QR_SIGN_<type>] for the signature. *)
Definition tokenKey (masterKey : Buffer) (resourceType : string) : Buffer :=
  hmac_sha256 masterKey (Buffer_from_utf8 ("QR_TOKEN_" +:+ resourceType)).
Definition signKey (masterKey : Buffer) (resourceType : string) : Buffer :=
  hmac_sha256 masterKey (Buffer_from_utf8 ("QR_SIGN_" +:+ resourceType)).

(** [{ ...data, nonce, timestamp }] *)
Definition augment (data : list (string * json)) (nonce : string) (timestamp : Z)
  : list (string * json) :=
  obj_set "timestamp" (JNum timestamp) (obj_set "nonce" (JStr nonce) data).

(** HMAC-SHA512 over the IV, the tag and the hex ciphertext, in hex. *)
Definition sign_package (key iv tag : Buffer) (encrypted : string) : string :=
  toString_hex (hmac_sha512 key (iv ++ tag ++ Buffer_from_utf8 encrypted)).

Definition packageData (iv tag encrypted signature : string) : json :=
  JObj [("iv", JStr iv); ("tag", JStr tag);
        ("encrypted", JStr encrypted); ("signature", JStr signature)].

Definition generateSecureToken (env : ProcessEnv) (data : list (string * json))
    (resourceType : string) (g : Rng) (now : Z) : Result (string * Rng) :=
  kms <- getKMS env ;;
  let masterKey := KeyManagementService.getMasterKey kms in
  let (nonce, g1) := randomBytes 16 g in
  let payload := JSON_stringify (JObj (augment data (toString_hex nonce) now)) in
  let (iv, g2) := randomBytes IV_LENGTH g1 in
  ct <- cipher_aes_256_gcm (tokenKey masterKey resourceType) iv (Buffer_from_utf8 payload) ;;
  let encrypted := toString_hex (fst ct) in
  let tag := snd ct in
  let signature := sign_package (signKey masterKey resourceType) iv tag encrypted in
  Ok (toString_base64url
        (Buffer_from_utf8
           (JSON_stringify
              (packageData (toString_hex iv) (toString_hex tag) encrypted signature))),
      g2).

(** [Buffer.from(v, 'hex')]: a string is decoded; [undefined], [null],
    numbers and booleans raise a [TypeError]; an array or an object goes to
    [Buffer_from_object]. *)
Definition Buffer_from_value (v : option json) : Result Buffer :=
  match v with
  | Some (JStr s) => Ok (Buffer_from_hex s)
  | Some (JArr _ as o) | Some (JObj _ as o) => Buffer_from_object o
  | _ => Throw (mkExn TypeError
           "The first argument must be of type string or an instance of Buffer")
  end.

(** A value used where a string is required ([hmac.update], [decipher.update]). *)
Definition as_string (v : option json) : Result string :=
  match v with
  | Some (JStr s) => Ok s
  | _ => Throw (mkExn TypeError "The data argument must be of type string or an instance of Buffer")
  end.

(** The body of the [try] block of [verifyToken]. *)
Definition verifyToken_body (env : ProcessEnv) (token resourceType : string)
  : Result json :=
  kms <- getKMS env ;;
  let masterKey := KeyManagementService.getMasterKey kms in
  (* 1. Unpack *)
  let jsonStr := toString_utf8 (Buffer_from_base64url token) in
  parsed <- JSON_parse jsonStr ;;
  _ <- match parsed with
       | JNull => Throw (mkExn TypeError "Cannot destructure property iv of null")
       | _ => Ok tt
       end ;;
  let iv := get_property "iv" parsed in
  let tag := get_property "tag" parsed in
  let encrypted := get_property "encrypted" parsed in
  let signature := get_property "signature" parsed in
  ivBuffer <- Buffer_from_value iv ;;
  tagBuffer <- Buffer_from_value tag ;;
  (* 2. Verify the signature before decryption *)
  ciphertext <- as_string encrypted ;;
  let expectedSignature :=
    sign_package (signKey masterKey resourceType) ivBuffer tagBuffer ciphertext in
  signatureBuffer <- Buffer_from_value signature ;;
  same <- timingSafeEqual signatureBuffer (Buffer_from_hex expectedSignature) ;;
  if negb same
  then Throw (mkExn Error "SECURITY_ALERT: QR Token signature is invalid or tampered")
  else
    (* 3. Decrypt *)
    _ <- check_key_iv (tokenKey masterKey resourceType) ivBuffer ;;
    _ <- setAuthTag tagBuffer ;;
    decrypted <- decipher_final (tokenKey masterKey resourceType) ivBuffer tagBuffer
                   (Buffer_from_hex ciphertext) ;;
    JSON_parse (toString_utf8 decrypted).

Definition INVALID_QR : Exn :=
  mkExn Error "INVALID_QR: Unable to verify authenticity of the scanned code".

(** [verifyToken]: what the caller gets, and what [console.error] printed. *)
Definition verifyToken (env : ProcessEnv) (token resourceType : string)
  : Result json * list string :=
  match verifyToken_body env token resourceType with
  | Ok data => (Ok data, [])
  | Throw error => (Throw INVALID_QR, ["QR Verification Failed: " +:+ exn_message error])
  end.

Definition generateLookupHash (env : ProcessEnv) (id : string) : Result string :=
  kms <- getKMS env ;;
  Ok (toString_hex (hmac_sha256 (KeyManagementService.getMasterKey kms)
                      (Buffer_from_utf8 ("PUBLIC_LOOKUP_" +:+ id)))).

End Svc.
End QrSecurityService.

(** ** BlockchainService *)

Module BlockchainService.

(** The audit contract as the service sees it: what a call returns, or the
    error it raises (node unreachable, timeout, revert). *)
Record AuditContract := {
  contract_verifyAudit : string -> Result (string * string * Z);
  contract_logAudit : string -> string -> string -> Z -> Result string
}.

(** [pharmalyncAudit] stays undefined when the configuration is incomplete. *)
Record t := { pharmalyncAudit : option AuditContract }.

(** The stored data hash of an audit id: the empty string when the service
    is not initialised and when the contract call fails. *)
Definition verifyAudit (svc : t) (auditId : string) : Result string :=
  match pharmalyncAudit svc with
  | None => Ok ""
  | Some contract =>
      try_catch
        (result <- contract_verifyAudit contract auditId ;;
         Ok (snd (fst result)))
        (fun _ => Ok "")
  end.

Definition logAuditToBlockchain (svc : t) (auditId action dataHash : string)
    (timestamp : Z) : Result string :=
  match pharmalyncAudit svc with
  | None => Ok "OFF_CHAIN"
  | Some contract => contract_logAudit contract auditId action dataHash (timestamp / 1000)
  end.

End BlockchainService.

(** ** AuditService *)

Module AuditService.
Section Svc.
Context `{Crypto}.

Definition CriticalAction : list string :=
  ["VIEW_AADHAAR"; "CREATE_PATIENT"; "UPDATE_PATIENT"; "MEDICINE_DISPENSE";
   "PRESCRIPTION_CREATE"].

Record t := { blockchainService : BlockchainService.t }.

(** A row of the [auditLog] table. *)
Record AuditLog := {
  id : string;
  userId : string;
  action : string;
  resourceType : string;
  resourceId : option string;
  metadata : option json;
  timestamp : Z;
  blockchainTxHash : option string
}.

Abbreviation Table := (gmap string AuditLog).

Record AuditData := {
  data_userId : string;
  data_action : string;
  data_resourceType : string;
  data_resourceId : option string;
  data_timestamp : Z
}.

Record Params := {
  p_userId : string;
  p_action : string;
  p_resourceType : string;
  p_resourceId : option string;
  p_metadata : option json
}.

Definition isCriticalAction (a : string) : bool :=
  bool_decide (a ∈ CriticalAction).

(** SHA-256, in hex, of the canonical JSON of the audit data. *)
Definition hashAuditData (auditData : AuditData) : string :=
  let data := JSON_stringify (JObj
    [("userId", JStr (data_userId auditData));
     ("action", JStr (data_action auditData));
     ("resourceType", JStr (data_resourceType auditData));
     ("resourceId", JStr (or_default (data_resourceId auditData) ""));
     ("timestamp", JStr (toISOString (data_timestamp auditData)))]) in
  toString_hex (sha256 (Buffer_from_utf8 data)).

(** [prisma.auditLog.create]: the row gets the generated key [newId]. *)
Definition prisma_auditLog_create (db : Table) (newId : string) (params : Params)
    (now : Z) : Result (AuditLog * Table) :=
  match db !! newId with
  | Some _ => Throw (mkExn PrismaClientKnownRequestError
                "Unique constraint failed on the fields: (id)")
  | None =>
      let row := {| id := newId; userId := p_userId params; action := p_action params;
                    resourceType := p_resourceType params;
                    resourceId := p_resourceId params; metadata := p_metadata params;
                    timestamp := now; blockchainTxHash := None |} in
      Ok (row, <[newId := row]> db)
  end.

(** [prisma.auditLog.update({ where: { id }, data: { blockchainTxHash } })] *)
Definition prisma_auditLog_update (db : Table) (auditId txHash : string) : Result Table :=
  match db !! auditId with
  | Some row =>
      Ok (<[auditId := {| id := id row; userId := userId row; action := action row;
                          resourceType := resourceType row; resourceId := resourceId row;
                          metadata := metadata row; timestamp := timestamp row;
                          blockchainTxHash := Some txHash |}]> db)
  | None => Throw (mkExn PrismaClientKnownRequestError
              "An operation failed because it depends on one or more records that were required but not found.")
  end.

(** Tier 2: submit the hash to the ledger, then record the transaction
    hash on the row.  An error is logged and raised again. *)
Definition logCriticalAudit (svc : t) (db : Table) (auditId : string)
    (auditData : AuditData) : Result Table * list string :=
  let hash := hashAuditData auditData in
  match
    (txHash <- BlockchainService.logAuditToBlockchain (blockchainService svc) auditId
                 (data_action auditData) hash (data_timestamp auditData) ;;
     prisma_auditLog_update db auditId txHash)
  with
  | Ok db' => (Ok db', [])
  | Throw e => (Throw e, ["Failed to log to blockchain: " +:+ exn_message e])
  end.

(** The call [logAudit] starts and does not wait for. *)
Record Detached := { detached_auditId : string; detached_data : AuditData }.

(** Tier 1: the row is created and its id returned; for a critical action
    the ledger call is started, detached from the caller. *)
Definition logAudit (svc : t) (db : Table) (newId : string) (params : Params) (now : Z)
  : Result (string * Table * option Detached) :=
  created <- prisma_auditLog_create db newId params now ;;
  let auditLog := fst created in
  let started :=
    if isCriticalAction (p_action params)
    then Some {| detached_auditId := id auditLog;
                 detached_data := {| data_userId := p_userId params;
                                     data_action := p_action params;
                                     data_resourceType := p_resourceType params;
                                     data_resourceId := p_resourceId params;
                                     data_timestamp := now |} |}
    else None in
  Ok (id auditLog, snd created, started).

(** The detached call running to its end, with its [.catch]: a failure is
    logged and goes no further; the table is as the call left it. *)
Definition run_detached (svc : t) (db : Table) (d : Detached) : Table * list string :=
  match logCriticalAudit svc db (detached_auditId d) (detached_data d) with
  | (Ok db', out) => (db', out)
  | (Throw e, out) => (db, out ++ ["Blockchain audit logging failed: " +:+ exn_message e])
  end.

Definition getAuditLog (db : Table) (auditId : string) : option AuditLog := db !! auditId.

Record Integrity := {
  valid : bool;
  localHash : string;
  blockchainHash : option string;
  error : option string
}.

Definition verifyAuditIntegrity (svc : t) (db : Table) (auditId : string) : Integrity :=
  match getAuditLog db auditId with
  | None => {| valid := false; localHash := ""; blockchainHash := None;
               error := Some "Audit log not found" |}
  | Some auditLog =>
      let local := hashAuditData
        {| data_userId := userId auditLog; data_action := action auditLog;
           data_resourceType := resourceType auditLog;
           data_resourceId := resourceId auditLog;
           data_timestamp := timestamp auditLog |} in
      if negb (truthy (blockchainTxHash auditLog))
      then {| valid := true; localHash := local; blockchainHash := None;
              error := Some "Not logged to blockchain" |}
      else
        match BlockchainService.verifyAudit (blockchainService svc) auditId with
        | Ok chainHash =>
            let ok := String.eqb local chainHash in
            {| valid := ok; localHash := local; blockchainHash := Some chainHash;
               error := if ok then None else Some "Hash mismatch - data may be tampered" |}
        | Throw e =>
            {| valid := false; localHash := local; blockchainHash := None;
               error := Some ("Blockchain verification failed: Error: " +:+ exn_message e) |}
        end
  end.

End Svc.
End AuditService.
(** * Vocabulary of the properties

    Definitions the statements below are written with. *)

(** ** Strings *)

(** Characters other than a separator. *)
Definition not_char (sep c : ascii) : bool := negb (Ascii.eqb c sep).
Definition not_colon : ascii -> bool := not_char ":".

(** ** JSON *)

(** A literal with a fraction or an exponent, as [JSON.parse] reads one. *)
Definition fraction_literal (literal : string) : bool :=
  string_forallb is_number_char literal &&
  match number_shape literal with Some false => true | _ => false end.

(** The values [JSON.stringify] writes and [JSON.parse] reads back. *)
Fixpoint serializable (v : json) : bool :=
  match v with
  | JFrac literal => fraction_literal literal
  | JArr items => forallb serializable items
  | JObj fields =>
      forallb (fun kv => serializable (snd kv)) fields
      && bool_decide (NoDup (map fst fields))
  | _ => true
  end.

(** Number of nested parser calls a value needs. *)
Fixpoint json_size (v : json) : nat :=
  match v with
  | JArr items => S (list_sum (map (fun x => S (json_size x)) items))
  | JObj fields => S (list_sum (map (fun kv => S (json_size (snd kv))) fields))
  | _ => 0
  end.

(** What may follow a number literal: nothing, or a character that is not
    part of a number. *)
Definition ends_number (rest : string) : bool :=
  match rest with
  | "" => true
  | String c _ => negb (is_number_char c)
  end.

(** The digits of an integer, without its sign. *)
Definition digits_of_Z (z : Z) : string :=
  match z with
  | Z0 => "0"
  | Zpos p | Zneg p => NilEmpty.string_of_uint (Pos.to_uint p)
  end.

(** The number a digit sequence denotes, read from the left onto [acc]. *)
Fixpoint horner (d : Decimal.uint) (acc : Z) : Z :=
  match d with
  | Decimal.Nil => acc
  | Decimal.D0 d => horner d (10 * acc + 0)
  | Decimal.D1 d => horner d (10 * acc + 1)
  | Decimal.D2 d => horner d (10 * acc + 2)
  | Decimal.D3 d => horner d (10 * acc + 3)
  | Decimal.D4 d => horner d (10 * acc + 4)
  | Decimal.D5 d => horner d (10 * acc + 5)
  | Decimal.D6 d => horner d (10 * acc + 6)
  | Decimal.D7 d => horner d (10 * acc + 7)
  | Decimal.D8 d => horner d (10 * acc + 8)
  | Decimal.D9 d => horner d (10 * acc + 9)
  end%Z.

(** The first character of a number literal: a digit or the sign. *)
Definition starts_number (s : string) : Prop :=
  exists c tail, s = String c tail /\ (is_digit c = true \/ c = "-"%char).

(** The first character of a serialized value: not white space and not a
    closing bracket. *)
Definition starts_value (s : string) : Prop :=
  exists c tail, s = String c tail /\ is_json_space c = false /\
                 c <> "]"%char /\ c <> "}"%char.

(** The text of one property of an object. *)
Definition member (kv : string * json) : string :=
  quote (fst kv) +:+ ":" +:+ JSON_stringify (snd kv).

(** What the parser is shown to do on the serialization of [v]. *)
Definition reads_back (v : json) : Prop :=
  serializable v = true ->
  forall fuel rest,
    (json_size v < fuel)%nat -> ends_number rest = true ->
    parse_value fuel (JSON_stringify v +:+ rest) = Some (v, rest).

(** ** Passwords *)

(** The two components of a stored credential, as [storedHash.split(':')]
    yields them. *)
Definition salt_component (stored : string) : option string :=
  nth_error (split_on ":" stored) 0.
Definition hash_component (stored : string) : option string :=
  nth_error (split_on ":" stored) 1.

(** ** QR tokens *)

(** The wire format of a package: base64url of its JSON text. *)
Definition serialize (package : json) : string :=
  toString_base64url (Buffer_from_utf8 (JSON_stringify package)).

(** ** Access tokens *)

(** The claim set [jwt.sign] builds for an access token. *)
Definition access_claims (payload : AuthService.AccessPayload) (iat exp : Z)
  : list (string * json) :=
  [("userId", JStr (AuthService.userId payload));
   ("email", JStr (AuthService.email payload));
   ("role", JStr (AuthService.role payload));
   ("iat", JNum iat); ("exp", JNum exp)].

(** ** Consent tokens *)

(** The claim set [jwt.sign] builds for a consent token. *)
Definition consent_claims (consentId patient grantee : string)
    (granted : list ConsentService.ConsentScope) (expires iat exp : Z)
  : list (string * json) :=
  [("consentId", JStr consentId); ("patientId", JStr patient);
   ("grantedTo", JStr grantee);
   ("scopes", JArr (map (fun s => JStr (ConsentService.scope_name s)) granted));
   ("expiresAt", JStr (toISOString expires));
   ("iat", JNum iat); ("exp", JNum exp);
   ("aud", JStr "pharmalync-consent"); ("iss", JStr "pharmalync")].

(** The row [generateConsentToken] persists. *)
Definition consent_record (newId patient grantee : string)
    (granted : list ConsentService.ConsentScope) (expires : Z) : ConsentService.Consent :=
  {| ConsentService.id := newId; ConsentService.patientId := patient;
     ConsentService.grantedTo := grantee; ConsentService.scopes := granted;
     ConsentService.expiresAt := expires; ConsentService.revoked := false |}.

(** ** Audit *)

(** The data [verifyAuditIntegrity] hashes for a row. *)
Definition audit_data_of (row : AuditService.AuditLog) : AuditService.AuditData :=
  {| AuditService.data_userId := AuditService.userId row;
     AuditService.data_action := AuditService.action row;
     AuditService.data_resourceType := AuditService.resourceType row;
     AuditService.data_resourceId := AuditService.resourceId row;
     AuditService.data_timestamp := AuditService.timestamp row |}.

(** The data [logAudit] hashes for the ledger. *)
Definition audit_data_of_params (params : AuditService.Params) (now : Z)
  : AuditService.AuditData :=
  {| AuditService.data_userId := AuditService.p_userId params;
     AuditService.data_action := AuditService.p_action params;
     AuditService.data_resourceType := AuditService.p_resourceType params;
     AuditService.data_resourceId := AuditService.p_resourceId params;
     AuditService.data_timestamp := now |}.

(** The row [logAudit] creates. *)
Definition audit_row (newId : string) (params : AuditService.Params) (now : Z)
  : AuditService.AuditLog :=
  {| AuditService.id := newId;
     AuditService.userId := AuditService.p_userId params;
     AuditService.action := AuditService.p_action params;
     AuditService.resourceType := AuditService.p_resourceType params;
     AuditService.resourceId := AuditService.p_resourceId params;
     AuditService.metadata := AuditService.p_metadata params;
     AuditService.timestamp := now;
     AuditService.blockchainTxHash := None |}.

(** The ledger cannot be reached for [auditId]: the service holds no
    contract, or the contract call raises. *)
Definition ledger_unreachable (bc : BlockchainService.t) (auditId : string) : Prop :=
  BlockchainService.pharmalyncAudit bc = None \/
  exists contract e,
    BlockchainService.pharmalyncAudit bc = Some contract /\
    BlockchainService.contract_verifyAudit contract auditId = Throw e.

(** * The smart contracts

    [PharmaLyncCore] (medicine registry) and [PharmaLyncAudit] (audit
    ledger), with the parts of OpenZeppelin's [AccessControl] and [Ownable]
    they inherit.  An [address] and a [uint256] are natural numbers, a
    [bytes32] role identifier is a number too; [msg.sender] and
    [block.timestamp] come with every call.  A call either returns, with
    the new state and the events it emitted, or reverts and leaves the
    state as it was. *)

Module Solidity.
#[local] Open Scope N_scope.

Definition address := N.
Definition uint256_max : N := 2 ^ 256 - 1.

(** [msg.sender] and [block.timestamp] of a call. *)
Record Msg := { sender : address; timestamp : N }.

Inductive Revert :=
| Require_failed (message : string)
| Panic (code : N)
| AccessControlUnauthorizedAccount (account : address) (neededRole : N)
| AccessControlBadConfirmation
| OwnableUnauthorizedAccount (account : address)
| OwnableInvalidOwner (owner : address).

Inductive Tx (A : Type) :=
| Returned (a : A)
| Reverted (r : Revert).
Arguments Returned {A} a.
Arguments Reverted {A} r.

(** [require(cond, message); rest] *)
Definition require {A} (cond : bool) (message : string) (rest : Tx A) : Tx A :=
  if cond then rest else Reverted (Require_failed message).

(** [x++] on a [uint256], with the overflow check of Solidity 0.8. *)
Definition checked_increment {A} (x : N) (rest : N -> Tx A) : Tx A :=
  if (x =? uint256_max)%N then Reverted (Panic 17) else rest (x + 1)%N.

(** The hash behind the role identifiers. *)
Class Keccak := { keccak256 : string -> N }.

End Solidity.

(** ** PharmaLyncCore *)

Module PharmaLyncCore.
Import Solidity.
#[local] Open Scope N_scope.
Section Contract.
Context `{Keccak}.

Definition DEFAULT_ADMIN_ROLE : N := 0.
Definition MANUFACTURER_ROLE : N := keccak256 "MANUFACTURER_ROLE".
Definition PHARMACY_ROLE : N := keccak256 "PHARMACY_ROLE".
Definition ADMIN_ROLE : N := keccak256 "ADMIN_ROLE".

Record Medicine := {
  id : N;
  name : string;
  manufacturer : string;
  batchNumber : string;
  registeredAt : N;
  dispensed : bool;
  dispensedBy : address;
  dispensedAt : N
}.

(** The value of a mapping entry that was never written. *)
Definition no_medicine : Medicine :=
  {| id := 0; name := ""; manufacturer := ""; batchNumber := ""; registeredAt := 0;
     dispensed := false; dispensedBy := 0; dispensedAt := 0 |}.

Record State := {
  roles : gset (N * address);                 (* [_roles[role].hasRole[account]] *)
  medicineCounter : N;
  medicines : gmap N Medicine;
  batchNumberToId : gmap string N
}.

Inductive Event :=
| RoleGranted (role : N) (account sender : address)
| RoleRevoked (role : N) (account sender : address)
| MedicineRegistered (medicineId : N) (name manufacturer batchNumber : string)
    (timestamp : N)
| MedicineDispensed (medicineId : N) (pharmacy : address) (timestamp : N).

(** [medicines[id]] and [batchNumberToId[batch]] *)
Definition medicine_at (st : State) (medicineId : N) : Medicine :=
  default no_medicine (medicines st !! medicineId).
Definition batch_id (st : State) (batch : string) : N :=
  default 0%N (batchNumberToId st !! batch).

(** *** AccessControl *)

Definition hasRole (st : State) (role : N) (account : address) : bool :=
  bool_decide ((role, account) ∈ roles st).

(** No role has an admin role of its own: every role is administered by
    [DEFAULT_ADMIN_ROLE]. *)
Definition getRoleAdmin (role : N) : N := DEFAULT_ADMIN_ROLE.

Definition set_roles (st : State) (r : gset (N * address)) : State :=
  {| roles := r; medicineCounter := medicineCounter st; medicines := medicines st;
     batchNumberToId := batchNumberToId st |}.

Definition _grantRole (m : Msg) (role : N) (account : address) (st : State)
  : State * list Event :=
  if hasRole st role account then (st, [])
  else (set_roles st ({[ (role, account) ]} ∪ roles st),
        [RoleGranted role account (sender m)]).

Definition _revokeRole (m : Msg) (role : N) (account : address) (st : State)
  : State * list Event :=
  if hasRole st role account
  then (set_roles st (roles st ∖ {[ (role, account) ]}),
        [RoleRevoked role account (sender m)])
  else (st, []).

(** The modifier [onlyRole(role)] *)
Definition onlyRole {A} (m : Msg) (role : N) (st : State) (body : Tx A) : Tx A :=
  if hasRole st role (sender m) then body
  else Reverted (AccessControlUnauthorizedAccount (sender m) role).

Definition grantRole (m : Msg) (role : N) (account : address) (st : State)
  : Tx (State * list Event) :=
  onlyRole m (getRoleAdmin role) st (Returned (_grantRole m role account st)).

Definition revokeRole (m : Msg) (role : N) (account : address) (st : State)
  : Tx (State * list Event) :=
  onlyRole m (getRoleAdmin role) st (Returned (_revokeRole m role account st)).

Definition renounceRole (m : Msg) (role : N) (callerConfirmation : address) (st : State)
  : Tx (State * list Event) :=
  if negb (callerConfirmation =? sender m)%N then Reverted AccessControlBadConfirmation
  else Returned (_revokeRole m role callerConfirmation st).

(** *** The contract *)

(** The constructor grants the admin roles to the deployer. *)
Definition constructor (m : Msg) : State * list Event :=
  let st0 := {| roles := ∅; medicineCounter := 0; medicines := ∅;
                batchNumberToId := ∅ |} in
  let '(st1, ev1) := _grantRole m DEFAULT_ADMIN_ROLE (sender m) st0 in
  let '(st2, ev2) := _grantRole m ADMIN_ROLE (sender m) st1 in
  (st2, ev1 ++ ev2).

Definition registerMedicine (m : Msg) (name manufacturer batchNumber : string)
    (st : State) : Tx (N * State * list Event) :=
  onlyRole m MANUFACTURER_ROLE st
    (require (0 <? String.length name)%nat "Name cannot be empty"
    (require (0 <? String.length manufacturer)%nat "Manufacturer cannot be empty"
    (require (0 <? String.length batchNumber)%nat "Batch number cannot be empty"
    (require (batch_id st batchNumber =? 0)%N "Batch number already exists"
    (checked_increment (medicineCounter st) (fun medicineId =>
       let medicine :=
         {| id := medicineId; name := name; manufacturer := manufacturer;
            batchNumber := batchNumber; registeredAt := timestamp m;
            dispensed := false; dispensedBy := 0; dispensedAt := 0 |} in
       Returned
         (medicineId,
          {| roles := roles st;
             medicineCounter := medicineId;
             medicines := <[medicineId := medicine]> (medicines st);
             batchNumberToId := <[batchNumber := medicineId]> (batchNumberToId st) |},
          [MedicineRegistered medicineId name manufacturer batchNumber
             (timestamp m)]))))))).

Definition valid_id (st : State) (medicineId : N) : bool :=
  (0 <? medicineId)%N && (medicineId <=? medicineCounter st)%N.

Definition dispenseMedicine (m : Msg) (medicineId : N) (st : State)
  : Tx (State * list Event) :=
  onlyRole m PHARMACY_ROLE st
    (require (valid_id st medicineId) "Invalid medicine ID"
    (require (negb (dispensed (medicine_at st medicineId))) "Medicine already dispensed"
       (let old := medicine_at st medicineId in
        let updated :=
          {| id := id old; name := name old; manufacturer := manufacturer old;
             batchNumber := batchNumber old; registeredAt := registeredAt old;
             dispensed := true; dispensedBy := sender m;
             dispensedAt := timestamp m |} in
        Returned
          ({| roles := roles st;
              medicineCounter := medicineCounter st;
              medicines := <[medicineId := updated]> (medicines st);
              batchNumberToId := batchNumberToId st |},
           [MedicineDispensed medicineId (sender m) (timestamp m)])))).

Definition isMedicineDispensed (medicineId : N) (st : State) : Tx bool :=
  require (valid_id st medicineId) "Invalid medicine ID"
    (Returned (dispensed (medicine_at st medicineId))).

Definition getMedicine (medicineId : N) (st : State) : Tx Medicine :=
  require (valid_id st medicineId) "Invalid medicine ID"
    (Returned (medicine_at st medicineId)).

Definition getTotalMedicines (st : State) : N := medicineCounter st.

(** *** Histories *)

(** The calls that can change the state. *)
Inductive Call :=
| RegisterMedicine (name manufacturer batchNumber : string)
| DispenseMedicine (medicineId : N)
| GrantRole (role : N) (account : address)
| RevokeRole (role : N) (account : address)
| RenounceRole (role : N) (callerConfirmation : address).

Definition exec (m : Msg) (c : Call) (st : State) : Tx (State * list Event) :=
  match c with
  | RegisterMedicine n mf b =>
      match registerMedicine m n mf b st with
      | Returned (_, st', ev) => Returned (st', ev)
      | Reverted r => Reverted r
      end
  | DispenseMedicine i => dispenseMedicine m i st
  | GrantRole r a => grantRole m r a st
  | RevokeRole r a => revokeRole m r a st
  | RenounceRole r a => renounceRole m r a st
  end.

(** The state after a transaction: a reverted one changes nothing. *)
Definition after (st : State) (tx : Msg * Call) : State :=
  match exec (fst tx) (snd tx) st with
  | Returned (st', _) => st'
  | Reverted _ => st
  end.

Definition run (txs : list (Msg * Call)) (st : State) : State := fold_left after txs st.

(** Whether a transaction is a registration that went through. *)
Definition registers (st : State) (tx : Msg * Call) : bool :=
  match snd tx with
  | RegisterMedicine n mf b =>
      match registerMedicine (fst tx) n mf b st with
      | Returned _ => true
      | Reverted _ => false
      end
  | _ => false
  end.

(** The number of registrations that went through in a history. *)
Fixpoint registrations (txs : list (Msg * Call)) (st : State) : N :=
  match txs with
  | [] => 0
  | tx :: rest =>
      ((if registers st tx then 1 else 0) + registrations rest (after st tx))%N
  end.

End Contract.
End PharmaLyncCore.

(** ** PharmaLyncAudit *)

Module PharmaLyncAudit.
Import Solidity.
#[local] Open Scope N_scope.

Record AuditRecord := {
  auditId : string;
  action : string;
  dataHash : string;
  timestamp : N;
  actor : address;
  exists_ : bool
}.

Definition no_record : AuditRecord :=
  {| auditId := ""; action := ""; dataHash := ""; timestamp := 0; actor := 0;
     exists_ := false |}.

Record State := {
  owner : address;                            (* [Ownable._owner] *)
  auditRecords : gmap string AuditRecord;
  authorizedLoggers : gset address;
  totalAudits : N
}.

Inductive Event :=
| OwnershipTransferred (previousOwner newOwner : address)
| AuditLogged (auditId action dataHash : string) (timestamp : N) (actor : address)
| LoggerAuthorized (logger : address)
| LoggerRevoked (logger : address).

Definition record_at (st : State) (i : string) : AuditRecord :=
  default no_record (auditRecords st !! i).

Definition is_authorized (st : State) (a : address) : bool :=
  bool_decide (a ∈ authorizedLoggers st).

(** *** Ownable *)

Definition onlyOwner {A} (m : Msg) (st : State) (body : Tx A) : Tx A :=
  if (owner st =? sender m)%N then body
  else Reverted (OwnableUnauthorizedAccount (sender m)).

Definition set_owner (st : State) (o : address) : State :=
  {| owner := o; auditRecords := auditRecords st;
     authorizedLoggers := authorizedLoggers st; totalAudits := totalAudits st |}.

Definition transferOwnership (m : Msg) (newOwner : address) (st : State)
  : Tx (State * list Event) :=
  onlyOwner m st
    (if (newOwner =? 0)%N then Reverted (OwnableInvalidOwner 0)
     else Returned (set_owner st newOwner, [OwnershipTransferred (owner st) newOwner])).

Definition renounceOwnership (m : Msg) (st : State) : Tx (State * list Event) :=
  onlyOwner m st (Returned (set_owner st 0, [OwnershipTransferred (owner st) 0])).

(** *** The contract *)

(** [constructor() Ownable(msg.sender)]: the deployer owns the contract and
    is an authorized logger. *)
Definition constructor (m : Msg) : Tx (State * list Event) :=
  if (sender m =? 0)%N then Reverted (OwnableInvalidOwner 0)
  else Returned ({| owner := sender m; auditRecords := ∅;
                    authorizedLoggers := {[ sender m ]}; totalAudits := 0 |},
                 [OwnershipTransferred 0 (sender m)]).

Definition onlyAuthorized {A} (m : Msg) (st : State) (body : Tx A) : Tx A :=
  require (is_authorized st (sender m)) "Not authorized to log audits" body.

Definition set_loggers (st : State) (l : gset address) : State :=
  {| owner := owner st; auditRecords := auditRecords st; authorizedLoggers := l;
     totalAudits := totalAudits st |}.

Definition authorizeLogger (m : Msg) (logger : address) (st : State)
  : Tx (State * list Event) :=
  onlyOwner m st
    (require (negb (logger =? 0)%N) "Invalid logger address"
    (require (negb (is_authorized st logger)) "Logger already authorized"
       (Returned (set_loggers st ({[ logger ]} ∪ authorizedLoggers st),
                  [LoggerAuthorized logger])))).

Definition revokeLogger (m : Msg) (logger : address) (st : State)
  : Tx (State * list Event) :=
  onlyOwner m st
    (require (is_authorized st logger) "Logger not authorized"
       (Returned (set_loggers st (authorizedLoggers st ∖ {[ logger ]}),
                  [LoggerRevoked logger]))).

Definition logAudit (m : Msg) (i a h : string) (t : N) (st : State)
  : Tx (State * list Event) :=
  onlyAuthorized m st
    (require (0 <? String.length i)%nat "Audit ID cannot be empty"
    (require (0 <? String.length a)%nat "Action cannot be empty"
    (require (String.length h =? 64)%nat "Invalid hash length (must be 64 hex chars)"
    (require (negb (exists_ (record_at st i))) "Audit ID already exists"
       (let record := {| auditId := i; action := a; dataHash := h; timestamp := t;
                         actor := sender m; exists_ := true |} in
        checked_increment (totalAudits st) (fun total =>
          Returned ({| owner := owner st;
                       auditRecords := <[i := record]> (auditRecords st);
                       authorizedLoggers := authorizedLoggers st;
                       totalAudits := total |},
                    [AuditLogged i a h t (sender m)]))))))).

Definition verifyAudit (i : string) (st : State) : Tx (string * string * N * address) :=
  require (exists_ (record_at st i)) "Audit record not found"
    (let record := record_at st i in
     Returned (action record, dataHash record, timestamp record, actor record)).

Definition auditExists (i : string) (st : State) : bool := exists_ (record_at st i).

Definition getTotalAudits (st : State) : N := totalAudits st.

(** *** Histories *)

Inductive Call :=
| LogAudit (auditId action dataHash : string) (timestamp : N)
| AuthorizeLogger (logger : address)
| RevokeLogger (logger : address)
| TransferOwnership (newOwner : address)
| RenounceOwnership.

Definition exec (m : Msg) (c : Call) (st : State) : Tx (State * list Event) :=
  match c with
  | LogAudit i a h t => logAudit m i a h t st
  | AuthorizeLogger l => authorizeLogger m l st
  | RevokeLogger l => revokeLogger m l st
  | TransferOwnership o => transferOwnership m o st
  | RenounceOwnership => renounceOwnership m st
  end.

Definition after (st : State) (tx : Msg * Call) : State :=
  match exec (fst tx) (snd tx) st with
  | Returned (st', _) => st'
  | Reverted _ => st
  end.

Definition run (txs : list (Msg * Call)) (st : State) : State := fold_left after txs st.

End PharmaLyncAudit.

(** * JavaScript strings and their UTF-8 encoding

    A JavaScript string is a sequence of 16-bit code units (UTF-16), in
    which a surrogate may stand alone.  [Buffer.from(s, 'utf-8')] (and
    [cipher.update(s, 'utf-8')]) writes the UTF-8 encoding of its code
    points, a lone surrogate as U+FFFD; [buf.toString('utf-8')] decodes
    UTF-8, an ill-formed sequence as U+FFFD.  The services above work on the
    encoded text; this part relates it to the string the caller holds. *)

Module Unicode.
#[local] Open Scope N_scope.

(** The code units of a string, each below [0x10000]. *)
Definition js_string := list N.

Definition is_code_unit (u : N) : bool := u <? 0x10000.
Definition is_high_surrogate (u : N) : bool := (0xD800 <=? u) && (u <=? 0xDBFF).
Definition is_low_surrogate (u : N) : bool := (0xDC00 <=? u) && (u <=? 0xDFFF).

Definition REPLACEMENT_CHARACTER : N := 0xFFFD.

(** [s.isWellFormed()]: no surrogate stands alone. *)
Fixpoint isWellFormed (s : js_string) : bool :=
  match s with
  | [] => true
  | u :: rest =>
      if is_high_surrogate u
      then match rest with
           | l :: rest' => is_low_surrogate l && isWellFormed rest'
           | [] => false
           end
      else negb (is_low_surrogate u) && isWellFormed rest
  end.

(** [s.toWellFormed()]: every lone surrogate replaced by U+FFFD. *)
Fixpoint toWellFormed (s : js_string) : js_string :=
  match s with
  | [] => []
  | u :: rest =>
      if is_high_surrogate u
      then match rest with
           | l :: rest' =>
               if is_low_surrogate l then u :: l :: toWellFormed rest'
               else REPLACEMENT_CHARACTER :: toWellFormed rest
           | [] => [REPLACEMENT_CHARACTER]
           end
      else if is_low_surrogate u then REPLACEMENT_CHARACTER :: toWellFormed rest
      else u :: toWellFormed rest
  end.

(** The code points the encoder reads: a surrogate pair is one code point
    above [0xFFFF], a lone surrogate is read as U+FFFD. *)
Fixpoint code_points (s : js_string) : list N :=
  match s with
  | [] => []
  | u :: rest =>
      if is_high_surrogate u
      then match rest with
           | l :: rest' =>
               if is_low_surrogate l
               then (0x10000 + (u - 0xD800) * 0x400 + (l - 0xDC00)) :: code_points rest'
               else REPLACEMENT_CHARACTER :: code_points rest
           | [] => [REPLACEMENT_CHARACTER]
           end
      else if is_low_surrogate u then REPLACEMENT_CHARACTER :: code_points rest
      else u :: code_points rest
  end.

(** The UTF-8 bytes of a code point: one to four. *)
Definition utf8_bytes (cp : N) : Buffer :=
  if cp <? 0x80 then [byte_of_N cp]
  else if cp <? 0x800
  then [byte_of_N (0xC0 + cp / 0x40); byte_of_N (0x80 + cp mod 0x40)]
  else if cp <? 0x10000
  then [byte_of_N (0xE0 + cp / 0x1000); byte_of_N (0x80 + (cp / 0x40) mod 0x40);
        byte_of_N (0x80 + cp mod 0x40)]
  else [byte_of_N (0xF0 + cp / 0x40000); byte_of_N (0x80 + (cp / 0x1000) mod 0x40);
        byte_of_N (0x80 + (cp / 0x40) mod 0x40); byte_of_N (0x80 + cp mod 0x40)].

(** [Buffer.from(s, 'utf-8')] *)
Definition encode (s : js_string) : Buffer := flat_map utf8_bytes (code_points s).

(** The decoder between two bytes: nothing pending, or a code point begun,
    with the number of continuation bytes still needed and the range the
    next byte must be in. *)
Record Pending := {
  code_point : N;
  needed : nat;
  lower : N;
  upper : N
}.

(** A byte read with nothing pending: an ASCII byte is a code point, a
    lead byte opens a sequence (with the narrower range that excludes
    overlong forms, surrogates and code points above [0x10FFFF] for its
    first continuation byte), any other byte is an error. *)
Definition lead (b : N) : option Pending * list N :=
  if b <=? 0x7F then (None, [b])
  else if (0xC2 <=? b) && (b <=? 0xDF)
  then (Some {| code_point := b mod 0x20; needed := 1; lower := 0x80; upper := 0xBF |}, [])
  else if (0xE0 <=? b) && (b <=? 0xEF)
  then (Some {| code_point := b mod 0x10; needed := 2;
                lower := if b =? 0xE0 then 0xA0 else 0x80;
                upper := if b =? 0xED then 0x9F else 0xBF |}, [])
  else if (0xF0 <=? b) && (b <=? 0xF4)
  then (Some {| code_point := b mod 0x8; needed := 3;
                lower := if b =? 0xF0 then 0x90 else 0x80;
                upper := if b =? 0xF4 then 0x8F else 0xBF |}, [])
  else (None, [REPLACEMENT_CHARACTER]).

(** One byte: the new state and the code points that are complete.  A
    byte outside the expected range ends the pending sequence as an error
    and is read again with nothing pending. *)
Definition step (st : option Pending) (b : N) : option Pending * list N :=
  match st with
  | None => lead b
  | Some p =>
      if (lower p <=? b) && (b <=? upper p)
      then
        let cp := code_point p * 0x40 + b mod 0x40 in
        match needed p with
        | S (S n) =>
            (Some {| code_point := cp; needed := S n; lower := 0x80; upper := 0xBF |}, [])
        | _ => (None, [cp])
        end
      else
        let (st', out) := lead b in
        (st', REPLACEMENT_CHARACTER :: out)
  end.

(** The code points of a byte sequence; a sequence cut short at the end
    is an error. *)
Fixpoint decode_from (st : option Pending) (bytes : Buffer) : list N :=
  match bytes with
  | [] =>
      match st with
      | None => []
      | Some _ => [REPLACEMENT_CHARACTER]
      end
  | b :: rest =>
      let (st', out) := step st (Byte.to_N b) in
      out ++ decode_from st' rest
  end.

(** The code units of a code point: itself, or a surrogate pair. *)
Definition code_units (cp : N) : list N :=
  if cp <? 0x10000 then [cp]
  else [0xD800 + (cp - 0x10000) / 0x400; 0xDC00 + (cp - 0x10000) mod 0x400].

(** [buf.toString('utf-8')] *)
Definition decode (bytes : Buffer) : js_string :=
  flat_map code_units (decode_from None bytes).

End Unicode.
(** * Vocabulary of the further properties *)

(** ** Contracts *)

Section CoreVocabulary.
Import Solidity.
Context `{Keccak}.
#[local] Open Scope N_scope.

(** What a transaction can do to the registry. *)
Inductive core_step (st : PharmaLyncCore.State) (tx : Msg * PharmaLyncCore.Call)
  : PharmaLyncCore.State -> Prop :=
| step_none : core_step st tx st
| step_roles r : core_step st tx (PharmaLyncCore.set_roles st r)
| step_register n mf b i st' ev :
    snd tx = PharmaLyncCore.RegisterMedicine n mf b ->
    PharmaLyncCore.registerMedicine (fst tx) n mf b st = Returned (i, st', ev) ->
    core_step st tx st'
| step_dispense i st' ev :
    snd tx = PharmaLyncCore.DispenseMedicine i ->
    PharmaLyncCore.dispenseMedicine (fst tx) i st = Returned (st', ev) ->
    core_step st tx st'.

(** [medicineId] is registered and was dispensed by [a] at [t]. *)
Definition dispensed_by (st : PharmaLyncCore.State) (medicineId : N) (a : address) (t : N)
  : Prop :=
  PharmaLyncCore.valid_id st medicineId = true /\
  exists med,
    PharmaLyncCore.medicines st !! medicineId = Some med /\
    PharmaLyncCore.dispensed med = true /\
    PharmaLyncCore.dispensedBy med = a /\ PharmaLyncCore.dispensedAt med = t.

(** Every identifier up to the counter has its medicine, the batch index
    leads back to it, and nothing else is stored. *)
Record registry_ok (st : PharmaLyncCore.State) : Prop := {
  reg_medicine : forall i, 0 < i <= PharmaLyncCore.medicineCounter st ->
    exists med,
      PharmaLyncCore.medicines st !! i = Some med /\
      PharmaLyncCore.id med = i /\ PharmaLyncCore.batchNumber med <> "" /\
      PharmaLyncCore.batchNumberToId st !! PharmaLyncCore.batchNumber med = Some i;
  reg_batch : forall b i, PharmaLyncCore.batchNumberToId st !! b = Some i ->
    0 < i <= PharmaLyncCore.medicineCounter st /\
    exists med, PharmaLyncCore.medicines st !! i = Some med /\
                PharmaLyncCore.batchNumber med = b
}.

(** A transaction that asks to grant [role]. *)
Definition grants (role : N) (tx : Msg * PharmaLyncCore.Call) : bool :=
  match snd tx with
  | PharmaLyncCore.GrantRole r _ => (r =? role)%N
  | _ => false
  end.

End CoreVocabulary.

Section LedgerVocabulary.
Import Solidity.
#[local] Open Scope N_scope.

(** What a transaction can do to the records of the ledger. *)
Inductive ledger_step (st : PharmaLyncAudit.State) (tx : Msg * PharmaLyncAudit.Call)
  : PharmaLyncAudit.State -> Prop :=
| ledger_same_records st' :
    PharmaLyncAudit.auditRecords st' = PharmaLyncAudit.auditRecords st ->
    PharmaLyncAudit.totalAudits st' = PharmaLyncAudit.totalAudits st ->
    ledger_step st tx st'
| ledger_logged i a h t st' ev :
    snd tx = PharmaLyncAudit.LogAudit i a h t ->
    PharmaLyncAudit.logAudit (fst tx) i a h t st = Returned (st', ev) ->
    ledger_step st tx st'.

(** The records are those counted, and each is under its own id with a
    hash of 64 characters. *)
Record ledger_ok (st : PharmaLyncAudit.State) : Prop := {
  ledger_count :
    PharmaLyncAudit.totalAudits st = N.of_nat (size (PharmaLyncAudit.auditRecords st));
  ledger_records : forall i r, PharmaLyncAudit.auditRecords st !! i = Some r ->
    PharmaLyncAudit.exists_ r = true /\ PharmaLyncAudit.auditId r = i /\ i <> "" /\
    PharmaLyncAudit.action r <> "" /\
    String.length (PharmaLyncAudit.dataHash r) = 64%nat
}.

(** The senders of a history. *)
Definition senders_nonzero (txs : list (Msg * PharmaLyncAudit.Call)) : bool :=
  forallb (fun tx => negb (sender (fst tx) =? 0)) txs.

End LedgerVocabulary.

(** ** Text *)

(** The text of a JavaScript string as the services hold it: its UTF-8
    encoding. *)
Definition utf8_of_js (s : Unicode.js_string) : string :=
  string_of_list_byte (Unicode.encode s).

(** The JavaScript string a text of the services stands for. *)
Definition js_of_utf8 (text : string) : Unicode.js_string :=
  Unicode.decode (list_byte_of_string text).

(** A Unicode scalar value: a code point that is no surrogate. *)
Definition is_scalar (cp : N) : bool :=
  (cp <? 0x110000)%N && negb ((0xD800 <=? cp)%N && (cp <=? 0xDFFF)%N).


(** * A reference instance of the primitives

    A small executable instance of [Crypto], used to run the model on
    concrete inputs.  It has the sizes and the decrypt-after-encrypt law of
    the real primitives and none of their security. *)

Module Reference.

Definition digest (len : nat) (m : Buffer) : Buffer :=
  let acc := fold_left
               (fun a b => N.land (a * 131 + Byte.to_N b + 7) 2305843009213693951)%N
               m 5381%N in
  map (fun i => byte_of_N (N.shiftr acc (N.of_nat (i mod 53)) + 31 * N.of_nat i))
      (seq 0 len).

Definition keystream (key iv : Buffer) (i : nat) : byte :=
  nth (i mod 32) (digest 32 (key ++ iv ++ INT_32_BE (N.of_nat (i / 32)))) x00.

Fixpoint xor_stream (ks : nat -> byte) (i : nat) (p : Buffer) : Buffer :=
  match p with
  | [] => []
  | b :: rest => byte_xor b (ks i) :: xor_stream ks (S i) rest
  end.

Definition encrypt (key iv p : Buffer) : Buffer * Buffer :=
  let ct := xor_stream (keystream key iv) 0 p in
  (ct, digest 16 (key ++ iv ++ ct)).

Definition decrypt (key iv tag ct : Buffer) : option Buffer :=
  if bool_decide (tag = digest 16 (key ++ iv ++ ct))
  then Some (xor_stream (keystream key iv) 0 ct)
  else None.

Definition all_bytes : list byte := map (fun n => byte_of_N (N.of_nat n)) (seq 0 256).

Lemma all_bytes_complete (b : byte) : In b all_bytes.
Proof.
  unfold all_bytes. apply in_map_iff. exists (Byte.to_nat b). split.
  - destruct b; reflexivity.
  - apply in_seq. pose proof (Byte.to_nat_bounded b). lia.
Qed.

Lemma byte_xor_involutive (a k : byte) : byte_xor (byte_xor a k) k = a.
Proof.
  assert (Hall : forallb (fun a => forallb (fun k =>
            Byte.eqb (byte_xor (byte_xor a k) k) a) all_bytes) all_bytes = true)
    by (vm_compute; reflexivity).
  rewrite forallb_forall in Hall. specialize (Hall a (all_bytes_complete a)).
  rewrite forallb_forall in Hall. specialize (Hall k (all_bytes_complete k)).
  now apply Byte.byte_dec_bl.
Qed.

Lemma xor_stream_involutive (ks : nat -> byte) (p : Buffer) : forall i,
  xor_stream ks i (xor_stream ks i p) = p.
Proof.
  induction p as [|b rest IH]; intros i; cbn [xor_stream]; [reflexivity|].
  now rewrite byte_xor_involutive, IH.
Qed.

Lemma digest_length (len : nat) (m : Buffer) : length (digest len m) = len.
Proof. unfold digest. now rewrite length_map, length_seq. Qed.

#[local] Instance crypto : Crypto.
Proof.
  refine {| sha256 := digest 32;
            sha512 := digest 64;
            aes_256_gcm_encrypt := encrypt;
            aes_256_gcm_decrypt := decrypt |}.
  - intros m. apply digest_length.
  - intros m. apply digest_length.
  - intros k iv p. apply digest_length.
  - intros k iv p _ _. unfold decrypt, encrypt. cbn [fst snd].
    rewrite bool_decide_eq_true_2 by reflexivity.
    now rewrite xor_stream_involutive.
Defined.

(** The byte of an array element that is an integer. *)
Definition element_byte (v : json) : option byte :=
  match v with
  | JNum z => Some (byte_of_N (Z.to_N (z mod 256)))
  | _ => None
  end.

(** A conversion for [Buffer.from]: an array of integers is copied, any
    other object is refused. *)
#[local] Instance buffer_coercion : BufferCoercion :=
  {| Buffer_from_object o :=
       match o with
       | JArr items =>
           match mapM element_byte items with
           | Some bytes => Ok bytes
           | None => Throw (mkExn TypeError "The first argument must be of type string")
           end
       | _ => Throw (mkExn TypeError "The first argument must be of type string")
       end |}.

(** A process environment and a random stream to run the services with. *)
Definition env : ProcessEnv := {|
  ENCRYPTION_KEY :=
    Some "000102030405060708090a0b0c0d0e0f101112131415161718191A1B1C1D1E1F";
  PBKDF2_ITERATIONS_var := Some "64";
  JWT_ACCESS_SECRET_var := Some "access-secret";
  JWT_REFRESH_SECRET_var := Some "refresh-secret";
  JWT_ACCESS_EXPIRY_var := None;
  JWT_REFRESH_EXPIRY_var := None;
  CONSENT_TOKEN_SECRET_var := Some "consent-secret"
|}.

Definition rng : Rng := fun i => byte_of_N (N.of_nat (171 + 7 * i)).

Definition kms : KeyManagementService.t :=
  {| KeyManagementService.masterKey :=
       Buffer_from_hex
         "000102030405060708090a0b0c0d0e0f101112131415161718191A1B1C1D1E1F" |}.

Definition now : Z := 1700000000123.

Definition nul : string := String (ascii_of_nat 0) "".

(** [s] with the character at index [i] replaced by [c]. *)
Definition set_char (i : nat) (c : ascii) (s : string) : string :=
  substring 0 i s +:+ String c (substring (S i) (String.length s - S i) s).

(** The number of positions at which two strings of one length differ. *)
Fixpoint differences (a b : string) : option nat :=
  match a, b with
  | "", "" => Some 0%nat
  | String x a', String y b' =>
      n ← differences a' b'; Some (if Ascii.eqb x y then n else S n)
  | _, _ => None
  end.

Section Samples.
#[local] Existing Instance crypto.
#[local] Existing Instance buffer_coercion.

(** A QR token for a medicine, as [generateSecureToken] returns it. *)
Definition medicine : list (string * json) :=
  [("medicineId", JStr "med-001"); ("batchNumber", JStr "B-77")].

Definition medicine_token : string :=
  Eval vm_compute in
    match QrSecurityService.generateSecureToken env medicine "MEDICINE" rng now with
    | Ok (token, _) => token
    | Throw _ => ""
    end.

(** The token with one character changed: the hex digit [b] of the IV
    becomes [B]. *)
Definition medicine_token_case : string := set_char 11 "C" medicine_token.

(** The token with one character changed: a digit of the signature
    becomes another digit. *)
Definition medicine_token_tampered : string := set_char 601 "G" medicine_token.

(** A string that is not a token. *)
Definition malformed_token : string := "bm90LWEtdG9rZW4".

(** An access token, as [generateAccessToken] returns it. *)
Definition doctor : AuthService.AccessPayload :=
  {| AuthService.userId := "user-17";
     AuthService.email := "asha@example.org";
     AuthService.role := "DOCTOR" |}.

Definition access_token : string :=
  Eval vm_compute in
    match AuthService.generateAccessToken (AuthService.new env) doctor now with
    | Ok token => token
    | Throw _ => ""
    end.

(** A consent grant and its token, as [generateConsentToken] returns it. *)
Definition consent_row : ConsentService.Consent :=
  {| ConsentService.id := "consent-1";
     ConsentService.patientId := "patient-4";
     ConsentService.grantedTo := "user-17";
     ConsentService.scopes := [ConsentService.VIEW_AADHAAR];
     ConsentService.expiresAt := now + 3600000;
     ConsentService.revoked := false |}.

Definition consent_row_revoked : ConsentService.Consent :=
  {| ConsentService.id := "consent-1";
     ConsentService.patientId := "patient-4";
     ConsentService.grantedTo := "user-17";
     ConsentService.scopes := [ConsentService.VIEW_AADHAAR];
     ConsentService.expiresAt := now + 3600000;
     ConsentService.revoked := true |}.

Definition consent_token : string :=
  Eval vm_compute in
    match ConsentService.generateConsentToken (ConsentService.new env) ∅ "consent-1"
            "patient-4" "user-17" [ConsentService.VIEW_AADHAAR] 60 now with
    | Ok ((token, _), _) => token
    | Throw _ => ""
    end.

(** An audit service whose ledger calls fail, and a critical action. *)
Definition failing_contract : BlockchainService.AuditContract :=
  {| BlockchainService.contract_verifyAudit := fun _ => Throw (mkExn Error "timeout");
     BlockchainService.contract_logAudit := fun _ _ _ _ => Throw (mkExn Error "timeout") |}.

Definition audit_service : AuditService.t :=
  {| AuditService.blockchainService :=
       {| BlockchainService.pharmalyncAudit := Some failing_contract |} |}.

Definition view_aadhaar : AuditService.Params :=
  {| AuditService.p_userId := "user-17";
     AuditService.p_action := "VIEW_AADHAAR";
     AuditService.p_resourceType := "PATIENT";
     AuditService.p_resourceId := Some "patient-4";
     AuditService.p_metadata := None |}.

(** A row that carries a ledger reference. *)
Definition anchored_row : AuditService.AuditLog :=
  {| AuditService.id := "audit-1"; AuditService.userId := "user-17";
     AuditService.action := "VIEW_AADHAAR";
     AuditService.resourceType := "PATIENT";
     AuditService.resourceId := Some "patient-4";
     AuditService.metadata := None;
     AuditService.timestamp := now;
     AuditService.blockchainTxHash := Some "0x5e1f" |}.

End Samples.

End Reference.

(** * A reference deployment of the contracts

    A small executable stand-in for [keccak256] (it tells the three role
    names apart, which is all that is used of it), and a few accounts and
    histories to run the contracts on. *)

Module ReferenceChain.
Import Solidity.
#[local] Open Scope N_scope.

Definition role_hash (s : string) : N :=
  fold_left (fun acc c => N.land (acc * 131 + N_of_ascii c + 7) 18446744073709551615)
            (list_ascii_of_string s) 5381.

#[export] Instance keccak : Keccak := {| keccak256 := role_hash |}.

Definition deployer : address := 1001.
Definition maker : address := 2002.
Definition pharmacy : address := 3003.
Definition visitor : address := 4004.

Definition at_ (who : address) (t : N) : Msg := {| sender := who; timestamp := t |}.

(** The registry after deployment, two grants and one registration. *)
Definition registry_setup : list (Msg * PharmaLyncCore.Call) :=
  [(at_ deployer 10, PharmaLyncCore.GrantRole PharmaLyncCore.MANUFACTURER_ROLE maker);
   (at_ deployer 11, PharmaLyncCore.GrantRole PharmaLyncCore.PHARMACY_ROLE pharmacy);
   (at_ maker 20, PharmaLyncCore.RegisterMedicine "Amoxil 500" "Acme Pharma" "B-0001")].

Definition registry : PharmaLyncCore.State :=
  PharmaLyncCore.run registry_setup (fst (PharmaLyncCore.constructor (at_ deployer 1))).

(** What is sent to the registry after the medicine was dispensed. *)
Definition registry_later : list (Msg * PharmaLyncCore.Call) :=
  [(at_ pharmacy 40, PharmaLyncCore.DispenseMedicine 1);
   (at_ maker 41, PharmaLyncCore.RegisterMedicine "Amoxil 250" "Acme Pharma" "B-0002");
   (at_ deployer 42, PharmaLyncCore.RevokeRole PharmaLyncCore.PHARMACY_ROLE pharmacy);
   (at_ visitor 43, PharmaLyncCore.DispenseMedicine 1)].

(** A history without any grant of [MANUFACTURER_ROLE]. *)
Definition registry_no_maker : list (Msg * PharmaLyncCore.Call) :=
  [(at_ deployer 10, PharmaLyncCore.GrantRole PharmaLyncCore.PHARMACY_ROLE pharmacy);
   (at_ maker 20, PharmaLyncCore.RegisterMedicine "Amoxil 500" "Acme Pharma" "B-0001");
   (at_ deployer 21, PharmaLyncCore.RegisterMedicine "Amoxil 500" "Acme Pharma" "B-0001");
   (at_ pharmacy 30, PharmaLyncCore.DispenseMedicine 1)].

Definition sample_hash : string :=
  "9f86d081884c7d659a2feaa0c55ad015a3bf4f1b2b0b822cd15d6c15b0f00a08".

(** The ledger as [deployer] deploys it. *)
Definition ledger : PharmaLyncAudit.State :=
  {| PharmaLyncAudit.owner := deployer; PharmaLyncAudit.auditRecords := ∅;
     PharmaLyncAudit.authorizedLoggers := {[ deployer ]};
     PharmaLyncAudit.totalAudits := 0 |}.

(** What is sent to the ledger after the first record. *)
Definition ledger_later : list (Msg * PharmaLyncAudit.Call) :=
  [(at_ deployer 50, PharmaLyncAudit.LogAudit "audit-1" "UPDATE_PATIENT" sample_hash 1700000009);
   (at_ deployer 51, PharmaLyncAudit.AuthorizeLogger maker);
   (at_ maker 52, PharmaLyncAudit.LogAudit "audit-2" "VIEW_AADHAAR" sample_hash 1700000010);
   (at_ deployer 53, PharmaLyncAudit.RevokeLogger deployer);
   (at_ deployer 54, PharmaLyncAudit.RenounceOwnership)].

End ReferenceChain.

(** * Properties *)

(** *** Facts about the encodings *)

Lemma hex_byte_roundtrip (x : byte) :
  match hex_value (hex_digit (Byte.to_N x / 16)),
        hex_value (hex_digit (Byte.to_N x mod 16)) with
  | Some h, Some l => byte_of_N (16 * h + l) = x
  | _, _ => False
  end.
Proof. destruct x; vm_compute; reflexivity. Qed.

Lemma Buffer_from_hex_toString_hex (b : Buffer) :
  Buffer_from_hex (toString_hex b) = b.
Proof.
  induction b as [|x rest IH]; [reflexivity|].
  cbn [toString_hex Buffer_from_hex].
  pose proof (hex_byte_roundtrip x) as Hx.
  destruct (hex_value (hex_digit (Byte.to_N x / 16))); [|contradiction].
  destruct (hex_value (hex_digit (Byte.to_N x mod 16))); [|contradiction].
  now rewrite Hx, IH.
Qed.

Lemma toString_hex_length (b : Buffer) :
  String.length (toString_hex b) = (2 * length b)%nat.
Proof. induction b as [|x rest IH]; cbn [toString_hex String.length length]; lia. Qed.

Lemma hex_digit_lower (n : N) : is_lower_hex (hex_digit n) = true.
Proof.
  destruct n as [|p]; [reflexivity|].
  do 4 (destruct p as [p|p|]; try reflexivity).
Qed.

Lemma toString_hex_lower (b : Buffer) :
  string_forallb is_lower_hex (toString_hex b) = true.
Proof.
  induction b as [|x rest IH]; [reflexivity|].
  cbn [toString_hex string_forallb]. now rewrite !hex_digit_lower, IH.
Qed.

Lemma randomBytes_length (n : nat) (g : Rng) : length (fst (randomBytes n g)) = n.
Proof. unfold randomBytes; cbn. now rewrite length_map, length_seq. Qed.

Lemma timingSafeEqual_same (a : Buffer) : timingSafeEqual a a = Ok true.
Proof.
  unfold timingSafeEqual, buffer_eqb. rewrite Nat.eqb_refl.
  now rewrite bool_decide_eq_true_2.
Qed.


(** *** Sizes of keys and digests *)

Lemma Buffer_from_hex_length_aux (n : nat) : forall s,
  String.length s = (2 * n)%nat ->
  string_forallb is_hex_digit s = true ->
  length (Buffer_from_hex s) = n.
Proof.
  induction n as [|n IH]; intros s Hlen Hhex.
  - destruct s; [reflexivity | discriminate].
  - destruct s as [|c1 [|c2 rest]]; cbn [String.length] in Hlen; try lia.
    cbn [string_forallb] in Hhex.
    apply andb_prop in Hhex as [H1 Hhex]. apply andb_prop in Hhex as [H2 Hhex].
    unfold is_hex_digit in H1, H2. cbn [Buffer_from_hex].
    destruct (hex_value c1); [|discriminate].
    destruct (hex_value c2); [|discriminate].
    cbn [length]. f_equal. apply IH; [lia | exact Hhex].
Qed.

Lemma valid_key_format_length (keyHex : string) :
  KeyManagementService.valid_key_format keyHex = true ->
  length (Buffer_from_hex keyHex) = 32%nat.
Proof.
  unfold KeyManagementService.valid_key_format. intros Hv.
  apply andb_prop in Hv as [Hlen Hhex].
  apply Nat.eqb_eq in Hlen.
  apply Buffer_from_hex_length_aux; [rewrite Hlen; reflexivity | exact Hhex].
Qed.

Section KeyFacts.
Context `{Crypto}.

Lemma hmac_sha256_length key msg : length (hmac_sha256 key msg) = 32%nat.
Proof. apply sha256_length. Qed.

Lemma hmac_sha512_length key msg : length (hmac_sha512 key msg) = 64%nat.
Proof. apply sha512_length. Qed.

(** A key manager built by the constructor holds a 32-byte master key. *)
Lemma KMS_new_masterKey_length env kms :
  KeyManagementService.new env = Ok kms ->
  length (KeyManagementService.masterKey kms) = 32%nat.
Proof.
  unfold KeyManagementService.new. intros Hnew.
  destruct (ENCRYPTION_KEY env) as [[|c keyHex]|]; try discriminate.
  destruct (KeyManagementService.valid_key_format (String c keyHex)) eqn:Hv;
    cbn [negb] in Hnew; [|discriminate].
  injection Hnew as <-. cbn [KeyManagementService.masterKey].
  exact (valid_key_format_length (String c keyHex) Hv).
Qed.

Lemma EncryptionService_select_key_length env svc userId :
  EncryptionService.new env = Ok svc ->
  length (EncryptionService.select_key svc userId) = 32%nat.
Proof.
  unfold EncryptionService.new, getKMS. intros Hnew.
  destruct (KeyManagementService.new env) as [k|e] eqn:Hk; cbn in Hnew; [|discriminate].
  injection Hnew as <-. unfold EncryptionService.select_key. cbn.
  destruct userId as [[|c u]|].
  - now apply (KMS_new_masterKey_length env).
  - apply hmac_sha256_length.
  - now apply (KMS_new_masterKey_length env).
Qed.

Lemma check_key_iv_ok key iv :
  length key = 32%nat -> length iv = 16%nat -> check_key_iv key iv = Ok tt.
Proof. unfold check_key_iv. intros -> ->. reflexivity. Qed.

End KeyFacts.

(** *** EncryptionService *)

Section EncryptionFacts.
Context `{Crypto}.

(** The layout [IV(16) | AuthTag(16) | Ciphertext] is split back into its
    three parts. *)
Lemma layout_split (iv tag ct : Buffer) :
  length iv = 16%nat -> length tag = 16%nat ->
  firstn 16 (iv ++ tag ++ ct) = iv /\
  firstn 16 (skipn 16 (iv ++ tag ++ ct)) = tag /\
  skipn 32 (iv ++ tag ++ ct) = ct /\
  (length (iv ++ tag ++ ct) <? 32)%nat = false.
Proof.
  intros Hiv Htag.
  assert (E1 : firstn 16 (iv ++ tag ++ ct) = iv)
    by (rewrite <- Hiv; apply take_app_length).
  assert (E2 : skipn 16 (iv ++ tag ++ ct) = tag ++ ct)
    by (rewrite <- Hiv; apply drop_app_length).
  assert (E3 : firstn 16 (tag ++ ct) = tag)
    by (rewrite <- Htag; apply take_app_length).
  assert (E4 : skipn 16 (tag ++ ct) = ct)
    by (rewrite <- Htag; apply drop_app_length).
  repeat split.
  - exact E1.
  - now rewrite E2.
  - change 32%nat with (16 + 16)%nat. now rewrite <- drop_drop, E2, E4.
  - apply Nat.ltb_ge. rewrite !length_app. lia.
Qed.

(** On the bytes of the plaintext: for every non-empty UTF-8 text [p] and
    every key selection [u] (a user id, or none for the master key),
    [encryptPII] succeeds and [decryptPII] of its output under the same
    selection returns the same bytes. *)
Lemma decryptPII_encryptPII_bytes (env : ProcessEnv) (svc : EncryptionService.t)
    (p : string) (u : option string) (g : Rng) :
  EncryptionService.new env = Ok svc ->
  p <> "" ->
  exists buf g',
    EncryptionService.encryptPII svc p u g = Ok (buf, g') /\
    EncryptionService.decryptPII svc buf u = Ok p.
Proof.
  intros Hsvc Hp.
  pose proof (EncryptionService_select_key_length env svc u Hsvc) as Hkey.
  unfold EncryptionService.encryptPII.
  destruct p as [|c p']; [contradiction|]. cbn [truthy negb].
  set (data := String c p').
  destruct (randomBytes 16 g) as [iv g'] eqn:Hrand.
  assert (Hiv : length iv = 16%nat).
  { pose proof (randomBytes_length 16 g) as Hl. now rewrite Hrand in Hl. }
  unfold cipher_aes_256_gcm. rewrite (check_key_iv_ok _ _ Hkey Hiv). cbn [bind].
  set (key := EncryptionService.select_key svc u) in *.
  set (ct := aes_256_gcm_encrypt key iv (Buffer_from_utf8 data)).
  eexists _, _. split; [reflexivity|].
  pose proof (gcm_tag_length key iv (Buffer_from_utf8 data)) as Htag. fold ct in Htag.
  destruct (layout_split iv (snd ct) (fst ct) Hiv Htag) as (E1 & E2 & E3 & E4).
  unfold EncryptionService.decryptPII. rewrite E4, E1, E2, E3. fold key.
  rewrite (check_key_iv_ok _ _ Hkey Hiv). cbn [bind].
  unfold setAuthTag. rewrite Htag. cbn [Nat.eqb Nat.leb orb andb bind].
  unfold decipher_final, ct.
  rewrite gcm_decrypt_encrypt; [|exact Hkey|].
  - cbn [bind try_catch]. unfold toString_utf8, Buffer_from_utf8.
    now rewrite string_of_list_byte_of_string.
  - intros ->. discriminate.
Qed.

End EncryptionFacts.

(** *** Strings *)

Lemma list_byte_of_string_cons (c : ascii) (s : string) :
  list_byte_of_string (String c s) = byte_of_ascii c :: list_byte_of_string s.
Proof. reflexivity. Qed.

Lemma Buffer_from_utf8_length (s : string) :
  length (Buffer_from_utf8 s) = String.length s.
Proof.
  unfold Buffer_from_utf8. induction s as [|c s IH]; [reflexivity|].
  rewrite list_byte_of_string_cons. cbn [length String.length]. now rewrite IH.
Qed.

Lemma Buffer_from_utf8_app (s1 s2 : string) :
  Buffer_from_utf8 (s1 +:+ s2) = Buffer_from_utf8 s1 ++ Buffer_from_utf8 s2.
Proof.
  unfold Buffer_from_utf8. induction s1 as [|c s1 IH]; [reflexivity|].
  change (String c s1 +:+ s2) with (String c (s1 +:+ s2)).
  rewrite !list_byte_of_string_cons, IH. reflexivity.
Qed.

Lemma Buffer_from_utf8_inj (s1 s2 : string) :
  Buffer_from_utf8 s1 = Buffer_from_utf8 s2 -> s1 = s2.
Proof.
  unfold Buffer_from_utf8. intros E.
  rewrite <- (string_of_list_byte_of_string s1), <- (string_of_list_byte_of_string s2).
  now rewrite E.
Qed.

Lemma string_forallb_app (p : ascii -> bool) (s1 s2 : string) :
  string_forallb p (s1 +:+ s2) = string_forallb p s1 && string_forallb p s2.
Proof.
  induction s1 as [|c s1 IH]; [reflexivity|].
  change (String c s1 +:+ s2) with (String c (s1 +:+ s2)).
  cbn [string_forallb]. now rewrite IH, andb_assoc.
Qed.

Lemma string_forallb_impl (p q : ascii -> bool) (s : string) :
  (forall c, p c = true -> q c = true) ->
  string_forallb p s = true -> string_forallb q s = true.
Proof.
  intros Hpq. induction s as [|c s IH]; [reflexivity|].
  cbn [string_forallb]. intros Hs. apply andb_prop in Hs as [Hc Hs].
  now rewrite (Hpq _ Hc), IH.
Qed.

Lemma substring_0_length (n : nat) : forall s,
  (n <= String.length s)%nat -> String.length (substring 0 n s) = n.
Proof.
  induction n as [|n IH]; intros [|c s] Hn; cbn in *; try reflexivity; try lia.
  f_equal. apply IH. lia.
Qed.

Lemma substring_0_forallb (p : ascii -> bool) (n : nat) : forall s,
  string_forallb p s = true -> string_forallb p (substring 0 n s) = true.
Proof.
  induction n as [|n IH]; intros [|c s] Hs; cbn in *; try reflexivity.
  apply andb_prop in Hs as [Hc Hs]. now rewrite Hc, IH.
Qed.

Lemma is_lower_hex_not_colon (c : ascii) : is_lower_hex c = true -> not_colon c = true.
Proof.
  unfold is_lower_hex, not_colon, not_char. intros Hc.
  destruct (Ascii.eqb_spec c ":") as [->|]; [discriminate | reflexivity].
Qed.

(** A string without the separator is one part. *)
Lemma split_on_none (sep : ascii) (s : string) :
  string_forallb (not_char sep) s = true -> split_on sep s = [s].
Proof.
  induction s as [|c s IH]; [reflexivity|].
  cbn [string_forallb split_on]. intros Hs. apply andb_prop in Hs as [Hc Hs].
  unfold not_char in Hc. destruct (Ascii.eqb c sep); [discriminate|].
  now rewrite (IH Hs).
Qed.

(** Splitting [a<sep>rest], where [a] does not hold the separator, gives
    [a] and the parts of [rest]. *)
Lemma split_on_app (sep : ascii) (a rest : string) :
  string_forallb (not_char sep) a = true ->
  split_on sep (a +:+ String sep rest) = a :: split_on sep rest.
Proof.
  induction a as [|c a IH]; intros Ha.
  - change ("" +:+ String sep rest) with (String sep rest).
    cbn [split_on]. now rewrite Ascii.eqb_refl.
  - cbn [string_forallb] in Ha. apply andb_prop in Ha as [Hc Ha].
    change (String c a +:+ String sep rest) with (String c (a +:+ String sep rest)).
    cbn [split_on]. unfold not_char in Hc.
    destruct (Ascii.eqb c sep); [discriminate|]. now rewrite (IH Ha).
Qed.

Lemma split_on_no_colon (s : string) :
  string_forallb not_colon s = true -> split_on ":" s = [s].
Proof. apply split_on_none. Qed.

Lemma split_on_colon_app (a rest : string) :
  string_forallb not_colon a = true ->
  split_on ":" (a +:+ String ":" rest) = a :: split_on ":" rest.
Proof. apply split_on_app. Qed.

(** *** AadhaarService *)

Section AadhaarFacts.
Context `{Crypto}.

Lemma AadhaarService_masterKey_length env svc :
  AadhaarService.new env = Ok svc ->
  length (KeyManagementService.getMasterKey (AadhaarService.kms svc)) = 32%nat.
Proof.
  unfold AadhaarService.new, getKMS. intros Hnew.
  destruct (KeyManagementService.new env) as [k|e] eqn:Hk; cbn in Hnew; [|discriminate].
  injection Hnew as <-. now apply (KMS_new_masterKey_length env).
Qed.

(** The token of a well-formed identifier: 32 lower-case hex characters. *)
Lemma tokenizeAadhaar_valid svc aadhaar :
  AadhaarService.validateAadhaarFormat aadhaar = true ->
  exists token,
    AadhaarService.tokenizeAadhaar svc aadhaar = Ok token /\
    String.length token = 32%nat /\
    string_forallb is_lower_hex token = true.
Proof.
  intros Hv. unfold AadhaarService.tokenizeAadhaar. rewrite Hv. cbn [negb].
  eexists. split; [reflexivity|]. split.
  - apply substring_0_length. rewrite toString_hex_length, hmac_sha256_length. lia.
  - apply substring_0_forallb, toString_hex_lower.
Qed.

Lemma tokenizeAadhaar_invalid svc aadhaar :
  AadhaarService.validateAadhaarFormat aadhaar = false ->
  AadhaarService.tokenizeAadhaar svc aadhaar =
    Throw (mkExn Error "Invalid Aadhaar format. Must be exactly 12 digits.").
Proof. intros Hv. unfold AadhaarService.tokenizeAadhaar. now rewrite Hv. Qed.

(** Encrypting for storage and decrypting gives back the token, whatever
    the random IV was. *)
Lemma decryptAadhaar_encryptAadhaar env svc aadhaar token g :
  AadhaarService.new env = Ok svc ->
  AadhaarService.tokenizeAadhaar svc aadhaar = Ok token ->
  exists buf g',
    AadhaarService.encryptAadhaar svc aadhaar g = Ok (buf, g') /\
    AadhaarService.decryptAadhaar svc buf = Ok token.
Proof.
  intros Hsvc Htok.
  pose proof (AadhaarService_masterKey_length env svc Hsvc) as Hkey.
  unfold AadhaarService.encryptAadhaar. rewrite Htok. cbn [bind].
  destruct (randomBytes 16 g) as [iv g'] eqn:Hrand.
  assert (Hiv : length iv = 16%nat).
  { pose proof (randomBytes_length 16 g) as Hl. now rewrite Hrand in Hl. }
  unfold cipher_aes_256_gcm. rewrite (check_key_iv_ok _ _ Hkey Hiv). cbn [bind].
  set (key := KeyManagementService.getMasterKey (AadhaarService.kms svc)) in *.
  set (ct := aes_256_gcm_encrypt key iv (Buffer_from_utf8 token)).
  eexists _, _. split; [reflexivity|].
  pose proof (gcm_tag_length key iv (Buffer_from_utf8 token)) as Htag. fold ct in Htag.
  destruct (layout_split iv (snd ct) (fst ct) Hiv Htag) as (E1 & E2 & E3 & E4).
  unfold AadhaarService.decryptAadhaar. rewrite E4, E1, E2, E3. fold key.
  rewrite (check_key_iv_ok _ _ Hkey Hiv). cbn [bind].
  unfold setAuthTag. rewrite Htag. cbn [Nat.eqb Nat.leb orb andb bind].
  unfold decipher_final, ct.
  rewrite gcm_decrypt_encrypt; [|exact Hkey|].
  - cbn [bind]. unfold toString_utf8, Buffer_from_utf8.
    now rewrite string_of_list_byte_of_string.
  - intros ->. discriminate.
Qed.

(** C9. Tokenization is deterministic and format-validated: a 12-digit
    identifier such as "490154203517" has one 32-character hex pseudonym,
    which every call returns and which two storage encryptions made with
    different random state both decrypt to; an input that is not exactly
    12 digits, such as "12345", raises the format error and yields no token. *)
Theorem tokenizeAadhaar_deterministic_validated
    (env : ProcessEnv) (svc : AadhaarService.t) (aadhaar : string) :
  AadhaarService.new env = Ok svc ->
  (AadhaarService.validateAadhaarFormat aadhaar = true ->
   exists token,
     (forall r1 r2,
        r1 = AadhaarService.tokenizeAadhaar svc aadhaar ->
        r2 = AadhaarService.tokenizeAadhaar svc aadhaar ->
        r1 = Ok token /\ r2 = Ok token) /\
     String.length token = 32%nat /\
     string_forallb is_lower_hex token = true /\
     (forall g1 g2, exists b1 g1' b2 g2',
        AadhaarService.encryptAadhaar svc aadhaar g1 = Ok (b1, g1') /\
        AadhaarService.encryptAadhaar svc aadhaar g2 = Ok (b2, g2') /\
        AadhaarService.decryptAadhaar svc b1 = Ok token /\
        AadhaarService.decryptAadhaar svc b2 = Ok token)) /\
  (AadhaarService.validateAadhaarFormat aadhaar = false ->
   AadhaarService.tokenizeAadhaar svc aadhaar =
     Throw (mkExn Error "Invalid Aadhaar format. Must be exactly 12 digits.")) /\
  AadhaarService.validateAadhaarFormat "490154203517" = true /\
  AadhaarService.validateAadhaarFormat "12345" = false.
Proof.
  intros Hsvc. split; [|split; [|split; reflexivity]].
  - intros Hv.
    destruct (tokenizeAadhaar_valid svc aadhaar Hv) as (token & Htok & Hlen & Hhex).
    exists token. split; [|split; [exact Hlen|split; [exact Hhex|]]].
    + intros r1 r2 -> ->. now rewrite Htok.
    + intros g1 g2.
      destruct (decryptAadhaar_encryptAadhaar env svc aadhaar token g1 Hsvc Htok)
        as (b1 & g1' & He1 & Hd1).
      destruct (decryptAadhaar_encryptAadhaar env svc aadhaar token g2 Hsvc Htok)
        as (b2 & g2' & He2 & Hd2).
      now exists b1, g1', b2, g2'.
  - apply tokenizeAadhaar_invalid.
Qed.

Lemma hashAadhaar_valid svc aadhaar :
  AadhaarService.validateAadhaarFormat aadhaar = true ->
  exists h, AadhaarService.hashAadhaar svc aadhaar = Ok h /\ String.length h = 64%nat.
Proof.
  intros Hv. unfold AadhaarService.hashAadhaar.
  destruct (tokenizeAadhaar_valid svc aadhaar Hv) as (token & -> & _).
  cbn [bind]. eexists. split; [reflexivity|].
  rewrite toString_hex_length, sha256_length. reflexivity.
Qed.

(** C10. [verifyAadhaarHash] returns a boolean only when the stored hash
    has the 64 bytes of the computed hex digest; for a valid identifier and
    a stored hash of any other length it throws the [RangeError] of
    [crypto.timingSafeEqual]; with 64 bytes it returns whether the two are
    equal. *)
Theorem verifyAadhaarHash_length_mismatch_throws
    (svc : AadhaarService.t) (aadhaar storedHash : string) :
  (forall b, AadhaarService.verifyAadhaarHash svc aadhaar storedHash = Ok b ->
             String.length storedHash = 64%nat) /\
  (AadhaarService.validateAadhaarFormat aadhaar = true ->
   String.length storedHash <> 64%nat ->
   AadhaarService.verifyAadhaarHash svc aadhaar storedHash =
     Throw (mkExn RangeError "Input buffers must have the same byte length")) /\
  (AadhaarService.validateAadhaarFormat aadhaar = true ->
   String.length storedHash = 64%nat ->
   exists b,
     AadhaarService.verifyAadhaarHash svc aadhaar storedHash = Ok b /\
     (b = true <-> AadhaarService.hashAadhaar svc aadhaar = Ok storedHash)).
Proof.
  unfold AadhaarService.verifyAadhaarHash.
  destruct (AadhaarService.validateAadhaarFormat aadhaar) eqn:Hv.
  - destruct (hashAadhaar_valid svc aadhaar Hv) as (h & Hh & Hlen).
    rewrite Hh. cbn [bind]. unfold timingSafeEqual.
    rewrite !Buffer_from_utf8_length, Hlen.
    split; [|split].
    + intros b. destruct (Nat.eqb_spec 64 (String.length storedHash)); [lia | discriminate].
    + intros _ Hne. destruct (Nat.eqb_spec 64 (String.length storedHash)); [lia | reflexivity].
    + intros _ He. rewrite He. cbn [Nat.eqb]. eexists. split; [reflexivity|].
      unfold buffer_eqb. rewrite bool_decide_eq_true. split.
      * intros E. f_equal. now apply Buffer_from_utf8_inj.
      * intros E. injection E as ->. reflexivity.
  - unfold AadhaarService.hashAadhaar. rewrite (tokenizeAadhaar_invalid svc aadhaar Hv).
    cbn [bind]. split; [|split]; discriminate.
Qed.

End AadhaarFacts.

(** *** HMAC and PBKDF2 *)

Section PrimitiveFacts.
Context `{Crypto}.

Lemma xor_buffers_length (a b : Buffer) :
  length a = length b -> length (xor_buffers a b) = length a.
Proof.
  intros Hab. unfold xor_buffers. rewrite length_map, length_combine. lia.
Qed.

Lemma pbkdf2_F_length (password salt : Buffer) (c i : N) :
  length (pbkdf2_F (hmac_sha512 password) salt c i) = 64%nat.
Proof.
  unfold pbkdf2_F.
  set (step := fun st : Buffer * Buffer =>
                 let u := hmac_sha512 password (fst st) in (u, xor_buffers (snd st) u)).
  set (u1 := hmac_sha512 password (salt ++ INT_32_BE i)).
  induction (c - 1)%N as [|n IH] using N.peano_ind.
  - cbn. apply hmac_sha512_length.
  - rewrite N.iter_succ. unfold step at 1. cbn [snd].
    rewrite xor_buffers_length; [exact IH|].
    now rewrite IH, hmac_sha512_length.
Qed.

Lemma pbkdf2_hmac_sha512_length_64 (password salt : Buffer) (c : N) :
  length (pbkdf2_hmac_sha512 password salt c 64) = 64%nat.
Proof.
  unfold pbkdf2_hmac_sha512.
  change ((64 + 63) / 64)%nat with 1%nat. cbn [seq flat_map].
  rewrite app_nil_r, firstn_all2; rewrite pbkdf2_F_length; lia.
Qed.

(** HMAC pads a short key with zero bytes, so a key and the same key
    followed by a zero byte are one key. *)
Lemma hmac_key_trailing_zero (Hf : Buffer -> Buffer) (block : nat) (key : Buffer) :
  (length key < block)%nat ->
  hmac_key Hf block (key ++ [x00]) = hmac_key Hf block key.
Proof.
  intros Hlt. unfold hmac_key. rewrite length_app. cbn [length].
  destruct (Nat.ltb_spec block (length key + 1)); [lia|].
  destruct (Nat.ltb_spec block (length key)); [lia|].
  rewrite length_app. cbn [length]. rewrite <- app_assoc. f_equal.
  replace (block - length key)%nat with (S (block - (length key + 1))) by lia.
  reflexivity.
Qed.

Lemma hmac_trailing_zero (Hf : Buffer -> Buffer) (block : nat) (key msg : Buffer) :
  (length key < block)%nat ->
  hmac Hf block (key ++ [x00]) msg = hmac Hf block key msg.
Proof. intros Hlt. unfold hmac. now rewrite hmac_key_trailing_zero. Qed.

Lemma N_iter_ext {A} (f g : A -> A) (n : N) (x : A) :
  (forall a, f a = g a) -> N.iter n f x = N.iter n g x.
Proof.
  intros Hfg. induction n as [|n IH] using N.peano_ind; [reflexivity|].
  now rewrite !N.iter_succ, IH, Hfg.
Qed.

Lemma pbkdf2_hmac_sha512_trailing_zero (password salt : Buffer) (c : N) (dkLen : nat) :
  (length password < 128)%nat ->
  pbkdf2_hmac_sha512 (password ++ [x00]) salt c dkLen =
  pbkdf2_hmac_sha512 password salt c dkLen.
Proof.
  intros Hlt. unfold pbkdf2_hmac_sha512. f_equal.
  apply flat_map_ext. intros i. unfold pbkdf2_F.
  assert (E : forall m, hmac_sha512 (password ++ [x00]) m = hmac_sha512 password m)
    by (intros m; now apply hmac_trailing_zero).
  rewrite E. f_equal. apply N_iter_ext. intros st. now rewrite E.
Qed.

End PrimitiveFacts.

(** *** AuthService: passwords *)

Section PasswordFacts.
Context `{Crypto}.

Lemma toString_hex_truthy (b : Buffer) :
  (0 < length b)%nat -> truthy (Some (toString_hex b)) = true.
Proof. destruct b; cbn; [lia | reflexivity]. Qed.

Lemma toString_hex_no_colon (b : Buffer) :
  string_forallb not_colon (toString_hex b) = true.
Proof.
  eapply string_forallb_impl; [apply is_lower_hex_not_colon | apply toString_hex_lower].
Qed.

Lemma stored_components (salt dk : Buffer) :
  split_on ":" (toString_hex salt +:+ ":" +:+ toString_hex dk) =
  [toString_hex salt; toString_hex dk].
Proof.
  change (":" +:+ toString_hex dk) with (String ":" (toString_hex dk)).
  rewrite split_on_colon_app by apply toString_hex_no_colon.
  now rewrite split_on_no_colon by apply toString_hex_no_colon.
Qed.

Lemma derive_length env password salt dk :
  AuthService.derive (AuthService.new env) password salt = Ok dk ->
  length dk = 64%nat.
Proof.
  unfold AuthService.derive, pbkdf2.
  destruct (AuthService.PBKDF2_ITERATIONS (AuthService.new env)) as [n|]; [|discriminate].
  destruct (valid_iterations n); [|discriminate]. intros E. injection E as <-.
  apply pbkdf2_hmac_sha512_length_64.
Qed.

(** What [verifyPassword] computes on a credential in storage format. *)
Lemma verifyPassword_stored env password salt dk :
  (0 < length salt)%nat -> length dk = 64%nat ->
  AuthService.verifyPassword (AuthService.new env) password
    (toString_hex salt +:+ ":" +:+ toString_hex dk) =
  (dk' <- AuthService.derive (AuthService.new env) password salt ;;
   Ok (bool_decide (dk = dk'))).
Proof.
  intros Hsalt Hdk. unfold AuthService.verifyPassword.
  rewrite stored_components. cbn [nth_error].
  rewrite !toString_hex_truthy by lia. cbn [negb orb default from_option]. unfold id.
  rewrite Buffer_from_hex_toString_hex.
  destruct (AuthService.derive (AuthService.new env) password salt) as [dk'|e] eqn:Hd;
    [|reflexivity].
  cbn [bind]. rewrite !Buffer_from_hex_toString_hex.
  unfold timingSafeEqual. rewrite Hdk, (derive_length env _ _ _ Hd). reflexivity.
Qed.

Lemma hashPassword_inv env password g s g' :
  AuthService.hashPassword (AuthService.new env) password g = Ok (s, g') ->
  exists dk,
    AuthService.derive (AuthService.new env) password (fst (randomBytes 16 g)) = Ok dk /\
    s = toString_hex (fst (randomBytes 16 g)) +:+ ":" +:+ toString_hex dk.
Proof.
  unfold AuthService.hashPassword. cbn [AuthService.SALT_LENGTH AuthService.new].
  destruct (randomBytes 16 g) as [salt g1] eqn:Hr. cbn [fst].
  destruct (AuthService.derive _ password salt) as [dk|e]; [|discriminate].
  cbn [bind]. intros E. injection E as <- <-. now exists dk.
Qed.

Lemma hashPassword_ok env password g n :
  AuthService.PBKDF2_ITERATIONS (AuthService.new env) = Some n ->
  valid_iterations n = true ->
  AuthService.hashPassword (AuthService.new env) password g =
  Ok (toString_hex (fst (randomBytes 16 g)) +:+ ":" +:+
      toString_hex (pbkdf2_hmac_sha512 (Buffer_from_utf8 password)
                      (fst (randomBytes 16 g)) (Z.to_N n) 64),
      snd (randomBytes 16 g)).
Proof.
  intros Hn Hle. unfold AuthService.hashPassword.
  cbn [AuthService.SALT_LENGTH AuthService.new].
  destruct (randomBytes 16 g) as [salt g1]. cbn [fst snd].
  unfold AuthService.derive, pbkdf2. now rewrite Hn, Hle.
Qed.

(** HMAC's zero padding of the key makes a password and the same password
    followed by a NUL character one PBKDF2 input: the second verifies
    against a credential of the first. *)
Lemma verifyPassword_trailing_nul env password g s g' :
  (String.length password < 128)%nat ->
  AuthService.hashPassword (AuthService.new env) password g = Ok (s, g') ->
  AuthService.verifyPassword (AuthService.new env)
    (password +:+ String (ascii_of_nat 0) "") s = Ok true.
Proof.
  intros Hlen Hhash.
  destruct (hashPassword_inv env password g s g' Hhash) as (dk & Hdk & ->).
  assert (Hsalt : (0 < length (fst (randomBytes 16 g)))%nat)
    by (rewrite randomBytes_length; lia).
  rewrite verifyPassword_stored; [|exact Hsalt|exact (derive_length env _ _ _ Hdk)].
  unfold AuthService.derive, pbkdf2 in Hdk |- *.
  destruct (AuthService.PBKDF2_ITERATIONS (AuthService.new env)) as [n|]; [|discriminate].
  destruct (valid_iterations n); [|discriminate]. injection Hdk as <-. cbn [bind negb].
  rewrite Buffer_from_utf8_app.
  change (Buffer_from_utf8 (String (ascii_of_nat 0) "")) with [x00].
  rewrite pbkdf2_hmac_sha512_trailing_zero
    by (rewrite Buffer_from_utf8_length; exact Hlen).
  now rewrite bool_decide_eq_true_2.
Qed.

(** C8, as the code has it.  For a credential [s] produced by
    [hashPassword pw]: [verifyPassword pw s] is true; for any other
    password the result is a boolean, true exactly when PBKDF2 derives the
    same key from it under the stored salt; and a stored value whose salt
    or hash component is missing or empty verifies as false, without an
    error. *)
Theorem verifyPassword_hashPassword
    (env : ProcessEnv) (pw : string) (g : Rng) (s : string) (g' : Rng) :
  let svc := AuthService.new env in
  let salt := fst (randomBytes 16 g) in
  AuthService.hashPassword svc pw g = Ok (s, g') ->
  AuthService.verifyPassword svc pw s = Ok true /\
  (forall wrongPw, exists b,
     AuthService.verifyPassword svc wrongPw s = Ok b /\
     (b = true <->
      AuthService.derive svc wrongPw salt = AuthService.derive svc pw salt)) /\
  (forall password stored,
     truthy (salt_component stored) = false \/ truthy (hash_component stored) = false ->
     AuthService.verifyPassword svc password stored = Ok false).
Proof.
  intros svc salt Hhash.
  destruct (hashPassword_inv env pw g s g' Hhash) as (dk & Hdk & ->).
  fold salt in Hdk |- *. fold svc in Hdk.
  assert (Hsalt : (0 < length salt)%nat)
    by (unfold salt; rewrite randomBytes_length; lia).
  pose proof (derive_length env _ _ _ Hdk) as Hlen.
  split; [|split].
  - unfold svc. rewrite verifyPassword_stored by assumption.
    fold svc. rewrite Hdk. cbn [bind]. now rewrite bool_decide_eq_true_2.
  - intros wrongPw. unfold svc. rewrite verifyPassword_stored by assumption.
    fold svc. rewrite Hdk.
    assert (Hn : exists n, AuthService.PBKDF2_ITERATIONS svc = Some n /\
                           valid_iterations n = true).
    { unfold AuthService.derive, pbkdf2 in Hdk.
      destruct (AuthService.PBKDF2_ITERATIONS svc) as [n|]; [|discriminate].
      exists n. split; [reflexivity|].
      destruct (valid_iterations n); [reflexivity | discriminate]. }
    destruct Hn as (n & Hn & Hn1).
    unfold AuthService.derive, pbkdf2. rewrite Hn, Hn1. cbn [bind].
    eexists. split; [reflexivity|]. rewrite bool_decide_eq_true.
    unfold AuthService.derive, pbkdf2 in Hdk. rewrite Hn, Hn1 in Hdk.
    injection Hdk as <-. split; [intros <-; reflexivity | intros E; now injection E].
  - intros password stored Hbad. unfold AuthService.verifyPassword.
    fold (salt_component stored). fold (hash_component stored).
    destruct Hbad as [-> | ->]; [reflexivity | now rewrite orb_true_r].
Qed.

End PasswordFacts.

(** *** base64url *)

Ltac Zify.zify_post_hook ::= Z.to_euclidean_division_equations.

Lemma list_ind3 {A} (P : list A -> Prop) :
  P [] -> (forall x, P [x]) -> (forall x y, P [x; y]) ->
  (forall x y z l, P l -> P (x :: y :: z :: l)) ->
  forall l, P l.
Proof.
  intros H0 H1 H2 H3.
  fix IH 1. intros [|x [|y [|z l]]]; [exact H0 | apply H1 | apply H2 |].
  apply H3, IH.
Qed.

Lemma byte_of_N_to_N (x : byte) : byte_of_N (Byte.to_N x) = x.
Proof. destruct x; reflexivity. Qed.

Lemma base64url_char_spec (v : N) :
  (v < 64)%N ->
  unbase64 (base64url_char v) = Some v /\
  (code (base64url_char v) =? 61)%N = false /\
  jwt.is_base64url_char (base64url_char v) = true.
Proof.
  intros Hv.
  assert (Hall : forallb (fun n =>
            let c := base64url_char (N.of_nat n) in
            match unbase64 c with
            | Some w => (w =? N.of_nat n)%N
            | None => false
            end && negb (code c =? 61)%N && jwt.is_base64url_char c) (seq 0 64) = true)
    by (vm_compute; reflexivity).
  rewrite forallb_forall in Hall. specialize (Hall (N.to_nat v)).
  rewrite N2Nat.id in Hall. cbv zeta in Hall.
  assert (Hin : In (N.to_nat v) (seq 0 64)) by (apply in_seq; lia).
  specialize (Hall Hin).
  apply andb_prop in Hall as [Hall H3]. apply andb_prop in Hall as [H1 H2].
  destruct (unbase64 (base64url_char v)) as [w|]; [|discriminate].
  apply N.eqb_eq in H1 as ->. apply negb_true_iff in H2. auto.
Qed.

Lemma sextets_cons (v : N) (s : string) :
  (v < 64)%N -> sextets (String (base64url_char v) s) = v :: sextets s.
Proof.
  intros Hv. destruct (base64url_char_spec v Hv) as (H1 & H2 & _).
  cbn [sextets]. now rewrite H2, H1.
Qed.

Lemma byte_of_N_eq (n : N) (x : byte) : n = Byte.to_N x -> byte_of_N n = x.
Proof. intros ->. apply byte_of_N_to_N. Qed.

Ltac decoded_bytes :=
  repeat match goal with
         | |- _ :: _ = _ :: _ => f_equal; try (apply byte_of_N_eq; lia)
         end;
  try reflexivity.

(** Decoding what the encoder wrote gives the bytes back. *)
Lemma Buffer_from_base64url_toString_base64url (b : Buffer) :
  Buffer_from_base64url (toString_base64url b) = b.
Proof.
  unfold Buffer_from_base64url.
  induction b as [|x|x y|x y z l IH] using list_ind3.
  - reflexivity.
  - cbn [toString_base64url]. pose proof (Byte.to_N_bounded x).
    rewrite !sextets_cons by lia. cbn [sextets bytes_of_sextets]. decoded_bytes.
  - cbn [toString_base64url]. pose proof (Byte.to_N_bounded x).
    pose proof (Byte.to_N_bounded y).
    rewrite !sextets_cons by lia. cbn [sextets bytes_of_sextets]. decoded_bytes.
  - cbn [toString_base64url]. pose proof (Byte.to_N_bounded x).
    pose proof (Byte.to_N_bounded y). pose proof (Byte.to_N_bounded z).
    rewrite !sextets_cons by lia. cbn [bytes_of_sextets]. rewrite IH. decoded_bytes.
Qed.

Lemma base64url_char_valid (v : N) :
  (v < 64)%N -> jwt.is_base64url_char (base64url_char v) = true.
Proof. intros Hv. apply (base64url_char_spec v Hv). Qed.

Lemma toString_base64url_chars (b : Buffer) :
  string_forallb jwt.is_base64url_char (toString_base64url b) = true.
Proof.
  induction b as [|x|x y|x y z l IH] using list_ind3; cbn [toString_base64url string_forallb].
  - reflexivity.
  - pose proof (Byte.to_N_bounded x).
    rewrite !base64url_char_valid by lia. reflexivity.
  - pose proof (Byte.to_N_bounded x). pose proof (Byte.to_N_bounded y).
    rewrite !base64url_char_valid by lia. reflexivity.
  - pose proof (Byte.to_N_bounded x). pose proof (Byte.to_N_bounded y).
    pose proof (Byte.to_N_bounded z).
    rewrite !base64url_char_valid by lia. now rewrite IH.
Qed.

(** *** JSON *)

Lemma string_app_assoc (a b c : string) : (a +:+ b) +:+ c = a +:+ (b +:+ c).
Proof.
  induction a as [|x a IH]; [reflexivity|].
  change ((String x (a +:+ b)) +:+ c = String x (a +:+ (b +:+ c))).
  change (String x ((a +:+ b) +:+ c) = String x (a +:+ (b +:+ c))).
  now rewrite IH.
Qed.

Lemma string_app_cons (x : ascii) (a b : string) :
  String x a +:+ b = String x (a +:+ b).
Proof. reflexivity. Qed.

Lemma string_app_nil_l (a : string) : "" +:+ a = a.
Proof. reflexivity. Qed.

(** One escaped character is read back as the character. *)
Lemma parse_string_body_escape_char (c : ascii) (tail : string) :
  parse_string_body (escape_char c +:+ tail) =
  match parse_string_body tail with
  | Some (body, after) => Some (String c body, after)
  | None => None
  end.
Proof.
  destruct c as [b0 b1 b2 b3 b4 b5 b6 b7].
  destruct b0, b1, b2, b3, b4, b5, b6, b7; reflexivity.
Qed.

(** A quoted string is read back as the string, whatever its characters. *)
Lemma parse_string_body_escape_string (s rest : string) :
  parse_string_body (escape_string s +:+ String dquote rest) = Some (s, rest).
Proof.
  induction s as [|c s IH]; [reflexivity|].
  cbn [escape_string]. rewrite string_app_assoc, parse_string_body_escape_char.
  now rewrite IH.
Qed.

Lemma quote_app (s rest : string) :
  quote s +:+ rest = String dquote (escape_string s +:+ String dquote rest).
Proof.
  unfold quote. rewrite string_app_cons, string_app_assoc. reflexivity.
Qed.

Lemma parse_value_quote (fuel : nat) (s rest : string) :
  parse_value (S fuel) (quote s +:+ rest) = Some (JStr s, rest).
Proof.
  rewrite quote_app.
  change (parse_value (S fuel) (String dquote ?x)) with
    ('(body, after) ← parse_string_body x; Some (JStr body, after)).
  now rewrite parse_string_body_escape_string.
Qed.

(** A member with a string value, followed by more members. *)
Lemma string_app_nil_r (a : string) : a +:+ "" = a.
Proof.
  induction a as [|x a IH]; [reflexivity|].
  change (String x (a +:+ "") = String x a). now rewrite IH.
Qed.

Lemma span_app (p : ascii -> bool) (lit rest : string) :
  string_forallb p lit = true ->
  match rest with "" => true | String c _ => negb (p c) end = true ->
  span p (lit +:+ rest) = (lit, rest).
Proof.
  intros Hlit Hrest. induction lit as [|c lit IH].
  - change ("" +:+ rest) with rest. destruct rest as [|c rest]; [reflexivity|].
    cbn [span]. apply negb_true_iff in Hrest. now rewrite Hrest.
  - cbn [string_forallb] in Hlit. apply andb_true_iff in Hlit as [Hc Hlit].
    change (String c lit +:+ rest) with (String c (lit +:+ rest)).
    cbn [span]. rewrite Hc, (IH Hlit). reflexivity.
Qed.

Lemma span_all (p : ascii -> bool) (lit : string) :
  string_forallb p lit = true -> span p lit = (lit, "").
Proof.
  intros Hlit. rewrite <- (string_app_nil_r lit) at 1. now apply span_app.
Qed.

(** **** Numbers *)

Lemma string_of_uint_digits (d : Decimal.uint) :
  string_forallb is_digit (NilEmpty.string_of_uint d) = true.
Proof. induction d; cbn [NilEmpty.string_of_uint string_forallb]; auto. Qed.

Lemma nzhead_head (d : Decimal.uint) :
  match Decimal.nzhead d with Decimal.D0 _ => False | _ => True end.
Proof. induction d; cbn [Decimal.nzhead]; auto. Qed.

Lemma to_uint_normal (p : positive) : Decimal.nzhead (Pos.to_uint p) = Pos.to_uint p.
Proof.
  pose proof (DecimalPos.Unsigned.to_of (Pos.to_uint p)) as Hto.
  rewrite DecimalPos.Unsigned.of_to in Hto. cbn [N.to_uint] in Hto.
  pose proof (DecimalPos.Unsigned.to_uint_nonzero p) as Hnz.
  unfold Decimal.unorm in Hto.
  destruct (Decimal.nzhead (Pos.to_uint p)) eqn:E; try (symmetry; exact Hto).
  now rewrite Hto in Hnz.
Qed.

Lemma json_int_part_to_uint (p : positive) :
  json_int_part (NilEmpty.string_of_uint (Pos.to_uint p)) = true.
Proof.
  pose proof (nzhead_head (Pos.to_uint p)) as Hhead.
  rewrite to_uint_normal in Hhead.
  pose proof (DecimalPos.Unsigned.to_uint_nonnil p) as Hnil.
  pose proof (string_of_uint_digits (Pos.to_uint p)) as Hd.
  destruct (Pos.to_uint p); try contradiction; try exact Hd.
Qed.

Lemma NilZero_string_of_uint_to_uint (p : positive) :
  NilZero.string_of_uint (Pos.to_uint p) = NilEmpty.string_of_uint (Pos.to_uint p).
Proof.
  pose proof (DecimalPos.Unsigned.to_uint_nonnil p) as Hnil.
  unfold NilZero.string_of_uint. now destruct (Pos.to_uint p).
Qed.

Lemma string_of_Z_digits (z : Z) :
  string_of_Z z = (if (z <? 0)%Z then String "-" (digits_of_Z z) else digits_of_Z z).
Proof.
  destruct z as [|p|p]; [reflexivity| |];
    unfold string_of_Z; cbn [Z.to_int NilZero.string_of_int Z.ltb Z.compare digits_of_Z];
    now rewrite NilZero_string_of_uint_to_uint.
Qed.

Lemma digits_of_Z_digits (z : Z) : string_forallb is_digit (digits_of_Z z) = true.
Proof. destruct z; [reflexivity| |]; apply string_of_uint_digits. Qed.

Lemma digits_of_Z_int_part (z : Z) : json_int_part (digits_of_Z z) = true.
Proof. destruct z; [reflexivity| |]; apply json_int_part_to_uint. Qed.

Lemma digits_of_Z_head (z : Z) :
  exists c tail, digits_of_Z z = String c tail /\ is_digit c = true.
Proof.
  pose proof (digits_of_Z_int_part z) as Hi. pose proof (digits_of_Z_digits z) as Hd.
  destruct (digits_of_Z z) as [|c tail]; [discriminate|].
  exists c, tail. split; [reflexivity|].
  cbn [string_forallb] in Hd. now apply andb_true_iff in Hd as [Hc _].
Qed.

Lemma is_digit_number_char (c : ascii) : is_digit c = true -> is_number_char c = true.
Proof. intros Hc. unfold is_number_char. now rewrite Hc. Qed.

Lemma number_shape_string_of_Z (z : Z) : number_shape (string_of_Z z) = Some true.
Proof.
  assert (Hu : forall lit,
             (lit = digits_of_Z z \/ lit = String "-" (digits_of_Z z)) ->
             match lit with String "-" rest => rest | _ => lit end = digits_of_Z z).
  { intros lit [->| ->]; [|reflexivity].
    destruct (digits_of_Z_head z) as (c & tail & -> & Hc).
    destruct c as [[] [] [] [] [] [] [] []]; try reflexivity; discriminate. }
  unfold number_shape. rewrite Hu.
  - rewrite span_all by apply digits_of_Z_digits.
    now rewrite digits_of_Z_int_part.
  - rewrite string_of_Z_digits. destruct (z <? 0)%Z; auto.
Qed.

Lemma int_of_string_string_of_Z (z : Z) :
  NilZero.int_of_string (string_of_Z z) = Some (Z.to_int z).
Proof.
  unfold string_of_Z. apply NilZero.isi.
  - destruct z as [|p|p]; cbn [Z.to_int]; try discriminate.
    intros [= E]. now apply (DecimalPos.Unsigned.to_uint_nonnil p).
  - destruct z as [|p|p]; cbn [Z.to_int]; try discriminate.
    intros [= E]. now apply (DecimalPos.Unsigned.to_uint_nonnil p).
Qed.

Lemma string_of_Z_number_chars (z : Z) :
  string_forallb is_number_char (string_of_Z z) = true.
Proof.
  assert (Hd : string_forallb is_number_char (digits_of_Z z) = true).
  { eapply string_forallb_impl; [apply is_digit_number_char | apply digits_of_Z_digits]. }
  rewrite string_of_Z_digits. destruct (z <? 0)%Z; [|exact Hd].
  cbn [string_forallb]. now rewrite Hd.
Qed.

Lemma string_of_Z_starts_number (z : Z) : starts_number (string_of_Z z).
Proof.
  rewrite string_of_Z_digits. destruct (z <? 0)%Z.
  - exists "-"%char, (digits_of_Z z). auto.
  - destruct (digits_of_Z_head z) as (c & tail & -> & Hc). exists c, tail. auto.
Qed.

Lemma number_shape_starts_number (literal : string) :
  number_shape literal <> None -> starts_number literal.
Proof.
  intros Hshape. destruct literal as [|c tail]; [now contradiction Hshape|].
  exists c, tail. split; [reflexivity|].
  destruct (is_digit c) eqn:Hc; [now left|right].
  destruct (Ascii.eqb_spec c "-") as [->|Hne]; [reflexivity|].
  contradiction Hshape. unfold number_shape.
  assert (Hu : match String c tail with String "-" rest => rest | _ => String c tail end
               = String c tail).
  { destruct c as [[] [] [] [] [] [] [] []]; try reflexivity. now contradiction Hne. }
  rewrite Hu. cbn [span]. rewrite Hc. reflexivity.
Qed.

(** [parse_value] on a text that starts a number goes to [parse_number]. *)
Lemma parse_value_number (fuel : nat) (s : string) :
  starts_number s -> parse_value (S fuel) s = parse_number s.
Proof.
  intros (c & tail & -> & Hc).
  assert (Hd : is_json_space c = false /\ (code c =? 123)%N = false /\
               (code c =? 91)%N = false /\ (code c =? 34)%N = false /\
               (code c =? 116)%N = false /\ (code c =? 102)%N = false /\
               (code c =? 110)%N = false).
  { destruct Hc as [Hc| ->]; [|repeat split; reflexivity].
    destruct c as [[] [] [] [] [] [] [] []]; try discriminate Hc; repeat split; reflexivity. }
  destruct Hd as (H0 & H1 & H2 & H3 & H4 & H5 & H6).
  cbn [parse_value skip_ws]. rewrite H0. cbv iota. now rewrite H1, H2, H3, H4, H5, H6.
Qed.

Lemma starts_number_app (s rest : string) : starts_number s -> starts_number (s +:+ rest).
Proof.
  intros (c & tail & -> & Hc). exists c, (tail +:+ rest). split; [reflexivity | exact Hc].
Qed.

Lemma parse_value_JNum (fuel : nat) (z : Z) (rest : string) :
  ends_number rest = true ->
  parse_value (S fuel) (string_of_Z z +:+ rest) = Some (JNum z, rest).
Proof.
  intros Hrest.
  rewrite parse_value_number by (apply starts_number_app, string_of_Z_starts_number).
  unfold parse_number.
  rewrite span_app; [|apply string_of_Z_number_chars|exact Hrest].
  rewrite number_shape_string_of_Z, int_of_string_string_of_Z.
  cbn [mbind option_bind]. now rewrite DecimalZ.of_to.
Qed.

Lemma parse_value_JFrac (fuel : nat) (literal rest : string) :
  fraction_literal literal = true -> ends_number rest = true ->
  parse_value (S fuel) (literal +:+ rest) = Some (JFrac literal, rest).
Proof.
  unfold fraction_literal. intros Hlit Hrest.
  apply andb_true_iff in Hlit as [Hchars Hshape].
  destruct (number_shape literal) as [[]|] eqn:E; try discriminate.
  rewrite parse_value_number
    by (apply starts_number_app, number_shape_starts_number; congruence).
  unfold parse_number. rewrite span_app; [|exact Hchars|exact Hrest].
  now rewrite E.
Qed.

(** **** Values *)

Lemma string_length_app (a b : string) :
  String.length (a +:+ b) = (String.length a + String.length b)%nat.
Proof.
  induction a as [|x a IH]; [reflexivity|].
  change (String x a +:+ b) with (String x (a +:+ b)). cbn [String.length]. now rewrite IH.
Qed.

Lemma join_cons2 (sep x y : string) (l : list string) :
  join sep (x :: y :: l) = x +:+ sep +:+ join sep (y :: l).
Proof. reflexivity. Qed.

Lemma starts_number_value (s : string) : starts_number s -> starts_value s.
Proof.
  intros (c & tail & -> & Hc). exists c, tail. split; [reflexivity|].
  destruct Hc as [Hc| ->]; [|repeat split; discriminate].
  destruct c as [[] [] [] [] [] [] [] []]; try discriminate Hc;
    repeat split; discriminate.
Qed.

Lemma starts_value_app (s rest : string) : starts_value s -> starts_value (s +:+ rest).
Proof.
  intros (c & tail & -> & Hc). exists c, (tail +:+ rest). split; [reflexivity | exact Hc].
Qed.

Lemma quote_starts_value (s : string) : starts_value (quote s).
Proof.
  eexists _, _. split; [reflexivity|].
  repeat split; try reflexivity; intros E; vm_compute in E; discriminate E.
Qed.

Lemma JSON_stringify_starts_value (v : json) :
  serializable v = true -> starts_value (JSON_stringify v).
Proof.
  intros Hs. destruct v as [|[]|z|literal|s|items|fields];
    try (eexists _, _; split; [reflexivity|];
         repeat split; try reflexivity; discriminate).
  - apply starts_number_value, string_of_Z_starts_number.
  - apply starts_number_value, number_shape_starts_number.
    cbn [serializable] in Hs. unfold fraction_literal in Hs.
    apply andb_true_iff in Hs as [_ Hs].
    cbn [JSON_stringify].
    destruct (number_shape literal); [intros E; discriminate E | discriminate Hs].
Qed.

Lemma parse_value_array (fuel : nat) (s : string) :
  starts_value s ->
  parse_value (S fuel) (String "[" s) =
  '(items, after) ← parse_elements fuel s; Some (JArr items, after).
Proof.
  intros (c & tail & -> & Hsp & Hb & _).
  change (parse_value (S fuel) (String "[" ?x)) with
    (match skip_ws x with
     | String "]" after => Some (JArr [], after)
     | _ => '(items, after) ← parse_elements fuel x; Some (JArr items, after)
     end).
  cbn [skip_ws]. rewrite Hsp.
  destruct c as [[] [] [] [] [] [] [] []]; try reflexivity. now contradiction Hb.
Qed.

Lemma parse_value_object (fuel : nat) (s : string) :
  starts_value s ->
  parse_value (S fuel) (String "{" s) =
  '(fields, after) ← parse_members fuel s;
  Some (JObj (fold_left (fun acc kv => obj_set (fst kv) (snd kv) acc) fields []), after).
Proof.
  intros (c & tail & -> & Hsp & _ & Hb).
  change (parse_value (S fuel) (String "{" ?x)) with
    (match skip_ws x with
     | String "}" after => Some (JObj [], after)
     | _ => '(fields, after) ← parse_members fuel x;
            Some (JObj (fold_left (fun acc kv => obj_set (fst kv) (snd kv) acc)
                          fields []), after)
     end).
  cbn [skip_ws]. rewrite Hsp.
  destruct c as [[] [] [] [] [] [] [] []]; try reflexivity. now contradiction Hb.
Qed.

Lemma parse_elements_stringify (items : list json) :
  Forall reads_back items ->
  forallb serializable items = true ->
  items <> [] ->
  forall fuel rest,
    (list_sum (map (fun x => S (json_size x)) items) < fuel)%nat ->
    parse_elements fuel (join "," (map JSON_stringify items) +:+ String "]" rest) =
    Some (items, rest).
Proof.
  induction 1 as [|x xs Hx Hxs IH]; [congruence|].
  intros Hs _ fuel rest Hfuel.
  cbn [forallb] in Hs. apply andb_true_iff in Hs as [Hsx Hsxs].
  cbn [map list_sum fold_right] in Hfuel.
  destruct fuel as [|fuel]; [lia|].
  destruct xs as [|y ys].
  - cbn [map join parse_elements]. cbn [map list_sum fold_right] in Hfuel.
    rewrite (Hx Hsx) by (reflexivity || (cbn [map list_sum fold_right] in Hfuel; lia)).
    reflexivity.
  - cbn [map]. rewrite join_cons2, !string_app_assoc.
    change (JSON_stringify y :: map JSON_stringify ys) with (map JSON_stringify (y :: ys)).
    cbn [parse_elements].
    rewrite (Hx Hsx) by (reflexivity || (cbn [map list_sum fold_right] in Hfuel; lia)).
    cbn [mbind option_bind].
    change (skip_ws ("," +:+ ?x)) with (String ","%char x). cbv iota.
    rewrite IH; [reflexivity | exact Hsxs | discriminate | cbn [map list_sum fold_right] in Hfuel |- *; lia].
Qed.

Lemma parse_members_stringify (fields : list (string * json)) :
  Forall (fun kv => reads_back (snd kv)) fields ->
  forallb (fun kv => serializable (snd kv)) fields = true ->
  fields <> [] ->
  forall fuel rest,
    (list_sum (map (fun kv => S (json_size (snd kv))) fields) < fuel)%nat ->
    parse_members fuel (join "," (map member fields) +:+ String "}" rest) =
    Some (fields, rest).
Proof.
  induction 1 as [|[k v] xs Hx Hxs IH]; [congruence|].
  intros Hs _ fuel rest Hfuel.
  cbn [forallb snd] in Hs. apply andb_true_iff in Hs as [Hsx Hsxs].
  cbn [map list_sum fold_right snd] in Hfuel. cbn [snd] in Hx.
  destruct fuel as [|fuel]; [lia|].
  assert (Hstep : forall tail,
             parse_members (S fuel) (member (k, v) +:+ tail) =
             '(val, after) ← parse_value fuel (JSON_stringify v +:+ tail);
             match skip_ws after with
             | String "," more' =>
                 '(kvs', after') ← parse_members fuel more';
                 Some ((k, val) :: kvs', after')
             | String "}" after' => Some ([(k, val)], after')
             | _ => None
             end).
  { intros tail. unfold member. cbn [fst snd].
    rewrite !string_app_assoc, quote_app.
    change (parse_members (S fuel) (String dquote ?x)) with
      ('(key, after_key) ← parse_string_body x;
       match skip_ws after_key with
       | String ":" after_colon =>
           '(val, after) ← parse_value fuel after_colon;
           match skip_ws after with
           | String "," more' =>
               '(kvs', after') ← parse_members fuel more';
               Some ((key, val) :: kvs', after')
           | String "}" after' => Some ([(key, val)], after')
           | _ => None
           end
       | _ => None
       end).
    rewrite parse_string_body_escape_string. cbn [mbind option_bind].
    change (skip_ws (":" +:+ ?x)) with (String ":"%char x). reflexivity. }
  destruct xs as [|y ys].
  - cbn [map join]. rewrite Hstep.
    rewrite (Hx Hsx) by (reflexivity || (cbn [map list_sum fold_right] in Hfuel; lia)).
    reflexivity.
  - cbn [map]. rewrite join_cons2, !string_app_assoc.
    change (member y :: map member ys) with (map member (y :: ys)).
    rewrite Hstep.
    rewrite (Hx Hsx) by (reflexivity || (cbn [map list_sum fold_right] in Hfuel; lia)).
    cbn [mbind option_bind].
    change (skip_ws ("," +:+ ?x)) with (String ","%char x). cbv iota.
    rewrite IH; [reflexivity | exact Hsxs | discriminate | cbn [map list_sum fold_right] in Hfuel |- *; lia].
Qed.

(** Writing the properties one by one into an empty object gives them back
    when the keys are distinct. *)
Lemma obj_set_fresh (k : string) (v : json) (fields : list (string * json)) :
  k ∉ map fst fields -> obj_set k v fields = fields ++ [(k, v)].
Proof.
  induction fields as [|[k' v'] fields IH]; intros Hk; [reflexivity|].
  cbn [map fst] in Hk. apply not_elem_of_cons in Hk as [Hne Hk].
  cbn [obj_set app]. apply String.eqb_neq in Hne. rewrite Hne. now rewrite IH.
Qed.

Lemma fold_obj_set (fields : list (string * json)) : forall acc,
  NoDup (map fst (acc ++ fields)) ->
  fold_left (fun acc kv => obj_set (fst kv) (snd kv) acc) fields acc = acc ++ fields.
Proof.
  induction fields as [|[k v] fields IH]; intros acc Hnd.
  - now rewrite app_nil_r.
  - cbn [fold_left fst snd].
    rewrite obj_set_fresh.
    + rewrite IH; rewrite <- app_assoc; [reflexivity | exact Hnd].
    + rewrite map_app in Hnd. apply NoDup_app in Hnd as (_ & Hnd & _).
      intros Hin. apply (Hnd k Hin). cbn [map fst]. apply list_elem_of_here.
Qed.

Lemma parse_value_stringify (v : json) : reads_back v.
Proof.
  induction v as [|b|z|literal|s|items IH|fields IH] using json_nested_ind;
    intros Hs fuel rest Hfuel Hrest; (destruct fuel as [|fuel]; [cbn in Hfuel; lia|]).
  - reflexivity.
  - destruct b; reflexivity.
  - now apply parse_value_JNum.
  - now apply parse_value_JFrac.
  - apply parse_value_quote.
  - destruct items as [|x xs]; [reflexivity|].
    change (JSON_stringify (JArr (x :: xs))) with
      ("[" +:+ join "," (map JSON_stringify (x :: xs)) +:+ "]").
    rewrite !string_app_assoc.
    change ("[" +:+ ?a) with (String "[" a).
    change ("]" +:+ rest) with (String "]" rest).
    cbn [serializable] in Hs.
    rewrite parse_value_array.
    + rewrite parse_elements_stringify; [reflexivity|exact IH|exact Hs|discriminate|].
      cbn [json_size] in Hfuel. lia.
    + apply starts_value_app.
      destruct xs; [cbn [map join] | cbn [map]; rewrite join_cons2; apply starts_value_app];
        apply JSON_stringify_starts_value;
        cbn [forallb] in Hs; now apply andb_true_iff in Hs as [Hs _].
  - destruct fields as [|x xs]; [reflexivity|].
    change (JSON_stringify (JObj (x :: xs))) with
      ("{" +:+ join "," (map member (x :: xs)) +:+ "}").
    rewrite !string_app_assoc.
    change ("{" +:+ ?a) with (String "{" a).
    change ("}" +:+ rest) with (String "}" rest).
    cbn [serializable] in Hs. apply andb_true_iff in Hs as [Hs Hkeys].
    rewrite parse_value_object.
    + rewrite parse_members_stringify; [|exact IH|exact Hs|discriminate|].
      * cbn [mbind option_bind]. rewrite fold_obj_set; [reflexivity|].
        apply bool_decide_eq_true_1 in Hkeys. exact Hkeys.
      * cbn [json_size] in Hfuel. lia.
    + apply starts_value_app.
      destruct xs; [cbn [map join] | cbn [map]; rewrite join_cons2; apply starts_value_app];
        unfold member; apply starts_value_app, quote_starts_value.
Qed.

Lemma list_sum_join {A} (f : A -> nat) (g : A -> string) (l : list A) :
  Forall (fun a => (f a <= String.length (g a))%nat) l ->
  (list_sum (map (fun a => S (f a)) l) <= S (String.length (join "," (map g l))))%nat.
Proof.
  induction 1 as [|x xs Hx Hxs IH]; [cbn; lia|].
  destruct xs as [|y ys].
  - cbn [map list_sum fold_right join]. lia.
  - cbn [map] in IH |- *. rewrite join_cons2, !string_length_app.
    cbn [list_sum fold_right] in IH |- *.
    change (String.length ",") with 1%nat. lia.
Qed.

Lemma json_size_le (v : json) : (json_size v <= String.length (JSON_stringify v))%nat.
Proof.
  induction v as [| | | | |items IH|fields IH] using json_nested_ind;
    try (cbn [json_size]; lia).
  - change (JSON_stringify (JArr items)) with
      ("[" +:+ join "," (map JSON_stringify items) +:+ "]").
    rewrite !string_length_app. cbn [json_size].
    pose proof (list_sum_join json_size JSON_stringify items IH).
    change (String.length "[") with 1%nat. change (String.length "]") with 1%nat. lia.
  - change (JSON_stringify (JObj fields)) with
      ("{" +:+ join "," (map member fields) +:+ "}").
    rewrite !string_length_app. cbn [json_size].
    assert (Hm : Forall (fun kv => (json_size (snd kv) <= String.length (member kv))%nat)
                   fields).
    { eapply Forall_impl; [exact IH|]. intros kv Hkv. cbn beta in Hkv. unfold member.
      rewrite !string_length_app. lia. }
    pose proof (list_sum_join (fun kv => json_size (snd kv)) member fields Hm).
    change (String.length "{") with 1%nat. change (String.length "}") with 1%nat. lia.
Qed.

(** [JSON.parse(JSON.stringify(v))] is [v] for every serializable value. *)
Theorem JSON_parse_JSON_stringify (v : json) :
  serializable v = true -> JSON_parse (JSON_stringify v) = Ok v.
Proof.
  intros Hs. unfold JSON_parse.
  pose proof (json_size_le v) as Hsize.
  rewrite <- (string_app_nil_r (JSON_stringify v)) at 2.
  rewrite (parse_value_stringify v Hs) by (reflexivity || lia).
  reflexivity.
Qed.

Lemma JSON_parse_packageData (iv tag encrypted signature : string) :
  JSON_parse (JSON_stringify (QrSecurityService.packageData iv tag encrypted signature)) =
  Ok (QrSecurityService.packageData iv tag encrypted signature).
Proof. apply JSON_parse_JSON_stringify. vm_compute. reflexivity. Qed.

(** *** QrSecurityService *)

Lemma toString_utf8_Buffer_from_utf8 (s : string) :
  toString_utf8 (Buffer_from_utf8 s) = s.
Proof. apply string_of_list_byte_of_string. Qed.

Lemma obj_get_set_eq (k : string) (v : json) (fields : list (string * json)) :
  obj_get k (obj_set k v fields) = Some v.
Proof.
  induction fields as [|[k' v'] rest IH]; cbn [obj_set obj_get].
  - now rewrite String.eqb_refl.
  - destruct (String.eqb k k') eqn:E; cbn [obj_get]; rewrite ?String.eqb_refl, ?E; auto.
Qed.

Lemma obj_get_set_ne (k k' : string) (v : json) (fields : list (string * json)) :
  k <> k' -> obj_get k (obj_set k' v fields) = obj_get k fields.
Proof.
  intros Hne. induction fields as [|[k0 v0] rest IH]; cbn [obj_set obj_get].
  - destruct (String.eqb_spec k k'); [contradiction | reflexivity].
  - destruct (String.eqb_spec k' k0) as [->|]; cbn [obj_get].
    + destruct (String.eqb_spec k k0); [contradiction | reflexivity].
    + destruct (String.eqb k k0); [reflexivity | exact IH].
Qed.

Lemma setAuthTag_16 (tag : Buffer) : length tag = 16%nat -> setAuthTag tag = Ok tt.
Proof. unfold setAuthTag. now intros ->. Qed.

(** Setting a property keeps an object serializable. *)
Lemma obj_set_keys (k : string) (v : json) (fields : list (string * json)) :
  map fst (obj_set k v fields) =
  if bool_decide (k ∈ map fst fields) then map fst fields else map fst fields ++ [k].
Proof.
  induction fields as [|[k' v'] fields IH]; cbn [obj_set map fst].
  - now rewrite bool_decide_eq_false_2 by apply not_elem_of_nil.
  - destruct (String.eqb_spec k k') as [->|Hne].
    + now rewrite bool_decide_eq_true_2 by apply list_elem_of_here.
    + cbn [map app fst]. rewrite IH.
      destruct (decide (k ∈ map fst fields)) as [Hin|Hin].
      * rewrite !bool_decide_eq_true_2;
          [reflexivity | now apply list_elem_of_further | exact Hin].
      * rewrite !bool_decide_eq_false_2; [reflexivity | | exact Hin].
        intros [E|E]%elem_of_cons; [now apply Hne | now apply Hin].
Qed.

Lemma forallb_obj_set (p : json -> bool) (k : string) (v : json)
    (fields : list (string * json)) :
  forallb (fun kv => p (snd kv)) fields = true -> p v = true ->
  forallb (fun kv => p (snd kv)) (obj_set k v fields) = true.
Proof.
  intros Hf Hv. induction fields as [|[k' v'] fields IH]; cbn [obj_set forallb snd].
  - now rewrite Hv.
  - cbn [forallb snd] in Hf. apply andb_true_iff in Hf as [Hv' Hf].
    destruct (String.eqb k k'); cbn [forallb snd].
    + now rewrite Hv, Hf.
    + now rewrite Hv', IH.
Qed.

Lemma serializable_obj_set (k : string) (v : json) (fields : list (string * json)) :
  serializable (JObj fields) = true -> serializable v = true ->
  serializable (JObj (obj_set k v fields)) = true.
Proof.
  cbn [serializable]. intros [Hf Hk]%andb_true_iff Hv.
  apply andb_true_iff. split; [now apply forallb_obj_set|].
  apply bool_decide_eq_true_1 in Hk. apply bool_decide_eq_true_2.
  rewrite obj_set_keys. destruct (decide (k ∈ map fst fields)) as [Hin|Hin].
  - now rewrite bool_decide_eq_true_2.
  - rewrite bool_decide_eq_false_2 by exact Hin.
    apply NoDup_app. split; [exact Hk|]. split; [|apply NoDup_singleton].
    intros x Hx [->|E]%elem_of_cons; [now apply Hin | now apply not_elem_of_nil in E].
Qed.

Lemma serializable_augment (data : list (string * json)) (nonce : string) (now : Z) :
  serializable (JObj data) = true ->
  serializable (JObj (QrSecurityService.augment data nonce now)) = true.
Proof.
  intros Hdata. unfold QrSecurityService.augment.
  apply serializable_obj_set; [|reflexivity].
  apply serializable_obj_set; [exact Hdata | reflexivity].
Qed.

Section QrFacts.
Context `{Crypto} `{BufferCoercion}.

(** What the [try] block does on the wire form of a package of four strings. *)
Lemma verifyToken_body_package env kms resourceType (iv tag encrypted signature : string) :
  getKMS env = Ok kms ->
  QrSecurityService.verifyToken_body env
    (serialize (QrSecurityService.packageData iv tag encrypted signature)) resourceType =
  (let masterKey := KeyManagementService.getMasterKey kms in
   let key := QrSecurityService.tokenKey masterKey resourceType in
   let ivBuffer := Buffer_from_hex iv in
   let tagBuffer := Buffer_from_hex tag in
   same <- timingSafeEqual (Buffer_from_hex signature)
             (hmac_sha512 (QrSecurityService.signKey masterKey resourceType)
                (ivBuffer ++ tagBuffer ++ Buffer_from_utf8 encrypted)) ;;
   if negb same
   then Throw (mkExn Error "SECURITY_ALERT: QR Token signature is invalid or tampered")
   else
     _ <- check_key_iv key ivBuffer ;;
     _ <- setAuthTag tagBuffer ;;
     decrypted <- decipher_final key ivBuffer tagBuffer (Buffer_from_hex encrypted) ;;
     JSON_parse (toString_utf8 decrypted)).
Proof.
  intros Hkms. unfold QrSecurityService.verifyToken_body, serialize.
  rewrite Hkms. cbn [bind].
  rewrite Buffer_from_base64url_toString_base64url, toString_utf8_Buffer_from_utf8.
  rewrite JSON_parse_packageData. cbn [bind].
  unfold QrSecurityService.packageData.
  cbn [bind get_property obj_get String.eqb Ascii.eqb Bool.eqb
       QrSecurityService.Buffer_from_value QrSecurityService.as_string].
  unfold QrSecurityService.sign_package. rewrite Buffer_from_hex_toString_hex.
  reflexivity.
Qed.

(** The token [generateSecureToken] returns, in terms of the random bytes
    it draws and of the cipher's output. *)
Lemma generateSecureToken_ok env kms data resourceType g now :
  getKMS env = Ok kms ->
  let masterKey := KeyManagementService.getMasterKey kms in
  let nonce := fst (randomBytes 16 g) in
  let iv := fst (randomBytes 12 (snd (randomBytes 16 g))) in
  let payload :=
    JSON_stringify (JObj (QrSecurityService.augment data (toString_hex nonce) now)) in
  let ct := aes_256_gcm_encrypt (QrSecurityService.tokenKey masterKey resourceType) iv
              (Buffer_from_utf8 payload) in
  QrSecurityService.generateSecureToken env data resourceType g now =
  Ok (serialize (QrSecurityService.packageData (toString_hex iv) (toString_hex (snd ct))
                   (toString_hex (fst ct))
                   (QrSecurityService.sign_package
                      (QrSecurityService.signKey masterKey resourceType) iv (snd ct)
                      (toString_hex (fst ct)))),
      snd (randomBytes 12 (snd (randomBytes 16 g)))).
Proof.
  intros Hkms. cbv zeta.
  unfold QrSecurityService.generateSecureToken. rewrite Hkms. cbn [bind].
  destruct (randomBytes 16 g) as [nonce g1]. cbn [fst snd].
  unfold QrSecurityService.IV_LENGTH.
  pose proof (randomBytes_length 12 g1) as Hlen.
  destruct (randomBytes 12 g1) as [iv g2]. cbn [fst snd] in *.
  unfold cipher_aes_256_gcm, check_key_iv.
  unfold QrSecurityService.tokenKey at 1. rewrite hmac_sha256_length, Hlen.
  reflexivity.
Qed.

Lemma timingSafeEqual_true (a b : Buffer) : timingSafeEqual a b = Ok true -> a = b.
Proof.
  unfold timingSafeEqual, buffer_eqb. destruct (length a =? length b)%nat; [|discriminate].
  intros E. injection E as E. now apply bool_decide_eq_true in E.
Qed.

Lemma bind_Ok {A B} (m : Result A) (k : A -> Result B) (b : B) :
  bind m k = Ok b -> exists a, m = Ok a /\ k a = Ok b.
Proof. destruct m as [a|e]; cbn; [eauto | discriminate]. Qed.

(** A token is accepted only when its signature is the HMAC-SHA512 of its
    own decoded IV, tag and ciphertext and the ciphertext passes the GCM
    tag check; the data returned is the parse of that decryption. *)
Lemma verifyToken_accepted env kms token resourceType data :
  getKMS env = Ok kms ->
  fst (QrSecurityService.verifyToken env token resourceType) = Ok data ->
  exists parsed ivBuffer tagBuffer encrypted signatureBuffer plaintext,
    JSON_parse (toString_utf8 (Buffer_from_base64url token)) = Ok parsed /\
    QrSecurityService.Buffer_from_value (get_property "iv" parsed) = Ok ivBuffer /\
    QrSecurityService.Buffer_from_value (get_property "tag" parsed) = Ok tagBuffer /\
    get_property "encrypted" parsed = Some (JStr encrypted) /\
    QrSecurityService.Buffer_from_value (get_property "signature" parsed)
      = Ok signatureBuffer /\
    signatureBuffer =
      hmac_sha512
        (QrSecurityService.signKey (KeyManagementService.getMasterKey kms) resourceType)
        (ivBuffer ++ tagBuffer ++ Buffer_from_utf8 encrypted) /\
    aes_256_gcm_decrypt
      (QrSecurityService.tokenKey (KeyManagementService.getMasterKey kms) resourceType)
      ivBuffer tagBuffer (Buffer_from_hex encrypted) = Some plaintext /\
    JSON_parse (toString_utf8 plaintext) = Ok data.
Proof.
  intros Hkms. unfold QrSecurityService.verifyToken.
  destruct (QrSecurityService.verifyToken_body env token resourceType) as [d|e] eqn:Hbody;
    cbn [fst]; [|discriminate].
  intros E. injection E as ->.
  unfold QrSecurityService.verifyToken_body in Hbody. rewrite Hkms in Hbody.
  cbn [bind] in Hbody.
  apply bind_Ok in Hbody as (parsed & Hparsed & Hbody).
  apply bind_Ok in Hbody as (_ & _ & Hbody).
  apply bind_Ok in Hbody as (ivBuffer & Hiv & Hbody).
  apply bind_Ok in Hbody as (tagBuffer & Htag & Hbody).
  apply bind_Ok in Hbody as (encrypted & Henc & Hbody).
  apply bind_Ok in Hbody as (signatureBuffer & Hsig & Hbody).
  apply bind_Ok in Hbody as (same & Hsame & Hbody).
  destruct same; cbn [negb] in Hbody; [|discriminate].
  apply bind_Ok in Hbody as (_ & _ & Hbody).
  apply bind_Ok in Hbody as (_ & _ & Hbody).
  apply bind_Ok in Hbody as (plaintext & Hdec & Hbody).
  exists parsed, ivBuffer, tagBuffer, encrypted, signatureBuffer, plaintext.
  repeat split; try assumption.
  - unfold QrSecurityService.as_string in Henc.
    destruct (get_property "encrypted" parsed) as [[]|]; try discriminate.
    now injection Henc as ->.
  - apply timingSafeEqual_true in Hsame. rewrite Hsame.
    unfold QrSecurityService.sign_package. apply Buffer_from_hex_toString_hex.
  - unfold decipher_final in Hdec.
    destruct (aes_256_gcm_decrypt _ _ _ _); [|discriminate]. now injection Hdec as ->.
Qed.

(** Two packages whose IV, tag and signature decode to the same bytes and
    whose ciphertext is the same string are treated alike. *)
Lemma verifyToken_same_bytes env kms resourceType
    (iv tag signature iv' tag' signature' encrypted : string) :
  getKMS env = Ok kms ->
  Buffer_from_hex iv' = Buffer_from_hex iv ->
  Buffer_from_hex tag' = Buffer_from_hex tag ->
  Buffer_from_hex signature' = Buffer_from_hex signature ->
  QrSecurityService.verifyToken env
    (serialize (QrSecurityService.packageData iv' tag' encrypted signature')) resourceType =
  QrSecurityService.verifyToken env
    (serialize (QrSecurityService.packageData iv tag encrypted signature)) resourceType.
Proof.
  intros Hkms Hiv Htag Hsig. unfold QrSecurityService.verifyToken.
  rewrite !(verifyToken_body_package env kms) by exact Hkms.
  cbv zeta. now rewrite Hiv, Htag, Hsig.
Qed.

(** C4, as the code has it.  For a JSON-serializable payload object,
    [verifyToken] of the token [generateSecureToken] produced succeeds and
    returns the object [{...data, nonce, timestamp}]: every field of [data]
    other than [nonce] and [timestamp] has its value, and [nonce] and
    [timestamp] hold the generated values.  Any
    token [verifyToken] accepts carries the HMAC-SHA512 of its decoded IV,
    tag and ciphertext as its signature and returns the parse of the GCM
    decryption of that ciphertext; a variant of a package whose IV, tag and
    signature decode to the same bytes is accepted with the same result. *)
Theorem verifyToken_generateSecureToken env kms data resourceType g now :
  getKMS env = Ok kms ->
  let nonce := toString_hex (fst (randomBytes 16 g)) in
  let decoded := JObj (QrSecurityService.augment data nonce now) in
  serializable (JObj data) = true ->
  (exists token g',
     QrSecurityService.generateSecureToken env data resourceType g now = Ok (token, g') /\
     QrSecurityService.verifyToken env token resourceType = (Ok decoded, [])) /\
  (forall k, k <> "nonce" -> k <> "timestamp" -> get_property k decoded = obj_get k data) /\
  get_property "nonce" decoded = Some (JStr nonce) /\
  get_property "timestamp" decoded = Some (JNum now) /\
  (forall token' d,
     fst (QrSecurityService.verifyToken env token' resourceType) = Ok d ->
     exists parsed ivBuffer tagBuffer encrypted signatureBuffer plaintext,
       JSON_parse (toString_utf8 (Buffer_from_base64url token')) = Ok parsed /\
       QrSecurityService.Buffer_from_value (get_property "iv" parsed) = Ok ivBuffer /\
       QrSecurityService.Buffer_from_value (get_property "tag" parsed) = Ok tagBuffer /\
       get_property "encrypted" parsed = Some (JStr encrypted) /\
       QrSecurityService.Buffer_from_value (get_property "signature" parsed)
         = Ok signatureBuffer /\
       signatureBuffer =
         hmac_sha512
           (QrSecurityService.signKey (KeyManagementService.getMasterKey kms) resourceType)
           (ivBuffer ++ tagBuffer ++ Buffer_from_utf8 encrypted) /\
       aes_256_gcm_decrypt
         (QrSecurityService.tokenKey (KeyManagementService.getMasterKey kms) resourceType)
         ivBuffer tagBuffer (Buffer_from_hex encrypted) = Some plaintext /\
       JSON_parse (toString_utf8 plaintext) = Ok d) /\
  (forall iv tag signature iv' tag' signature' encrypted,
     Buffer_from_hex iv' = Buffer_from_hex iv ->
     Buffer_from_hex tag' = Buffer_from_hex tag ->
     Buffer_from_hex signature' = Buffer_from_hex signature ->
     QrSecurityService.verifyToken env
       (serialize (QrSecurityService.packageData iv' tag' encrypted signature'))
       resourceType =
     QrSecurityService.verifyToken env
       (serialize (QrSecurityService.packageData iv tag encrypted signature))
       resourceType).
Proof.
  intros Hkms nonce decoded Hdata.
  assert (Hser : JSON_parse (JSON_stringify decoded) = Ok decoded)
    by (apply JSON_parse_JSON_stringify, serializable_augment, Hdata).
  split; [|split; [|split; [|split; [|split]]]].
  - eexists _, _. split; [apply (generateSecureToken_ok env kms); exact Hkms|].
    unfold QrSecurityService.verifyToken.
    rewrite (verifyToken_body_package env kms) by exact Hkms. cbv zeta.
    set (masterKey := KeyManagementService.getMasterKey kms).
    set (iv := fst (randomBytes 12 (snd (randomBytes 16 g)))).
    set (key := QrSecurityService.tokenKey masterKey resourceType).
    fold nonce. fold decoded.
    set (ct := aes_256_gcm_encrypt key iv (Buffer_from_utf8 (JSON_stringify decoded))).
    rewrite !Buffer_from_hex_toString_hex.
    unfold QrSecurityService.sign_package.
    rewrite Buffer_from_hex_toString_hex, timingSafeEqual_same. cbn [bind negb].
    assert (Hiv : length iv = 12%nat) by apply randomBytes_length.
    assert (Hkey : length key = 32%nat) by apply hmac_sha256_length.
    unfold check_key_iv. rewrite Hkey, Hiv. cbn [Nat.eqb negb bind].
    rewrite setAuthTag_16 by apply gcm_tag_length. cbn [bind].
    unfold decipher_final, ct. rewrite gcm_decrypt_encrypt.
    + cbn [bind]. now rewrite toString_utf8_Buffer_from_utf8, Hser.
    + exact Hkey.
    + intros E. rewrite E in Hiv. discriminate.
  - intros k Hn Ht. unfold decoded, QrSecurityService.augment. cbn [get_property].
    now rewrite !obj_get_set_ne.
  - unfold decoded, QrSecurityService.augment. cbn [get_property].
    rewrite obj_get_set_ne by discriminate. apply obj_get_set_eq.
  - unfold decoded, QrSecurityService.augment. cbn [get_property]. apply obj_get_set_eq.
  - intros token' d. now apply verifyToken_accepted.
  - intros. now apply (verifyToken_same_bytes env kms).
Qed.

(** C3, as the code has it.  Every failure of [verifyToken] reaches the
    caller as the one [INVALID_QR] error.  A token that does not parse and
    a well-formed token whose signature differs from the recomputed one
    both raise it; they differ in the message written to the log only: the
    parser's message for the first, the SECURITY_ALERT message for the
    second. *)
Theorem verifyToken_failures_uniform env kms token resourceType :
  getKMS env = Ok kms ->
  (forall e, fst (QrSecurityService.verifyToken env token resourceType) = Throw e ->
             e = QrSecurityService.INVALID_QR) /\
  (forall e,
     JSON_parse (toString_utf8 (Buffer_from_base64url token)) = Throw e ->
     QrSecurityService.verifyToken env token resourceType =
       (Throw QrSecurityService.INVALID_QR,
        ["QR Verification Failed: " +:+ exn_message e])) /\
  (forall parsed iv tag encrypted signature,
     JSON_parse (toString_utf8 (Buffer_from_base64url token)) = Ok parsed ->
     get_property "iv" parsed = Some (JStr iv) ->
     get_property "tag" parsed = Some (JStr tag) ->
     get_property "encrypted" parsed = Some (JStr encrypted) ->
     get_property "signature" parsed = Some (JStr signature) ->
     length (Buffer_from_hex signature) = 64%nat ->
     Buffer_from_hex signature <>
       hmac_sha512
         (QrSecurityService.signKey (KeyManagementService.getMasterKey kms) resourceType)
         (Buffer_from_hex iv ++ Buffer_from_hex tag ++ Buffer_from_utf8 encrypted) ->
     QrSecurityService.verifyToken env token resourceType =
       (Throw QrSecurityService.INVALID_QR,
        ["QR Verification Failed: SECURITY_ALERT: QR Token signature is invalid or tampered"])).
Proof.
  intros Hkms. split; [|split].
  - intros e. unfold QrSecurityService.verifyToken.
    destruct (QrSecurityService.verifyToken_body env token resourceType);
      cbn [fst]; [discriminate|]. now intros [= <-].
  - intros e Hparse. unfold QrSecurityService.verifyToken, QrSecurityService.verifyToken_body.
    rewrite Hkms. cbn [bind]. rewrite Hparse. reflexivity.
  - intros parsed iv tag encrypted signature Hparse Hiv Htag Henc Hsig Hlen Hne.
    unfold QrSecurityService.verifyToken, QrSecurityService.verifyToken_body.
    rewrite Hkms. cbn [bind]. rewrite Hparse. cbn [bind].
    assert (Hnull : parsed <> JNull) by (intros ->; discriminate).
    destruct parsed; try contradiction; cbn [bind];
      rewrite Hiv, Htag, Henc, Hsig;
      cbn [QrSecurityService.Buffer_from_value QrSecurityService.as_string bind];
      unfold QrSecurityService.sign_package; rewrite Buffer_from_hex_toString_hex;
      unfold timingSafeEqual; rewrite Hlen, hmac_sha512_length; cbn [Nat.eqb bind];
      unfold buffer_eqb; rewrite bool_decide_eq_false_2 by exact Hne; reflexivity.
Qed.

End QrFacts.

(** *** Time spans *)

Lemma of_uint_acc_horner (d : Decimal.uint) : forall acc,
  Zpos (Pos.of_uint_acc d acc) = horner d (Zpos acc).
Proof.
  induction d; intros acc; cbn [Pos.of_uint_acc horner]; [reflexivity|..];
    rewrite IHd; f_equal; lia.
Qed.

Lemma of_uint_horner (d : Decimal.uint) : Z.of_N (Pos.of_uint d) = horner d 0.
Proof.
  induction d; cbn [Pos.of_uint horner]; [reflexivity|exact IHd|..];
    cbn [Z.of_N]; rewrite of_uint_acc_horner; reflexivity.
Qed.

Lemma horner_to_uint (p : positive) : horner (Pos.to_uint p) 0 = Zpos p.
Proof.
  rewrite <- of_uint_horner, DecimalPos.Unsigned.of_to. reflexivity.
Qed.

Lemma digits_prefix_uint (d : Decimal.uint) (rest : string) :
  digits_prefix None rest = None ->
  (forall acc, digits_prefix (Some acc) rest = Some acc) ->
  forall acc,
    digits_prefix acc (NilEmpty.string_of_uint d +:+ rest) =
    match d with
    | Decimal.Nil => acc
    | _ => Some (horner d (default 0%Z acc))
    end.
Proof.
  intros Hnone Hsome. induction d; intros acc;
    cbn [NilEmpty.string_of_uint];
    [destruct acc as [a|]; [apply Hsome | apply Hnone]|..];
    change (String ?c ?s +:+ rest) with (String c (s +:+ rest));
    cbn [digits_prefix];
    match goal with |- context [is_digit ?c] => change (is_digit c) with true end;
    cbv iota; rewrite IHd; destruct d; reflexivity.
Qed.

Lemma digits_prefix_digits_of_Z (z : Z) (rest : string) :
  digits_prefix None rest = None ->
  (forall acc, digits_prefix (Some acc) rest = Some acc) ->
  digits_prefix None (digits_of_Z z +:+ rest) = Some (Z.abs z).
Proof.
  intros Hnone Hsome. destruct z as [|p|p]; cbn [digits_of_Z Z.abs].
  - change ("0" +:+ rest) with (String "0" rest). cbn [digits_prefix].
    change (is_digit "0") with true. cbv iota. apply Hsome.
  - rewrite digits_prefix_uint by assumption.
    pose proof (DecimalPos.Unsigned.to_uint_nonnil p) as Hnil.
    pose proof (horner_to_uint p) as Hh.
    destruct (Pos.to_uint p); [contradiction|..]; cbn [default from_option]; unfold id;
      now rewrite Hh.
  - rewrite digits_prefix_uint by assumption.
    pose proof (DecimalPos.Unsigned.to_uint_nonnil p) as Hnil.
    pose proof (horner_to_uint p) as Hh.
    destruct (Pos.to_uint p); [contradiction|..]; cbn [default from_option]; unfold id;
      now rewrite Hh.
Qed.

(** [ms] of a whole number of minutes. *)
Lemma ms_minutes (m : Z) : jwt.ms (string_of_Z m +:+ "m") = Some (m * 60000)%Z.
Proof.
  unfold jwt.ms.
  assert (Hshape :
    (match string_of_Z m +:+ "m" with String "-" _ => true | _ => false end)
      = (m <? 0)%Z /\
    (match string_of_Z m +:+ "m" with String "-" rest => rest | _ => string_of_Z m +:+ "m" end)
      = digits_of_Z m +:+ "m").
  { rewrite string_of_Z_digits. destruct (m <? 0)%Z; [split; reflexivity|].
    destruct (digits_of_Z_head m) as (c & tail & -> & Hc).
    destruct c as [[] [] [] [] [] [] [] []]; try discriminate Hc; split; reflexivity. }
  destruct Hshape as [-> ->].
  rewrite span_app by (apply digits_of_Z_digits || reflexivity).
  pose proof (digits_prefix_digits_of_Z m "" eq_refl (fun _ => eq_refl)) as Hd.
  rewrite string_app_nil_r in Hd. rewrite Hd.
  cbn [mbind option_bind]. change (jwt.unit_ms (jwt.skip_blanks "m")) with (Some 60000%Z).
  cbn [mbind option_bind]. f_equal. destruct (Z.ltb_spec m 0); lia.
Qed.

Lemma timespan_minutes (m iat : Z) :
  jwt.timespan (string_of_Z m +:+ "m") iat = Some (iat + m * 60)%Z.
Proof.
  unfold jwt.timespan. rewrite ms_minutes. cbn [mbind option_bind].
  f_equal. f_equal. symmetry. apply Z.div_unique_exact; lia.
Qed.

(** *** jsonwebtoken *)

Lemma is_base64url_char_not_dot (c : ascii) :
  jwt.is_base64url_char c = true -> not_char "." c = true.
Proof.
  unfold not_char. intros Hc.
  destruct (Ascii.eqb_spec c ".") as [->|]; [discriminate | reflexivity].
Qed.

Lemma toString_base64url_no_dot (b : Buffer) :
  string_forallb (not_char ".") (toString_base64url b) = true.
Proof.
  eapply string_forallb_impl; [apply is_base64url_char_not_dot|].
  apply toString_base64url_chars.
Qed.

Lemma toString_base64url_truthy (b : Buffer) :
  (0 < length b)%nat -> truthy (Some (toString_base64url b)) = true.
Proof. destruct b as [|x [|y [|z l]]]; cbn [length]; [lia | reflexivity ..]. Qed.

Lemma encode_part_header :
  jwt.encode_part jwt.header_HS256 = "eyJhbGciOiJIUzI1NiIsInR5cCI6IkpXVCJ9".
Proof. vm_compute. reflexivity. Qed.

Lemma decode_part_header :
  jwt.decode_part "eyJhbGciOiJIUzI1NiIsInR5cCI6IkpXVCJ9" = Ok jwt.header_HS256.
Proof. vm_compute. reflexivity. Qed.

Lemma JSON_stringify_JObj_length (fields : list (string * json)) :
  (0 < String.length (JSON_stringify (JObj fields)))%nat.
Proof.
  change (JSON_stringify (JObj fields)) with
    (String "{" (join "," (map (fun kv => quote (fst kv) +:+ ":" +:+ JSON_stringify (snd kv))
                               fields) +:+ "}")).
  cbn [String.length]. lia.
Qed.

Section JwtFacts.
Context `{Crypto}.

Lemma decode_part_encode_part (v : json) :
  jwt.decode_part (jwt.encode_part v) = JSON_parse (JSON_stringify v).
Proof.
  unfold jwt.decode_part, jwt.encode_part.
  now rewrite Buffer_from_base64url_toString_base64url, toString_utf8_Buffer_from_utf8.
Qed.

(** [jwt.verify] on a token [jwt.sign] laid out: the structure and the
    signature are accepted, what remains are the checks of the claims. *)
Lemma verify_signed (secret : string) (claims : list (string * json))
    (options : jwt.VerifyOptions) (now : Z) :
  truthy (Some secret) = true ->
  serializable (JObj claims) = true ->
  "HS256" ∈ jwt.algorithms options ->
  let signing_input :=
    jwt.encode_part jwt.header_HS256 +:+ "." +:+ jwt.encode_part (JObj claims) in
  jwt.verify (signing_input +:+ "." +:+ jwt.HS256 secret signing_input)
             (Some secret) options now =
  jwt.verify_claims (JObj claims) options (now / 1000).
Proof.
  intros Hsecret Hser Halg signing_input.
  set (p1 := jwt.encode_part (JObj claims)) in *.
  set (sig := jwt.HS256 secret signing_input).
  assert (Htoken : signing_input +:+ "." +:+ sig =
                   jwt.encode_part jwt.header_HS256 +:+
                   String "." (p1 +:+ String "." sig)).
  { unfold signing_input. rewrite string_app_assoc. reflexivity. }
  assert (Hp1 : string_forallb jwt.is_base64url_char p1 = true)
    by apply toString_base64url_chars.
  assert (Hsig : string_forallb jwt.is_base64url_char sig = true)
    by apply toString_base64url_chars.
  assert (Hp1t : truthy (Some p1) = true).
  { apply toString_base64url_truthy. rewrite Buffer_from_utf8_length.
    apply JSON_stringify_JObj_length. }
  assert (Hsigt : truthy (Some sig) = true).
  { apply toString_base64url_truthy. rewrite hmac_sha256_length. lia. }
  unfold jwt.verify. rewrite Htoken.
  rewrite split_on_app by apply toString_base64url_no_dot.
  rewrite split_on_app by apply toString_base64url_no_dot.
  rewrite split_on_none by apply toString_base64url_no_dot.
  rewrite <- Htoken.
  assert (Htt : truthy (Some (signing_input +:+ "." +:+ sig)) = true).
  { rewrite Htoken, encode_part_header. reflexivity. }
  rewrite Htt, Hp1, Hsig, Hp1t. cbn [negb].
  assert (H1 : truthy (Some (jwt.encode_part jwt.header_HS256)) = true)
    by (rewrite encode_part_header; reflexivity).
  assert (H2 : string_forallb jwt.is_base64url_char (jwt.encode_part jwt.header_HS256)
               = true) by apply toString_base64url_chars.
  assert (H3 : jwt.decode_part (jwt.encode_part jwt.header_HS256) = Ok jwt.header_HS256)
    by (rewrite encode_part_header; apply decode_part_header).
  rewrite H1, H2, H3. cbn [andb negb].
  change (jwt.json_truthy jwt.header_HS256) with true. cbn [negb].
  unfold jwt.decode_payload. unfold p1 at 1.
  rewrite decode_part_encode_part, (JSON_parse_JSON_stringify _ Hser).
  cbn [bind]. rewrite Hsigt, Hsecret. cbn [negb andb].
  change (get_property "alg" jwt.header_HS256) with (Some (JStr "HS256")).
  cbn iota. rewrite bool_decide_eq_true_2 by exact Halg.
  change ("HS256" =? "HS256")%string with true. cbn [negb].
  change (default "" (Some secret)) with secret.
  fold signing_input. fold sig.
  now rewrite String.eqb_refl.
Qed.

End JwtFacts.

(** *** AuthService: access tokens *)

Section AccessTokenFacts.
Context `{Crypto}.

Lemma generateAccessToken_inv svc payload now token :
  AuthService.generateAccessToken svc payload now = Ok token ->
  exists secret exp,
    AuthService.JWT_ACCESS_SECRET svc = Some secret /\
    truthy (Some secret) = true /\
    jwt.timespan (AuthService.JWT_ACCESS_EXPIRY svc) (now / 1000) = Some exp /\
    token =
      (jwt.encode_part jwt.header_HS256 +:+ "." +:+
       jwt.encode_part (JObj (access_claims payload (now / 1000) exp))) +:+ "." +:+
      jwt.HS256 secret
        (jwt.encode_part jwt.header_HS256 +:+ "." +:+
         jwt.encode_part (JObj (access_claims payload (now / 1000) exp))).
Proof.
  unfold AuthService.generateAccessToken, jwt.sign.
  destruct (AuthService.JWT_ACCESS_SECRET svc) as [secret|]; [|discriminate].
  destruct (truthy (Some secret)) eqn:Hs; cbn [negb]; [|discriminate].
  cbn [obj_get String.eqb Ascii.eqb Bool.eqb bind obj_set jwt.expiresIn
       jwt.sign_audience jwt.sign_issuer jwt.option_to_payload].
  destruct (jwt.timespan (AuthService.JWT_ACCESS_EXPIRY svc) (now / 1000)) as [exp|];
    [|discriminate].
  cbn [bind obj_set String.eqb Ascii.eqb Bool.eqb].
  intros E. injection E as <-. exists secret, exp.
  split; [reflexivity | split; [exact Hs | split; reflexivity]].
Qed.

Lemma generateAccessToken_ok svc payload now secret exp :
  AuthService.JWT_ACCESS_SECRET svc = Some secret ->
  truthy (Some secret) = true ->
  jwt.timespan (AuthService.JWT_ACCESS_EXPIRY svc) (now / 1000) = Some exp ->
  AuthService.generateAccessToken svc payload now =
  Ok ((jwt.encode_part jwt.header_HS256 +:+ "." +:+
       jwt.encode_part (JObj (access_claims payload (now / 1000) exp))) +:+ "." +:+
      jwt.HS256 secret
        (jwt.encode_part jwt.header_HS256 +:+ "." +:+
         jwt.encode_part (JObj (access_claims payload (now / 1000) exp)))).
Proof.
  intros Hsecret Htruthy Hexp.
  unfold AuthService.generateAccessToken, jwt.sign. rewrite Hsecret, Htruthy.
  cbn [negb obj_get String.eqb Ascii.eqb Bool.eqb bind obj_set jwt.expiresIn
       jwt.sign_audience jwt.sign_issuer jwt.option_to_payload].
  rewrite Hexp. reflexivity.
Qed.

(** The default expiry, [15m], is 900 seconds. *)
Lemma timespan_15m (iat : Z) : jwt.timespan "15m" iat = Some (iat + 900)%Z.
Proof. reflexivity. Qed.

(** C1, on the code: with a signing secret and an expiry that [ms] reads,
    [generateAccessToken] issues a token for every payload, and
    [verifyAccessToken] never accepts it.  The token carries no [aud] (and
    no [iss]) claim, and the verifier requires [aud = pharmalync-api]:
    before its expiry the token is refused as "Invalid token", from then
    on as "Token expired". *)
Theorem verifyAccessToken_rejects_issued_token svc payload now secret exp :
  AuthService.JWT_ACCESS_SECRET svc = Some secret ->
  truthy (Some secret) = true ->
  jwt.timespan (AuthService.JWT_ACCESS_EXPIRY svc) (now / 1000) = Some exp ->
  exists token,
    AuthService.generateAccessToken svc payload now = Ok token /\
    forall now',
      AuthService.verifyAccessToken svc token now' =
        Throw (mkExn Error (if (now' / 1000 <? exp)%Z then "Invalid token"
                            else "Token expired")).
Proof.
  intros Hsecret Htruthy Hexp.
  eexists. split;
    [exact (generateAccessToken_ok svc payload now secret exp Hsecret Htruthy Hexp)|].
  intros now'. unfold AuthService.verifyAccessToken. rewrite Hsecret.
  rewrite verify_signed;
    [|exact Htruthy|vm_compute; reflexivity|
     unfold AuthService.access_verify_options; cbn; apply list_elem_of_here].
  unfold jwt.verify_claims, access_claims.
  cbn [jwt.claim get_property obj_get String.eqb Ascii.eqb Bool.eqb bind jwt.check_date].
  destruct (now' / 1000 <? exp)%Z; reflexivity.
Qed.

End AccessTokenFacts.

(** *** ConsentService *)

Section ConsentFacts.
Context `{Crypto}.

(** After [revokeConsent] the row exists and is revoked. *)
Lemma revokeConsent_revoked (db db' : gmap string ConsentService.Consent) consentId :
  ConsentService.revokeConsent db consentId = Ok db' ->
  exists consent,
    db' !! consentId = Some consent /\ ConsentService.revoked consent = true.
Proof.
  unfold ConsentService.revokeConsent, ConsentService.prisma_consent_update_revoked.
  destruct (db !! consentId) as [c|]; [|discriminate].
  intros E. injection E as <-. eexists. rewrite lookup_insert_eq. split; reflexivity.
Qed.

Lemma generateConsentToken_inv svc (db db1 : gmap string ConsentService.Consent)
    newId patient grantee granted expiryMinutes now token cid :
  ConsentService.generateConsentToken svc db newId patient grantee granted
    expiryMinutes now = Ok ((token, cid), db1) ->
  let expires := (now + expiryMinutes * 60 * 1000)%Z in
  exists secret exp,
    ConsentService.CONSENT_TOKEN_SECRET svc = Some secret /\
    truthy (Some secret) = true /\
    jwt.timespan (string_of_Z expiryMinutes +:+ "m") (now / 1000) = Some exp /\
    cid = newId /\
    db1 = <[newId := consent_record newId patient grantee granted expires]> db /\
    let claims := consent_claims newId patient grantee granted expires (now / 1000) exp in
    token =
      (jwt.encode_part jwt.header_HS256 +:+ "." +:+ jwt.encode_part (JObj claims)) +:+ "." +:+
      jwt.HS256 secret
        (jwt.encode_part jwt.header_HS256 +:+ "." +:+ jwt.encode_part (JObj claims)).
Proof.
  unfold ConsentService.generateConsentToken, ConsentService.prisma_consent_create.
  destruct (db !! newId); [discriminate|]. cbn [bind fst snd ConsentService.id].
  unfold jwt.sign.
  destruct (ConsentService.CONSENT_TOKEN_SECRET svc) as [secret|]; [|discriminate].
  destruct (truthy (Some secret)) eqn:Hs; cbn [negb]; [|discriminate].
  cbn [obj_get String.eqb Ascii.eqb Bool.eqb bind obj_set jwt.expiresIn
       jwt.sign_audience jwt.sign_issuer jwt.option_to_payload
       ConsentService.sign_options].
  destruct (jwt.timespan (string_of_Z expiryMinutes +:+ "m") (now / 1000)) as [exp|];
    [|discriminate].
  cbn [bind obj_set obj_get String.eqb Ascii.eqb Bool.eqb jwt.option_to_payload].
  intros E. injection E as <- <- <-. exists secret, exp.
  repeat (split; [reflexivity || exact Hs|]). reflexivity.
Qed.

Lemma generateConsentToken_ok svc (db : gmap string ConsentService.Consent)
    newId patient grantee granted expiryMinutes now secret :
  ConsentService.CONSENT_TOKEN_SECRET svc = Some secret ->
  truthy (Some secret) = true ->
  db !! newId = None ->
  let expires := (now + expiryMinutes * 60 * 1000)%Z in
  let claims := consent_claims newId patient grantee granted expires (now / 1000)
                  (now / 1000 + expiryMinutes * 60) in
  ConsentService.generateConsentToken svc db newId patient grantee granted
    expiryMinutes now =
  Ok (((jwt.encode_part jwt.header_HS256 +:+ "." +:+ jwt.encode_part (JObj claims))
       +:+ "." +:+
       jwt.HS256 secret
         (jwt.encode_part jwt.header_HS256 +:+ "." +:+ jwt.encode_part (JObj claims)),
       newId),
      <[newId := consent_record newId patient grantee granted expires]> db).
Proof.
  intros Hsecret Htruthy Hfresh expires claims.
  unfold ConsentService.generateConsentToken, ConsentService.prisma_consent_create.
  rewrite Hfresh. cbn [bind fst snd ConsentService.id].
  unfold jwt.sign. rewrite Hsecret, Htruthy.
  cbn [negb obj_get String.eqb Ascii.eqb Bool.eqb bind obj_set jwt.expiresIn
       jwt.sign_audience jwt.sign_issuer jwt.option_to_payload
       ConsentService.sign_options].
  rewrite timespan_minutes. reflexivity.
Qed.

Lemma serializable_scopes (granted : list ConsentService.ConsentScope) :
  forallb serializable (map (fun s => JStr (ConsentService.scope_name s)) granted) = true.
Proof. induction granted as [|s granted IH]; [reflexivity | exact IH]. Qed.

Lemma serializable_consent_claims consentId patient grantee granted expires iat exp :
  serializable
    (JObj (consent_claims consentId patient grantee granted expires iat exp)) = true.
Proof.
  unfold consent_claims. cbn [serializable forallb snd map fst].
  rewrite serializable_scopes. vm_compute. reflexivity.
Qed.

(** [jwt.verify] accepts the token of a grant until its [exp]. *)
Lemma verify_generateConsentToken svc (db db1 : gmap string ConsentService.Consent)
    newId patient grantee granted expiryMinutes now token cid now' :
  ConsentService.generateConsentToken svc db newId patient grantee granted
    expiryMinutes now = Ok ((token, cid), db1) ->
  exists exp,
    jwt.timespan (string_of_Z expiryMinutes +:+ "m") (now / 1000) = Some exp /\
    jwt.verify token (ConsentService.CONSENT_TOKEN_SECRET svc)
      ConsentService.verify_options now' =
    if (now' / 1000 <? exp)%Z
    then Ok (JObj (consent_claims newId patient grantee granted
                     (now + expiryMinutes * 60 * 1000) (now / 1000) exp))
    else Throw (mkExn TokenExpiredError "jwt expired").
Proof.
  intros Hgen.
  destruct (generateConsentToken_inv _ _ _ _ _ _ _ _ _ _ _ Hgen)
    as (secret & exp & Hsecret & Htruthy & Hexp & _ & _ & ->).
  exists exp. split; [exact Hexp|]. rewrite Hsecret.
  rewrite verify_signed;
    [|exact Htruthy|apply serializable_consent_claims|
     unfold ConsentService.verify_options; cbn; apply list_elem_of_here].
  unfold jwt.verify_claims, consent_claims.
  cbn [jwt.claim get_property obj_get String.eqb Ascii.eqb Bool.eqb bind jwt.check_date].
  destruct (now' / 1000 <? exp)%Z; reflexivity.
Qed.

(** The life of a grant: its token is accepted while the token and the
    grant are current and the required scopes were granted; once the grant
    is revoked the same call is refused as revoked. *)
Lemma verifyConsentToken_generateConsentToken
    svc (db db1 : gmap string ConsentService.Consent)
    newId patient grantee granted expiryMinutes now token cid requiredScopes now' :
  ConsentService.generateConsentToken svc db newId patient grantee granted
    expiryMinutes now = Ok ((token, cid), db1) ->
  exists exp,
    jwt.timespan (string_of_Z expiryMinutes +:+ "m") (now / 1000) = Some exp /\
    ((now' / 1000 < exp)%Z ->
     (now' <= now + expiryMinutes * 60 * 1000)%Z ->
     requiredScopes ⊆ granted ->
     ConsentService.verifyConsentToken svc db1 token requiredScopes now' =
       {| ConsentService.valid := true;
          ConsentService.v_consentId := Some cid;
          ConsentService.v_patientId := Some patient;
          ConsentService.v_grantedTo := Some grantee;
          ConsentService.v_scopes := Some granted;
          ConsentService.error := None |}) /\
    (forall db2,
       (now' / 1000 < exp)%Z ->
       ConsentService.revokeConsent db1 cid = Ok db2 ->
       ConsentService.verifyConsentToken svc db2 token requiredScopes now' =
         ConsentService.invalid "Consent has been revoked").
Proof.
  intros Hgen.
  destruct (verify_generateConsentToken _ _ _ _ _ _ _ _ _ _ _ now' Hgen)
    as (exp & Hexp & Hverify).
  destruct (generateConsentToken_inv _ _ _ _ _ _ _ _ _ _ _ Hgen)
    as (_ & _ & _ & _ & _ & -> & -> & _).
  exists exp. split; [exact Hexp|]. split.
  - intros Hnow Hexpires Hscopes. apply Z.ltb_lt in Hnow. rewrite Hnow in Hverify.
    unfold ConsentService.verifyConsentToken. rewrite Hverify. cbn [bind].
    change (get_property "consentId" (JObj (consent_claims ?a ?b ?c ?d ?e ?f ?g)))
      with (Some (JStr a)).
    cbn [ConsentService.prisma_consent_findUnique bind].
    rewrite lookup_insert_eq.
    cbn [consent_record ConsentService.revoked ConsentService.expiresAt
         ConsentService.scopes
         ConsentService.id ConsentService.patientId ConsentService.grantedTo].
    rewrite (proj2 (Z.ltb_ge _ _)) by lia.
    assert (Hall : forallb (fun scope => bool_decide (scope ∈ granted)) requiredScopes
                   = true).
    { apply forallb_forall. intros s Hs. apply bool_decide_eq_true_2.
      apply Hscopes. now apply list_elem_of_In. }
    now rewrite Hall.
  - intros db2 Hnow Hrevoke. apply Z.ltb_lt in Hnow. rewrite Hnow in Hverify.
    destruct (revokeConsent_revoked _ _ _ Hrevoke) as (consent & Hrow & Hrev).
    unfold ConsentService.verifyConsentToken. rewrite Hverify. cbn [bind].
    change (get_property "consentId" (JObj (consent_claims ?a ?b ?c ?d ?e ?f ?g)))
      with (Some (JStr a)).
    cbn [ConsentService.prisma_consent_findUnique bind].
    now rewrite Hrow, Hrev.
Qed.

(** C2. After [revokeConsent] has set [revoked = true] for a grant, a token
    for that grant whose signature, issuer, audience and expiry
    [jwt.verify] accepts is refused with "Consent has been revoked":
    verification reads the persisted grant, not only the token's claims. *)
Theorem verifyConsentToken_after_revoke
    svc (db db' : gmap string ConsentService.Consent) consentId token decoded
    requiredScopes now :
  ConsentService.revokeConsent db consentId = Ok db' ->
  jwt.verify token (ConsentService.CONSENT_TOKEN_SECRET svc)
    ConsentService.verify_options now = Ok decoded ->
  get_property "consentId" decoded = Some (JStr consentId) ->
  ConsentService.verifyConsentToken svc db' token requiredScopes now =
    ConsentService.invalid "Consent has been revoked".
Proof.
  intros Hrevoke Hverify Hid.
  destruct (revokeConsent_revoked db db' consentId Hrevoke) as (consent & Hrow & Hrev).
  unfold ConsentService.verifyConsentToken. rewrite Hverify. cbn [bind].
  rewrite Hid. cbn [ConsentService.prisma_consent_findUnique bind].
  now rewrite Hrow, Hrev.
Qed.

End ConsentFacts.

(** *** AuditService *)

Section AuditFacts.
Context `{Crypto}.

Lemma hashAuditData_length d : String.length (AuditService.hashAuditData d) = 64%nat.
Proof.
  unfold AuditService.hashAuditData. now rewrite toString_hex_length, sha256_length.
Qed.

Lemma hashAuditData_not_empty d : (AuditService.hashAuditData d =? "")%string = false.
Proof.
  pose proof (hashAuditData_length d) as Hl.
  destruct (AuditService.hashAuditData d); [discriminate | reflexivity].
Qed.

(** [BlockchainService.verifyAudit] never raises: an unreachable ledger is
    reported as the empty hash. *)
Lemma verifyAudit_unreachable bc auditId :
  ledger_unreachable bc auditId -> BlockchainService.verifyAudit bc auditId = Ok "".
Proof.
  unfold BlockchainService.verifyAudit.
  intros [-> | (contract & e & -> & ->)]; reflexivity.
Qed.

Lemma verifyAudit_never_throws bc auditId :
  exists h, BlockchainService.verifyAudit bc auditId = Ok h.
Proof.
  unfold BlockchainService.verifyAudit.
  destruct (BlockchainService.pharmalyncAudit bc) as [contract|]; [|eauto].
  destruct (BlockchainService.contract_verifyAudit contract auditId); cbn; eauto.
Qed.

(** C6, on the code: for an entry that carries a ledger reference, an
    unreachable ledger does not give an unreachability error: the result
    is the hash-mismatch (tampering) result, with the empty string as the
    ledger's hash.  The "Blockchain verification failed" result is never
    produced. *)
Theorem verifyAuditIntegrity_unreachable_is_mismatch
    svc (db : gmap string AuditService.AuditLog) auditId row txHash :
  AuditService.getAuditLog db auditId = Some row ->
  AuditService.blockchainTxHash row = Some txHash ->
  truthy (Some txHash) = true ->
  ledger_unreachable (AuditService.blockchainService svc) auditId ->
  AuditService.verifyAuditIntegrity svc db auditId =
    {| AuditService.valid := false;
       AuditService.localHash := AuditService.hashAuditData (audit_data_of row);
       AuditService.blockchainHash := Some "";
       AuditService.error := Some "Hash mismatch - data may be tampered" |}.
Proof.
  intros Hrow Htx Htruthy Hunreachable.
  unfold AuditService.verifyAuditIntegrity. rewrite Hrow, Htx, Htruthy. cbn [negb].
  rewrite (verifyAudit_unreachable _ _ Hunreachable).
  fold (audit_data_of row). now rewrite hashAuditData_not_empty.
Qed.

(** An entry without a ledger reference: an informational, valid result
    with the local hash. *)
Lemma verifyAuditIntegrity_not_anchored
    svc (db : gmap string AuditService.AuditLog) auditId row :
  AuditService.getAuditLog db auditId = Some row ->
  truthy (AuditService.blockchainTxHash row) = false ->
  AuditService.verifyAuditIntegrity svc db auditId =
    {| AuditService.valid := true;
       AuditService.localHash := AuditService.hashAuditData (audit_data_of row);
       AuditService.blockchainHash := None;
       AuditService.error := Some "Not logged to blockchain" |}.
Proof.
  intros Hrow Htx. unfold AuditService.verifyAuditIntegrity. now rewrite Hrow, Htx.
Qed.

(** C7. For a critical action and a fresh row id, [logAudit] creates the
    tier-1 row and returns its id, having only started the ledger call.
    The row is retrievable at once; it is still there, with the same
    contents, once the detached call has ended, whatever the ledger did;
    and when the ledger call failed the table is unchanged and
    [verifyAuditIntegrity] reports the entry as valid, "Not logged to
    blockchain", with its local hash. *)
Theorem logAudit_tier1_independent_of_ledger
    svc (db : gmap string AuditService.AuditLog) newId params now :
  db !! newId = None ->
  AuditService.isCriticalAction (AuditService.p_action params) = true ->
  exists db1 task,
    AuditService.logAudit svc db newId params now = Ok (newId, db1, Some task) /\
    AuditService.getAuditLog db1 newId = Some (audit_row newId params now) /\
    (exists row',
       AuditService.getAuditLog (fst (AuditService.run_detached svc db1 task)) newId
         = Some row' /\
       audit_data_of row' = audit_data_of_params params now) /\
    (forall e,
       BlockchainService.logAuditToBlockchain (AuditService.blockchainService svc) newId
         (AuditService.p_action params)
         (AuditService.hashAuditData (audit_data_of_params params now)) now = Throw e ->
       fst (AuditService.run_detached svc db1 task) = db1 /\
       AuditService.verifyAuditIntegrity svc
         (fst (AuditService.run_detached svc db1 task)) newId =
         {| AuditService.valid := true;
            AuditService.localHash :=
              AuditService.hashAuditData (audit_data_of_params params now);
            AuditService.blockchainHash := None;
            AuditService.error := Some "Not logged to blockchain" |}).
Proof.
  intros Hfresh Hcritical.
  unfold AuditService.logAudit, AuditService.prisma_auditLog_create.
  rewrite Hfresh. cbn [bind fst snd AuditService.id]. rewrite Hcritical.
  fold (audit_row newId params now). fold (audit_data_of_params params now).
  eexists _, _. split; [reflexivity|].
  set (db1 := <[newId := audit_row newId params now]> db).
  assert (Hrow : AuditService.getAuditLog db1 newId = Some (audit_row newId params now))
    by apply lookup_insert_eq.
  split; [exact Hrow|].
  unfold AuditService.run_detached, AuditService.logCriticalAudit.
  cbn [AuditService.detached_auditId AuditService.detached_data
       AuditService.data_action AuditService.data_timestamp audit_data_of_params].
  fold (audit_data_of_params params now).
  destruct (BlockchainService.logAuditToBlockchain _ newId _ _ now) as [txHash|e0] eqn:Hbc;
    cbn [bind].
  - unfold AuditService.prisma_auditLog_update.
    unfold AuditService.getAuditLog in Hrow. rewrite Hrow. cbn [fst].
    split; [|intros e He; discriminate].
    eexists. split; [apply lookup_insert_eq | reflexivity].
  - cbn [fst]. split.
    + exists (audit_row newId params now). split; [exact Hrow | reflexivity].
    + intros e _. split; [reflexivity|].
      now rewrite (verifyAuditIntegrity_not_anchored svc db1 newId _ Hrow).
Qed.

End AuditFacts.

(** * JavaScript strings through the encoder and the decoder *)

Section UnicodeFacts.
#[local] Open Scope N_scope.
Import Unicode.

Lemma to_N_byte_of_N (n : N) : n < 256 -> Byte.to_N (byte_of_N n) = n.
Proof.
  intros Hn.
  assert (Hall : forallb (fun k => Byte.to_N (byte_of_N (N.of_nat k)) =? N.of_nat k)
                   (seq 0 256) = true) by (vm_compute; reflexivity).
  rewrite forallb_forall in Hall.
  specialize (Hall (N.to_nat n)). rewrite N2Nat.id in Hall.
  apply N.eqb_eq, Hall, in_seq. lia.
Qed.

Ltac decide_comparisons :=
  repeat match goal with
         | |- context [(?a <=? ?b)] => destruct (N.leb_spec a b); try lia
         | |- context [(?a <? ?b)] => destruct (N.ltb_spec a b); try lia
         | |- context [(?a =? ?b)] => destruct (N.eqb_spec a b); try lia
         end.

Lemma is_scalar_spec (cp : N) :
  is_scalar cp = true -> cp < 0x110000 /\ (cp < 0xD800 \/ 0xDFFF < cp).
Proof. unfold is_scalar. decide_comparisons; cbn; intros; try discriminate; lia. Qed.

Lemma lead_ascii (b : N) : b <= 0x7F -> lead b = (None, [b]).
Proof. intros Hb. unfold lead. now rewrite (proj2 (N.leb_le _ _) Hb). Qed.

Lemma lead_two (b : N) :
  0xC2 <= b <= 0xDF ->
  lead b = (Some {| code_point := b mod 0x20; needed := 1;
                    lower := 0x80; upper := 0xBF |}, []).
Proof. intros Hb. unfold lead. decide_comparisons. reflexivity. Qed.

Lemma lead_three (b : N) :
  0xE0 <= b <= 0xEF ->
  lead b = (Some {| code_point := b mod 0x10; needed := 2;
                    lower := if b =? 0xE0 then 0xA0 else 0x80;
                    upper := if b =? 0xED then 0x9F else 0xBF |}, []).
Proof.
  intros Hb. unfold lead.
  destruct (N.leb_spec b 0x7F); [lia|].
  destruct (N.leb_spec 0xC2 b); [|lia]. destruct (N.leb_spec b 0xDF); [lia|].
  destruct (N.leb_spec 0xE0 b); [|lia]. destruct (N.leb_spec b 0xEF); [|lia].
  reflexivity.
Qed.

Lemma lead_four (b : N) :
  0xF0 <= b <= 0xF4 ->
  lead b = (Some {| code_point := b mod 0x8; needed := 3;
                    lower := if b =? 0xF0 then 0x90 else 0x80;
                    upper := if b =? 0xF4 then 0x8F else 0xBF |}, []).
Proof.
  intros Hb. unfold lead.
  destruct (N.leb_spec b 0x7F); [lia|].
  destruct (N.leb_spec 0xC2 b); [|lia]. destruct (N.leb_spec b 0xDF); [lia|].
  destruct (N.leb_spec 0xE0 b); [|lia]. destruct (N.leb_spec b 0xEF); [lia|].
  destruct (N.leb_spec 0xF0 b); [|lia]. destruct (N.leb_spec b 0xF4); [|lia].
  reflexivity.
Qed.

Lemma step_continuation (p : Pending) (b : N) :
  lower p <= b <= upper p ->
  step (Some p) b =
    match needed p with
    | S (S n) =>
        (Some {| code_point := code_point p * 0x40 + b mod 0x40; needed := S n;
                 lower := 0x80; upper := 0xBF |}, [])
    | _ => (None, [code_point p * 0x40 + b mod 0x40])
    end.
Proof.
  intros [Hl Hu]. unfold step.
  now rewrite (proj2 (N.leb_le _ _) Hl), (proj2 (N.leb_le _ _) Hu).
Qed.

(** The decoder reads the bytes of a scalar value as that value. *)
Lemma decode_from_utf8_bytes (cp : N) (rest : Buffer) :
  is_scalar cp = true ->
  decode_from None (utf8_bytes cp ++ rest) = cp :: decode_from None rest.
Proof.
  intros Hs. apply is_scalar_spec in Hs as [Hmax Hsur].
  unfold utf8_bytes.
  destruct (N.ltb_spec cp 0x80);
    [|destruct (N.ltb_spec cp 0x800); [|destruct (N.ltb_spec cp 0x10000)]];
    cbn [app decode_from]; rewrite !to_N_byte_of_N by lia.
  - cbn [step]. now rewrite lead_ascii by lia.
  - cbn [step]. rewrite lead_two by lia.
    rewrite step_continuation by (cbn [lower upper]; lia).
    cbn [needed code_point app]. f_equal. lia.
  - cbn [step]. rewrite lead_three by lia.
    rewrite step_continuation
      by (cbn [lower upper];
          destruct (N.eqb_spec (0xE0 + cp / 0x1000) 0xE0);
          destruct (N.eqb_spec (0xE0 + cp / 0x1000) 0xED); lia).
    cbn [needed code_point app].
    rewrite step_continuation by (cbn [lower upper]; lia).
    cbn [needed code_point app]. f_equal. lia.
  - cbn [step]. rewrite lead_four by lia.
    rewrite step_continuation
      by (cbn [lower upper];
          destruct (N.eqb_spec (0xF0 + cp / 0x40000) 0xF0);
          destruct (N.eqb_spec (0xF0 + cp / 0x40000) 0xF4); lia).
    cbn [needed code_point app].
    rewrite step_continuation by (cbn [lower upper]; lia).
    cbn [needed code_point app].
    rewrite step_continuation by (cbn [lower upper]; lia).
    cbn [needed code_point app]. f_equal. lia.
Qed.

Lemma decode_from_scalars (cps : list N) :
  forallb is_scalar cps = true ->
  decode_from None (flat_map utf8_bytes cps) = cps.
Proof.
  induction cps as [|cp cps IH]; [reflexivity|].
  cbn [forallb flat_map]. intros Hs. apply andb_prop in Hs as [Hcp Hs].
  now rewrite decode_from_utf8_bytes, IH.
Qed.

(** Induction on a string read one or two code units at a time. *)
Lemma js_string_pairs_ind (P : js_string -> Prop) :
  P [] ->
  (forall u rest,
     P rest -> (forall l rest', rest = l :: rest' -> P rest') -> P (u :: rest)) ->
  forall s, P s.
Proof.
  intros Hnil Hcons s.
  assert (Hboth : P s /\ forall l rest', s = l :: rest' -> P rest').
  { induction s as [|u rest [IH1 IH2]]; [split; [exact Hnil | discriminate]|].
    split; [now apply Hcons|]. now intros l rest' [= _ <-]. }
  exact (proj1 Hboth).
Qed.

Lemma surrogate_cases (u : N) :
  (is_high_surrogate u = true /\ 0xD800 <= u <= 0xDBFF) \/
  (is_high_surrogate u = false /\ is_low_surrogate u = true /\ 0xDC00 <= u <= 0xDFFF) \/
  (is_high_surrogate u = false /\ is_low_surrogate u = false /\
   (u < 0xD800 \/ 0xDFFF < u)).
Proof.
  unfold is_high_surrogate, is_low_surrogate. decide_comparisons; cbn [andb]; lia.
Qed.

Lemma low_surrogate_cases (l : N) :
  (is_low_surrogate l = true /\ 0xDC00 <= l <= 0xDFFF) \/
  (is_low_surrogate l = false /\ (l < 0xDC00 \/ 0xDFFF < l)).
Proof. unfold is_low_surrogate. decide_comparisons; cbn [andb]; lia. Qed.

Lemma is_scalar_intro (cp : N) :
  cp < 0x110000 -> cp < 0xD800 \/ 0xDFFF < cp -> is_scalar cp = true.
Proof. intros Hmax Hsur. unfold is_scalar. decide_comparisons; reflexivity. Qed.

(** What the encoder reads are scalar values. *)
Lemma code_points_scalar (s : js_string) :
  forallb is_code_unit s = true -> forallb is_scalar (code_points s) = true.
Proof.
  induction s as [|u rest IH IH2] using js_string_pairs_ind; [reflexivity|].
  cbn [forallb code_points]. unfold is_code_unit at 1.
  intros Hu. apply andb_prop in Hu as [Hu Hrest]. apply N.ltb_lt in Hu.
  destruct (surrogate_cases u) as [[-> Hr]|[(-> & -> & Hr)|(-> & -> & Hr)]].
  - destruct rest as [|l rest']; [reflexivity|].
    cbn [forallb] in Hrest. apply andb_prop in Hrest as [Hl Hrest'].
    unfold is_code_unit in Hl. apply N.ltb_lt in Hl.
    destruct (low_surrogate_cases l) as [[-> Hlr]|[-> Hlr]]; cbn [forallb].
    + rewrite (IH2 l rest' eq_refl Hrest'). rewrite is_scalar_intro by lia. reflexivity.
    + rewrite IH by (cbn [forallb]; unfold is_code_unit at 1;
                     rewrite (proj2 (N.ltb_lt _ _) Hl); exact Hrest').
      reflexivity.
  - cbn [forallb]. now rewrite IH.
  - cbn [forallb]. rewrite IH by exact Hrest. now rewrite is_scalar_intro by lia.
Qed.

(** The code units of what the encoder reads: the string made well formed. *)
Lemma code_units_code_points (s : js_string) :
  forallb is_code_unit s = true ->
  flat_map code_units (code_points s) = toWellFormed s.
Proof.
  induction s as [|u rest IH IH2] using js_string_pairs_ind; [reflexivity|].
  cbn [forallb code_points toWellFormed]. unfold is_code_unit at 1.
  intros Hu. apply andb_prop in Hu as [Hu Hrest]. apply N.ltb_lt in Hu.
  assert (Hunit : forall x, x < 0x10000 -> code_units x = [x]).
  { intros x Hx. unfold code_units. now rewrite (proj2 (N.ltb_lt _ _) Hx). }
  destruct (surrogate_cases u) as [[-> Hr]|[(-> & -> & Hr)|(-> & -> & Hr)]].
  - destruct rest as [|l rest']; [reflexivity|].
    pose proof Hrest as Hrest0.
    cbn [forallb] in Hrest. apply andb_prop in Hrest as [Hl Hrest'].
    unfold is_code_unit in Hl. apply N.ltb_lt in Hl.
    destruct (low_surrogate_cases l) as [[-> Hlr]|[-> Hlr]]; cbn [flat_map].
    + rewrite (IH2 l rest' eq_refl Hrest'). unfold code_units.
      destruct (N.ltb_spec (0x10000 + (u - 0xD800) * 0x400 + (l - 0xDC00)) 0x10000);
        [lia|].
      cbn [app]. f_equal; [lia|]. f_equal. lia.
    + rewrite (IH Hrest0). reflexivity.
  - cbn [flat_map]. now rewrite IH.
  - cbn [flat_map]. rewrite IH by exact Hrest. now rewrite Hunit by exact Hu.
Qed.

(** Encoding and decoding a string gives the string made well formed. *)
Lemma decode_encode (s : js_string) :
  forallb is_code_unit s = true -> decode (encode s) = toWellFormed s.
Proof.
  intros Hs. unfold decode, encode.
  rewrite decode_from_scalars by now apply code_points_scalar.
  now apply code_units_code_points.
Qed.

Lemma toWellFormed_isWellFormed (s : js_string) :
  toWellFormed s = s <-> isWellFormed s = true.
Proof.
  induction s as [|u rest IH IH2] using js_string_pairs_ind; [split; reflexivity|].
  cbn [toWellFormed isWellFormed].
  destruct (surrogate_cases u) as [[-> Hr]|[(-> & -> & Hr)|(-> & -> & Hr)]].
  - destruct rest as [|l rest'].
    + split; [|discriminate]. unfold REPLACEMENT_CHARACTER. intros [= E]. lia.
    + destruct (low_surrogate_cases l) as [[-> Hlr]|[-> Hlr]]; cbn [andb].
      * rewrite <- (IH2 l rest' eq_refl). split; [now intros [= E]|now intros ->].
      * split; [|discriminate]. unfold REPLACEMENT_CHARACTER. intros [= E _]. lia.
  - cbn [negb andb]. split; [|discriminate].
    unfold REPLACEMENT_CHARACTER. intros [= E _]. lia.
  - cbn [negb andb]. rewrite <- IH. split; [now intros [= E]|now intros ->].
Qed.

Lemma utf8_bytes_not_nil (cp : N) : utf8_bytes cp <> [].
Proof. unfold utf8_bytes. decide_comparisons; discriminate. Qed.

Lemma encode_not_nil (s : js_string) : s <> [] -> encode s <> [].
Proof.
  destruct s as [|u rest]; [contradiction|]. intros _. unfold encode.
  cbn [code_points].
  destruct (is_high_surrogate u);
    [destruct rest as [|l rest']; [|destruct (is_low_surrogate l)]
    |destruct (is_low_surrogate u)];
    cbn [flat_map]; intros E; apply app_eq_nil in E as [E _];
    exact (utf8_bytes_not_nil _ E).
Qed.

End UnicodeFacts.

Section TextEncryption.
Context `{Crypto}.

Lemma utf8_of_js_not_empty (p : Unicode.js_string) : p <> [] -> utf8_of_js p <> "".
Proof.
  intros Hp E. apply (encode_not_nil p Hp).
  apply (f_equal list_byte_of_string) in E. unfold utf8_of_js in E.
  now rewrite list_byte_of_string_of_list_byte in E.
Qed.

Lemma js_of_utf8_of_js (p : Unicode.js_string) :
  forallb Unicode.is_code_unit p = true ->
  js_of_utf8 (utf8_of_js p) = Unicode.toWellFormed p.
Proof.
  intros Hp. unfold js_of_utf8, utf8_of_js.
  rewrite list_byte_of_string_of_list_byte. now apply decode_encode.
Qed.

(** C5, as the code has it.  For every non-empty string [p] of the caller
    and every key selection [u] (a user id, or none for the master key),
    [encryptPII] succeeds on the text of [p], and [decryptPII] of its output
    under the same selection returns a text that stands for
    [p.toWellFormed()]: [p] with every lone surrogate replaced by U+FFFD.
    It is [p] itself exactly when [p] is well-formed Unicode. *)
Theorem decryptPII_encryptPII (env : ProcessEnv) (svc : EncryptionService.t)
    (p : Unicode.js_string) (u : option string) (g : Rng) :
  EncryptionService.new env = Ok svc ->
  p <> [] ->
  forallb Unicode.is_code_unit p = true ->
  exists buf g' text,
    EncryptionService.encryptPII svc (utf8_of_js p) u g = Ok (buf, g') /\
    EncryptionService.decryptPII svc buf u = Ok text /\
    js_of_utf8 text = Unicode.toWellFormed p /\
    (js_of_utf8 text = p <-> Unicode.isWellFormed p = true).
Proof.
  intros Hsvc Hp Hunits.
  destruct (decryptPII_encryptPII_bytes env svc (utf8_of_js p) u g Hsvc
              (utf8_of_js_not_empty p Hp)) as (buf & g' & Henc & Hdec).
  exists buf, g', (utf8_of_js p).
  split; [exact Henc|]. split; [exact Hdec|].
  rewrite (js_of_utf8_of_js p Hunits). split; [reflexivity|].
  apply toWellFormed_isWellFormed.
Qed.

End TextEncryption.
(** * Properties of the contracts *)

(** ** PharmaLyncCore *)

Section CoreFacts.
Import Solidity.
Context `{Keccak}.
#[local] Open Scope N_scope.

Lemma require_Returned {A} (cond : bool) (message : string) (rest : Tx A) (a : A) :
  require cond message rest = Returned a -> cond = true /\ rest = Returned a.
Proof. destruct cond; [auto | discriminate]. Qed.

Lemma checked_increment_Returned {A} (x : N) (rest : N -> Tx A) (a : A) :
  checked_increment x rest = Returned a -> x <> uint256_max /\ rest (x + 1) = Returned a.
Proof.
  unfold checked_increment. destruct (N.eqb_spec x uint256_max); [discriminate | auto].
Qed.

Lemma string_length_pos (s : string) : (0 <? String.length s)%nat = true -> s <> "".
Proof. now intros Hs ->. Qed.

Lemma registerMedicine_Returned m n mf b st i st' ev :
  PharmaLyncCore.registerMedicine m n mf b st = Returned (i, st', ev) ->
  PharmaLyncCore.hasRole st PharmaLyncCore.MANUFACTURER_ROLE (sender m) = true /\
  n <> "" /\ mf <> "" /\ b <> "" /\
  PharmaLyncCore.batch_id st b = 0 /\
  i = PharmaLyncCore.medicineCounter st + 1 /\
  PharmaLyncCore.roles st' = PharmaLyncCore.roles st /\
  PharmaLyncCore.medicineCounter st' = i /\
  PharmaLyncCore.medicines st' =
    <[i := {| PharmaLyncCore.id := i; PharmaLyncCore.name := n;
              PharmaLyncCore.manufacturer := mf; PharmaLyncCore.batchNumber := b;
              PharmaLyncCore.registeredAt := timestamp m;
              PharmaLyncCore.dispensed := false; PharmaLyncCore.dispensedBy := 0;
              PharmaLyncCore.dispensedAt := 0 |}]> (PharmaLyncCore.medicines st) /\
  PharmaLyncCore.batchNumberToId st' = <[b := i]> (PharmaLyncCore.batchNumberToId st).
Proof.
  unfold PharmaLyncCore.registerMedicine, PharmaLyncCore.onlyRole.
  destruct (PharmaLyncCore.hasRole st _ _); [|discriminate].
  intros E.
  apply require_Returned in E as [Hn E]. apply require_Returned in E as [Hmf E].
  apply require_Returned in E as [Hb E]. apply require_Returned in E as [Hfresh E].
  apply checked_increment_Returned in E as [_ E]. injection E as <- <- <-.
  apply N.eqb_eq in Hfresh.
  repeat split; auto using string_length_pos.
Qed.

Lemma dispenseMedicine_Returned m i st st' ev :
  PharmaLyncCore.dispenseMedicine m i st = Returned (st', ev) ->
  PharmaLyncCore.hasRole st PharmaLyncCore.PHARMACY_ROLE (sender m) = true /\
  PharmaLyncCore.valid_id st i = true /\
  PharmaLyncCore.dispensed (PharmaLyncCore.medicine_at st i) = false /\
  PharmaLyncCore.roles st' = PharmaLyncCore.roles st /\
  PharmaLyncCore.medicineCounter st' = PharmaLyncCore.medicineCounter st /\
  PharmaLyncCore.batchNumberToId st' = PharmaLyncCore.batchNumberToId st /\
  PharmaLyncCore.medicines st' =
    <[i := {| PharmaLyncCore.id := PharmaLyncCore.id (PharmaLyncCore.medicine_at st i);
              PharmaLyncCore.name := PharmaLyncCore.name (PharmaLyncCore.medicine_at st i);
              PharmaLyncCore.manufacturer :=
                PharmaLyncCore.manufacturer (PharmaLyncCore.medicine_at st i);
              PharmaLyncCore.batchNumber :=
                PharmaLyncCore.batchNumber (PharmaLyncCore.medicine_at st i);
              PharmaLyncCore.registeredAt :=
                PharmaLyncCore.registeredAt (PharmaLyncCore.medicine_at st i);
              PharmaLyncCore.dispensed := true;
              PharmaLyncCore.dispensedBy := sender m;
              PharmaLyncCore.dispensedAt := timestamp m |}]>
      (PharmaLyncCore.medicines st).
Proof.
  unfold PharmaLyncCore.dispenseMedicine, PharmaLyncCore.onlyRole.
  destruct (PharmaLyncCore.hasRole st _ _); [|discriminate].
  intros E.
  apply require_Returned in E as [Hvalid E]. apply require_Returned in E as [Hnot E].
  injection E as <- <-. apply negb_true_iff in Hnot. repeat split; auto.
Qed.

Lemma set_roles_same (st : PharmaLyncCore.State) :
  PharmaLyncCore.set_roles st (PharmaLyncCore.roles st) = st.
Proof. now destruct st. Qed.

Lemma after_step st tx : core_step st tx (PharmaLyncCore.after st tx).
Proof.
  unfold PharmaLyncCore.after. destruct tx as [m [n mf b|i|r a|r a|r a]];
    cbn [fst snd PharmaLyncCore.exec].
  - destruct (PharmaLyncCore.registerMedicine m n mf b st) as [[[i st'] ev]|] eqn:E;
      [|constructor]. now apply (step_register st _ n mf b i st' ev).
  - destruct (PharmaLyncCore.dispenseMedicine m i st) as [[st' ev]|] eqn:E;
      [|constructor]. now apply (step_dispense st _ i st' ev).
  - unfold PharmaLyncCore.grantRole, PharmaLyncCore.onlyRole, PharmaLyncCore._grantRole.
    destruct (PharmaLyncCore.hasRole st _ (sender m)); [|constructor].
    destruct (PharmaLyncCore.hasRole st r a); constructor.
  - unfold PharmaLyncCore.revokeRole, PharmaLyncCore.onlyRole, PharmaLyncCore._revokeRole.
    destruct (PharmaLyncCore.hasRole st _ (sender m)); [|constructor].
    destruct (PharmaLyncCore.hasRole st r a); constructor.
  - unfold PharmaLyncCore.renounceRole, PharmaLyncCore._revokeRole.
    destruct (negb _); [constructor|].
    destruct (PharmaLyncCore.hasRole st r a); constructor.
Qed.

(** Induction over a history. *)
Lemma run_invariant (P : PharmaLyncCore.State -> Prop) :
  (forall st tx, P st -> P (PharmaLyncCore.after st tx)) ->
  forall txs st, P st -> P (PharmaLyncCore.run txs st).
Proof.
  intros Hstep txs. induction txs as [|tx txs IH]; intros st Hst; [exact Hst|].
  apply IH, Hstep, Hst.
Qed.

(** *** Dispensing happens once *)

Lemma valid_id_bounds st i :
  PharmaLyncCore.valid_id st i = true <-> 0 < i <= PharmaLyncCore.medicineCounter st.
Proof.
  unfold PharmaLyncCore.valid_id. rewrite andb_true_iff, N.ltb_lt, N.leb_le. tauto.
Qed.

Lemma dispensed_by_after st tx i a t :
  dispensed_by st i a t -> dispensed_by (PharmaLyncCore.after st tx) i a t.
Proof.
  intros [Hvalid (med & Hmed & Hd & Ha & Ht)].
  destruct (after_step st tx) as [|r|n mf b j st' ev _ E|j st' ev _ E].
  - split; [exact Hvalid | eauto].
  - split; [exact Hvalid | eauto].
  - apply registerMedicine_Returned in E
      as (_ & _ & _ & _ & _ & -> & _ & Hc & Hm & _).
    apply valid_id_bounds in Hvalid. split.
    + apply valid_id_bounds. rewrite Hc. lia.
    + exists med. rewrite Hm, lookup_insert_ne by lia. auto.
  - apply dispenseMedicine_Returned in E as (_ & _ & Hnot & _ & Hc & _ & Hm).
    split.
    + apply valid_id_bounds. rewrite Hc. now apply valid_id_bounds.
    + exists med. destruct (N.eq_dec j i) as [->|Hne].
      * unfold PharmaLyncCore.medicine_at in Hnot. rewrite Hmed in Hnot.
        cbn in Hnot. congruence.
      * rewrite Hm, lookup_insert_ne by exact Hne. auto.
Qed.

(** X1. Once [dispenseMedicine] has gone through for a medicine, no later
    history undoes it: the medicine stays dispensed, by the same pharmacy
    and at the same time, [isMedicineDispensed] answers true, and every
    further [dispenseMedicine] for it reverts, a pharmacy's with "Medicine
    already dispensed". *)
Theorem dispenseMedicine_once m medicineId st st1 ev txs :
  PharmaLyncCore.dispenseMedicine m medicineId st = Returned (st1, ev) ->
  let st' := PharmaLyncCore.run txs st1 in
  PharmaLyncCore.dispensed (PharmaLyncCore.medicine_at st' medicineId) = true /\
  PharmaLyncCore.dispensedBy (PharmaLyncCore.medicine_at st' medicineId) = sender m /\
  PharmaLyncCore.dispensedAt (PharmaLyncCore.medicine_at st' medicineId) = timestamp m /\
  PharmaLyncCore.isMedicineDispensed medicineId st' = Returned true /\
  forall m',
    PharmaLyncCore.dispenseMedicine m' medicineId st' =
    Reverted (if PharmaLyncCore.hasRole st' PharmaLyncCore.PHARMACY_ROLE (sender m')
              then Require_failed "Medicine already dispensed"
              else AccessControlUnauthorizedAccount (sender m')
                     PharmaLyncCore.PHARMACY_ROLE).
Proof.
  intros E st'.
  assert (Hinv : dispensed_by st' medicineId (sender m) (timestamp m)).
  { apply run_invariant; [intros; now apply dispensed_by_after|].
    apply dispenseMedicine_Returned in E as (_ & Hvalid & _ & _ & Hc & _ & Hm).
    split.
    - apply valid_id_bounds. rewrite Hc. now apply valid_id_bounds.
    - eexists. split; [rewrite Hm; apply lookup_insert_eq|]. repeat split. }
  destruct Hinv as [Hvalid (med & Hmed & Hd & Ha & Ht)].
  assert (Hat : PharmaLyncCore.medicine_at st' medicineId = med)
    by (unfold PharmaLyncCore.medicine_at; now rewrite Hmed).
  rewrite Hat. repeat split; auto.
  - unfold PharmaLyncCore.isMedicineDispensed. now rewrite Hvalid, Hat, Hd.
  - intros m'. unfold PharmaLyncCore.dispenseMedicine, PharmaLyncCore.onlyRole.
    destruct (PharmaLyncCore.hasRole st' _ _); [|reflexivity].
    now rewrite Hvalid, Hat, Hd.
Qed.

(** *** The registry *)

Lemma registry_ok_after st tx :
  registry_ok st -> registry_ok (PharmaLyncCore.after st tx).
Proof.
  intros [Hmed Hbatch].
  destruct (after_step st tx) as [|r|n mf b j st' ev _ E|j st' ev _ E].
  - now split.
  - now split.
  - apply registerMedicine_Returned in E
      as (_ & _ & _ & Hb & Hfresh & -> & _ & Hc & Hm & Hbi).
    assert (Hnone : PharmaLyncCore.batchNumberToId st !! b = None).
    { unfold PharmaLyncCore.batch_id in Hfresh.
      destruct (PharmaLyncCore.batchNumberToId st !! b) as [k|] eqn:Ek; [|reflexivity].
      cbn in Hfresh. subst k. apply Hbatch in Ek. lia. }
    split.
    + intros i Hi. rewrite Hc in Hi. rewrite Hm, Hbi.
      destruct (N.eq_dec i (PharmaLyncCore.medicineCounter st + 1)) as [->|Hne].
      * eexists. split; [apply lookup_insert_eq|]. cbn.
        rewrite lookup_insert_eq. auto.
      * destruct (Hmed i ltac:(lia)) as (med & Hi1 & Hi2 & Hi3 & Hi4).
        exists med. rewrite lookup_insert_ne by congruence.
        repeat split; auto. rewrite lookup_insert_ne; [exact Hi4|].
        intros ->. congruence.
    + intros b' i. rewrite Hbi, Hm, Hc.
      destruct (String.eqb_spec b b') as [->|Hne].
      * rewrite lookup_insert_eq. intros [= <-]. split; [lia|].
        eexists. split; [apply lookup_insert_eq | reflexivity].
      * rewrite lookup_insert_ne by exact Hne. intros Hi.
        destruct (Hbatch b' i Hi) as [Hr (med & Hi1 & Hi2)]. split; [lia|].
        exists med. rewrite lookup_insert_ne by lia. auto.
  - apply dispenseMedicine_Returned in E as (_ & Hvalid & _ & _ & Hc & Hbi & Hm).
    apply valid_id_bounds in Hvalid.
    destruct (Hmed j Hvalid) as (mj & Hj1 & Hj2 & Hj3 & Hj4).
    assert (Hat : PharmaLyncCore.medicine_at st j = mj)
      by (unfold PharmaLyncCore.medicine_at; now rewrite Hj1).
    rewrite Hat in Hm. split.
    + intros i Hi. rewrite Hc in Hi. rewrite Hm, Hbi.
      destruct (N.eq_dec i j) as [->|Hne].
      * eexists. split; [apply lookup_insert_eq|]. cbn. auto.
      * destruct (Hmed i Hi) as (med & Hi1 & Hi2 & Hi3 & Hi4).
        exists med. rewrite lookup_insert_ne by congruence. auto.
    + intros b i. rewrite Hbi, Hm, Hc. intros Hi.
      destruct (Hbatch b i Hi) as [Hr (med & Hi1 & Hi2)]. split; [exact Hr|].
      destruct (N.eq_dec i j) as [->|Hne].
      * eexists. split; [apply lookup_insert_eq|]. cbn. congruence.
      * exists med. rewrite lookup_insert_ne by congruence. auto.
Qed.

Lemma constructor_state m :
  exists r, fst (PharmaLyncCore.constructor m) =
            {| PharmaLyncCore.roles := r; PharmaLyncCore.medicineCounter := 0;
               PharmaLyncCore.medicines := ∅; PharmaLyncCore.batchNumberToId := ∅ |}.
Proof.
  unfold PharmaLyncCore.constructor, PharmaLyncCore._grantRole.
  repeat match goal with
         | |- context [if ?b then _ else _] => destruct b
         end; cbn; eauto.
Qed.

Lemma registry_ok_constructor m : registry_ok (fst (PharmaLyncCore.constructor m)).
Proof.
  destruct (constructor_state m) as [r ->]. split; cbn.
  - intros i Hi. lia.
  - intros b i Hi. now rewrite lookup_empty in Hi.
Qed.

Lemma registry_ok_run m txs :
  registry_ok (PharmaLyncCore.run txs (fst (PharmaLyncCore.constructor m))).
Proof.
  apply run_invariant; [intros; now apply registry_ok_after|].
  apply registry_ok_constructor.
Qed.

(** X2. In every state the contract reaches from its deployment, batch
    numbers identify medicines: two registered identifiers with the same
    batch number are the same, [batchNumberToId] of a medicine's batch
    number is its identifier, a batch number that is indexed belongs to a
    registered medicine, and a manufacturer who registers a batch number
    again is refused with "Batch number already exists". *)
Theorem batch_numbers_unique m txs :
  let st := PharmaLyncCore.run txs (fst (PharmaLyncCore.constructor m)) in
  (forall i j,
     PharmaLyncCore.valid_id st i = true -> PharmaLyncCore.valid_id st j = true ->
     PharmaLyncCore.batchNumber (PharmaLyncCore.medicine_at st i) =
     PharmaLyncCore.batchNumber (PharmaLyncCore.medicine_at st j) -> i = j) /\
  (forall i,
     PharmaLyncCore.valid_id st i = true ->
     PharmaLyncCore.id (PharmaLyncCore.medicine_at st i) = i /\
     PharmaLyncCore.batch_id st
       (PharmaLyncCore.batchNumber (PharmaLyncCore.medicine_at st i)) = i) /\
  (forall b,
     PharmaLyncCore.batch_id st b <> 0 ->
     PharmaLyncCore.valid_id st (PharmaLyncCore.batch_id st b) = true /\
     PharmaLyncCore.batchNumber
       (PharmaLyncCore.medicine_at st (PharmaLyncCore.batch_id st b)) = b) /\
  (forall i m' n mf,
     PharmaLyncCore.valid_id st i = true ->
     PharmaLyncCore.hasRole st PharmaLyncCore.MANUFACTURER_ROLE (sender m') = true ->
     n <> "" -> mf <> "" ->
     PharmaLyncCore.registerMedicine m' n mf
       (PharmaLyncCore.batchNumber (PharmaLyncCore.medicine_at st i)) st =
     Reverted (Require_failed "Batch number already exists")).
Proof.
  intros st. pose proof (registry_ok_run m txs) as [Hmed Hbatch]. fold st in Hmed, Hbatch.
  assert (Hback : forall i, PharmaLyncCore.valid_id st i = true ->
            PharmaLyncCore.id (PharmaLyncCore.medicine_at st i) = i /\
            PharmaLyncCore.batchNumber (PharmaLyncCore.medicine_at st i) <> "" /\
            PharmaLyncCore.batch_id st
              (PharmaLyncCore.batchNumber (PharmaLyncCore.medicine_at st i)) = i).
  { intros i Hi. apply valid_id_bounds in Hi.
    destruct (Hmed i Hi) as (med & H1 & H2 & H3 & H4).
    unfold PharmaLyncCore.medicine_at, PharmaLyncCore.batch_id. rewrite H1. cbn.
    now rewrite H4. }
  split; [|split; [|split]].
  - intros i j Hi Hj E.
    destruct (Hback i Hi) as (_ & _ & <-). destruct (Hback j Hj) as (_ & _ & <-).
    now rewrite E.
  - intros i Hi. destruct (Hback i Hi) as (? & _ & ?). auto.
  - intros b Hb. unfold PharmaLyncCore.batch_id in *.
    destruct (PharmaLyncCore.batchNumberToId st !! b) as [i|] eqn:Ei;
      [|now contradiction Hb].
    cbn in *. destruct (Hbatch b i Ei) as [Hr (med & H1 & H2)].
    split; [now apply valid_id_bounds|].
    unfold PharmaLyncCore.medicine_at. now rewrite H1.
  - intros i m' n mf Hi Hrole Hn Hmf.
    destruct (Hback i Hi) as (_ & Hne & Hid).
    unfold PharmaLyncCore.registerMedicine, PharmaLyncCore.onlyRole. rewrite Hrole.
    destruct n as [|? ?]; [now contradiction Hn|].
    destruct mf as [|? ?]; [now contradiction Hmf|].
    destruct (PharmaLyncCore.batchNumber (PharmaLyncCore.medicine_at st i))
      as [|c b] eqn:Eb; [now contradiction Hne|].
    cbn [String.length Nat.ltb Nat.leb require]. rewrite Hid.
    apply valid_id_bounds in Hi.
    destruct (N.eqb_spec i 0); [lia | reflexivity].
Qed.

(** *** Counting *)

Lemma registrations_run txs : forall st,
  PharmaLyncCore.medicineCounter (PharmaLyncCore.run txs st) =
  PharmaLyncCore.medicineCounter st + PharmaLyncCore.registrations txs st.
Proof.
  induction txs as [|tx txs IH]; intros st; cbn [PharmaLyncCore.run fold_left
    PharmaLyncCore.registrations]; [lia|].
  change (fold_left PharmaLyncCore.after txs (PharmaLyncCore.after st tx))
    with (PharmaLyncCore.run txs (PharmaLyncCore.after st tx)).
  rewrite IH. enough (PharmaLyncCore.medicineCounter (PharmaLyncCore.after st tx) =
                      PharmaLyncCore.medicineCounter st +
                      (if PharmaLyncCore.registers st tx then 1 else 0)) by lia.
  unfold PharmaLyncCore.after, PharmaLyncCore.registers.
  destruct tx as [m [n mf b|i|r a|r a|r a]]; cbn [fst snd PharmaLyncCore.exec].
  - destruct (PharmaLyncCore.registerMedicine m n mf b st) as [[[i st'] ev]|] eqn:E;
      [|lia].
    apply registerMedicine_Returned in E as (_ & _ & _ & _ & _ & -> & _ & -> & _). lia.
  - destruct (PharmaLyncCore.dispenseMedicine m i st) as [[st' ev]|] eqn:E; [|lia].
    apply dispenseMedicine_Returned in E as (_ & _ & _ & _ & -> & _). lia.
  - unfold PharmaLyncCore.grantRole, PharmaLyncCore.onlyRole, PharmaLyncCore._grantRole.
    destruct (PharmaLyncCore.hasRole st _ (sender m)); [|lia].
    destruct (PharmaLyncCore.hasRole st r a); cbn; lia.
  - unfold PharmaLyncCore.revokeRole, PharmaLyncCore.onlyRole, PharmaLyncCore._revokeRole.
    destruct (PharmaLyncCore.hasRole st _ (sender m)); [|lia].
    destruct (PharmaLyncCore.hasRole st r a); cbn; lia.
  - unfold PharmaLyncCore.renounceRole, PharmaLyncCore._revokeRole.
    destruct (negb _); [lia|].
    destruct (PharmaLyncCore.hasRole st r a); cbn; lia.
Qed.

(** X3. Identifiers are handed out in sequence.  After any history since
    deployment [getTotalMedicines] is the number of registrations that
    went through; [getMedicine] and [isMedicineDispensed] answer for the
    identifiers from 1 to that number ([getMedicine] with the medicine of
    that identifier, [isMedicineDispensed] with its [dispensed] flag) and
    revert with "Invalid medicine ID" for every other one, 0 included; and
    the next registration that goes through returns that number plus one. *)
Theorem medicine_ids_sequential m txs :
  let st0 := fst (PharmaLyncCore.constructor m) in
  let st := PharmaLyncCore.run txs st0 in
  PharmaLyncCore.getTotalMedicines st = PharmaLyncCore.registrations txs st0 /\
  (forall i,
     match PharmaLyncCore.getMedicine i st with
     | Returned med =>
         1 <= i <= PharmaLyncCore.getTotalMedicines st /\ PharmaLyncCore.id med = i /\
         PharmaLyncCore.isMedicineDispensed i st =
           Returned (PharmaLyncCore.dispensed med)
     | Reverted r =>
         (i = 0 \/ PharmaLyncCore.getTotalMedicines st < i) /\
         r = Require_failed "Invalid medicine ID" /\
         PharmaLyncCore.isMedicineDispensed i st = Reverted r
     end) /\
  (forall m' n mf b i st' ev,
     PharmaLyncCore.registerMedicine m' n mf b st = Returned (i, st', ev) ->
     i = PharmaLyncCore.getTotalMedicines st + 1 /\
     PharmaLyncCore.getTotalMedicines st' = i).
Proof.
  intros st0 st. split; [|split].
  - unfold PharmaLyncCore.getTotalMedicines, st. rewrite registrations_run.
    unfold st0. destruct (constructor_state m) as [r ->]. cbn. lia.
  - intros i. unfold PharmaLyncCore.getMedicine, PharmaLyncCore.isMedicineDispensed,
      PharmaLyncCore.getTotalMedicines.
    destruct (PharmaLyncCore.valid_id st i) eqn:Hv; cbn [require].
    + pose proof (registry_ok_run m txs) as [Hmed _]. fold st0 st in Hmed.
      apply valid_id_bounds in Hv. destruct (Hmed i Hv) as (med & H1 & H2 & _).
      unfold PharmaLyncCore.medicine_at. rewrite H1. cbn.
      split; [lia | split; [exact H2 | reflexivity]].
    + split; [|split; reflexivity].
      unfold PharmaLyncCore.valid_id in Hv. apply andb_false_iff in Hv as [Hv|Hv].
      * apply N.ltb_ge in Hv. left. lia.
      * apply N.leb_gt in Hv. now right.
  - intros m' n mf b i st' ev E.
    apply registerMedicine_Returned in E as (_ & _ & _ & _ & _ & -> & _ & Hc & _).
    unfold PharmaLyncCore.getTotalMedicines. split; [reflexivity | exact Hc].
Qed.

End CoreFacts.

Section CoreAccess.
Import Solidity.
Context `{Keccak}.
#[local] Open Scope N_scope.

Lemma hasRole_set_roles st r role a :
  PharmaLyncCore.hasRole (PharmaLyncCore.set_roles st r) role a = bool_decide ((role, a) ∈ r).
Proof. reflexivity. Qed.

Lemma hasRole_false st role a :
  PharmaLyncCore.hasRole st role a = false <-> (role, a) ∉ PharmaLyncCore.roles st.
Proof. unfold PharmaLyncCore.hasRole. apply bool_decide_eq_false. Qed.

Lemma no_role_after st tx role :
  grants role tx = false ->
  (forall a, PharmaLyncCore.hasRole st role a = false) ->
  forall a, PharmaLyncCore.hasRole (PharmaLyncCore.after st tx) role a = false.
Proof.
  intros Hg Hno a. specialize (Hno a). apply hasRole_false in Hno. apply hasRole_false.
  unfold PharmaLyncCore.after.
  destruct tx as [m [n mf b|i|r x|r x|r x]]; cbn [fst snd PharmaLyncCore.exec].
  - destruct (PharmaLyncCore.registerMedicine m n mf b st) as [[[i st'] ev]|] eqn:E;
      [|exact Hno].
    apply registerMedicine_Returned in E as (_ & _ & _ & _ & _ & _ & -> & _). exact Hno.
  - destruct (PharmaLyncCore.dispenseMedicine m i st) as [[st' ev]|] eqn:E; [|exact Hno].
    apply dispenseMedicine_Returned in E as (_ & _ & _ & -> & _). exact Hno.
  - cbn in Hg. apply N.eqb_neq in Hg.
    unfold PharmaLyncCore.grantRole, PharmaLyncCore.onlyRole, PharmaLyncCore._grantRole.
    destruct (PharmaLyncCore.hasRole st _ (sender m)); [|exact Hno].
    destruct (PharmaLyncCore.hasRole st r x); [exact Hno|]. cbn.
    rewrite elem_of_union, elem_of_singleton. intros [[= -> ->]|Hin]; auto.
  - unfold PharmaLyncCore.revokeRole, PharmaLyncCore.onlyRole, PharmaLyncCore._revokeRole.
    destruct (PharmaLyncCore.hasRole st _ (sender m)); [|exact Hno].
    destruct (PharmaLyncCore.hasRole st r x); [|exact Hno]. cbn.
    rewrite elem_of_difference. tauto.
  - unfold PharmaLyncCore.renounceRole, PharmaLyncCore._revokeRole.
    destruct (negb _); [exact Hno|].
    destruct (PharmaLyncCore.hasRole st r x); [|exact Hno]. cbn.
    rewrite elem_of_difference. tauto.
Qed.

Lemma no_role_run role : forall txs st,
  forallb (fun tx => negb (grants role tx)) txs = true ->
  (forall a, PharmaLyncCore.hasRole st role a = false) ->
  forall a, PharmaLyncCore.hasRole (PharmaLyncCore.run txs st) role a = false.
Proof.
  induction txs as [|tx txs IH]; intros st Hg Hno; [exact Hno|].
  cbn [forallb] in Hg. apply andb_true_iff in Hg as [Hg1 Hg2].
  apply negb_true_iff in Hg1. apply IH; [exact Hg2|]. now apply no_role_after.
Qed.

Lemma constructor_roles_iff m role a :
  (role, a) ∈ PharmaLyncCore.roles (fst (PharmaLyncCore.constructor m)) <->
  a = sender m /\
  (role = PharmaLyncCore.DEFAULT_ADMIN_ROLE \/ role = PharmaLyncCore.ADMIN_ROLE).
Proof.
  unfold PharmaLyncCore.constructor, PharmaLyncCore._grantRole.
  unfold PharmaLyncCore.hasRole at 1. cbn [PharmaLyncCore.roles].
  rewrite bool_decide_eq_false_2 by apply not_elem_of_empty.
  cbn [PharmaLyncCore.set_roles].
  destruct (PharmaLyncCore.hasRole _ PharmaLyncCore.ADMIN_ROLE (sender m)) eqn:E;
    cbn [fst PharmaLyncCore.roles PharmaLyncCore.set_roles].
  - unfold PharmaLyncCore.hasRole in E. cbn in E. apply bool_decide_eq_true_1 in E.
    rewrite elem_of_union, elem_of_singleton, elem_of_empty in E.
    destruct E as [[= E]|[]].
    rewrite elem_of_union, elem_of_singleton, elem_of_empty.
    split; [intros [[= -> ->]|[]]; auto|].
    intros [-> [->| ->]]; left; [reflexivity | now rewrite E].
  - rewrite !elem_of_union, !elem_of_singleton, elem_of_empty.
    split; [intros [[= -> ->]|[[= -> ->]|[]]]; auto|].
    intros [-> [->| ->]]; auto.
Qed.

Lemma constructor_roles m role a :
  PharmaLyncCore.hasRole (fst (PharmaLyncCore.constructor m)) role a = true ->
  role = PharmaLyncCore.DEFAULT_ADMIN_ROLE \/ role = PharmaLyncCore.ADMIN_ROLE.
Proof.
  intros Hin%bool_decide_eq_true_1. now apply constructor_roles_iff in Hin as [_ ?].
Qed.

Lemma constructor_admin m :
  PharmaLyncCore.hasRole (fst (PharmaLyncCore.constructor m))
    PharmaLyncCore.DEFAULT_ADMIN_ROLE (sender m) = true.
Proof. apply bool_decide_eq_true_2, constructor_roles_iff. auto. Qed.

(** X4. The roles that guard the registry are in nobody's hands at
    deployment.  As long as no [grantRole] for a role other than the two
    admin roles is sent, no account holds that role; for
    [MANUFACTURER_ROLE] this means no medicine is registered and every
    [registerMedicine] reverts as unauthorized.  A [grantRole] goes through
    only for a sender holding [DEFAULT_ADMIN_ROLE] ([ADMIN_ROLE] is of no
    use for it), and the deployer holds it. *)
Theorem roles_need_grant m txs role :
  role <> PharmaLyncCore.DEFAULT_ADMIN_ROLE ->
  role <> PharmaLyncCore.ADMIN_ROLE ->
  forallb (fun tx => negb (grants role tx)) txs = true ->
  let st := PharmaLyncCore.run txs (fst (PharmaLyncCore.constructor m)) in
  (forall a, PharmaLyncCore.hasRole st role a = false) /\
  (role = PharmaLyncCore.MANUFACTURER_ROLE ->
   PharmaLyncCore.getTotalMedicines st = 0 /\
   forall m' n mf b,
     PharmaLyncCore.registerMedicine m' n mf b st =
     Reverted (AccessControlUnauthorizedAccount (sender m')
                 PharmaLyncCore.MANUFACTURER_ROLE)) /\
  (forall st1 m' r a st2 ev,
     PharmaLyncCore.grantRole m' r a st1 = Returned (st2, ev) ->
     PharmaLyncCore.hasRole st1 PharmaLyncCore.DEFAULT_ADMIN_ROLE (sender m') = true /\
     PharmaLyncCore.hasRole st2 r a = true) /\
  PharmaLyncCore.hasRole (fst (PharmaLyncCore.constructor m))
    PharmaLyncCore.DEFAULT_ADMIN_ROLE (sender m) = true.
Proof.
  intros Hd Ha Hg st.
  assert (Hno : forall a, PharmaLyncCore.hasRole st role a = false).
  { apply no_role_run; [exact Hg|]. intros a.
    destruct (PharmaLyncCore.hasRole _ role a) eqn:E; [|reflexivity].
    apply constructor_roles in E as [E|E]; congruence. }
  split; [exact Hno|]. split; [|split; [|apply constructor_admin]].
  - intros ->.
    assert (Hreg : forall st0 tx,
              (forall a, PharmaLyncCore.hasRole st0 PharmaLyncCore.MANUFACTURER_ROLE a
                         = false) ->
              PharmaLyncCore.registers st0 tx = false).
    { intros st0 [m0 c] H0. unfold PharmaLyncCore.registers. destruct c; try reflexivity.
      cbn [fst snd]. unfold PharmaLyncCore.registerMedicine, PharmaLyncCore.onlyRole.
      now rewrite H0. }
    split.
    + unfold PharmaLyncCore.getTotalMedicines, st. rewrite registrations_run.
      destruct (constructor_state m) as [r Hr]. rewrite Hr at 1. cbn.
      assert (Hzero : forall txs0 st0,
                forallb (fun tx => negb (grants PharmaLyncCore.MANUFACTURER_ROLE tx)) txs0
                  = true ->
                (forall a, PharmaLyncCore.hasRole st0 PharmaLyncCore.MANUFACTURER_ROLE a
                           = false) ->
                PharmaLyncCore.registrations txs0 st0 = 0).
      { induction txs0 as [|tx txs0 IH]; intros st0 Hg0 H0; [reflexivity|].
        cbn [forallb] in Hg0. apply andb_true_iff in Hg0 as [Hg1 Hg2].
        apply negb_true_iff in Hg1. cbn [PharmaLyncCore.registrations].
        rewrite (Hreg st0 tx H0), IH; [reflexivity | exact Hg2|].
        now apply no_role_after. }
      apply Hzero; [exact Hg|]. intros a.
      destruct (PharmaLyncCore.hasRole _ _ a) eqn:E; [|reflexivity].
      apply constructor_roles in E as [E|E]; congruence.
    + intros m' n mf b. unfold PharmaLyncCore.registerMedicine, PharmaLyncCore.onlyRole.
      now rewrite Hno.
  - intros st1 m' r a st2 ev.
    unfold PharmaLyncCore.grantRole, PharmaLyncCore.onlyRole, PharmaLyncCore.getRoleAdmin.
    destruct (PharmaLyncCore.hasRole st1 _ (sender m')); [|discriminate].
    unfold PharmaLyncCore._grantRole.
    destruct (PharmaLyncCore.hasRole st1 r a) eqn:E; intros [= <- <-];
      [auto|]. split; [reflexivity|].
    unfold PharmaLyncCore.hasRole. cbn. apply bool_decide_eq_true_2.
    apply elem_of_union_l, elem_of_singleton. reflexivity.
Qed.

End CoreAccess.

(** ** PharmaLyncAudit *)

Section AuditLedgerFacts.
Import Solidity.
#[local] Open Scope N_scope.

Lemma logAudit_Returned m i a h t st st' ev :
  PharmaLyncAudit.logAudit m i a h t st = Returned (st', ev) ->
  PharmaLyncAudit.is_authorized st (sender m) = true /\
  i <> "" /\ a <> "" /\ String.length h = 64%nat /\
  PharmaLyncAudit.exists_ (PharmaLyncAudit.record_at st i) = false /\
  PharmaLyncAudit.owner st' = PharmaLyncAudit.owner st /\
  PharmaLyncAudit.authorizedLoggers st' = PharmaLyncAudit.authorizedLoggers st /\
  PharmaLyncAudit.totalAudits st' = PharmaLyncAudit.totalAudits st + 1 /\
  PharmaLyncAudit.auditRecords st' =
    <[i := {| PharmaLyncAudit.auditId := i; PharmaLyncAudit.action := a;
              PharmaLyncAudit.dataHash := h; PharmaLyncAudit.timestamp := t;
              PharmaLyncAudit.actor := sender m; PharmaLyncAudit.exists_ := true |}]>
      (PharmaLyncAudit.auditRecords st).
Proof.
  unfold PharmaLyncAudit.logAudit, PharmaLyncAudit.onlyAuthorized. intros E.
  apply require_Returned in E as [Hauth E]. apply require_Returned in E as [Hi E].
  apply require_Returned in E as [Ha E]. apply require_Returned in E as [Hh E].
  apply require_Returned in E as [Hfresh E].
  apply checked_increment_Returned in E as [_ E]. injection E as <- <-.
  apply negb_true_iff in Hfresh. apply Nat.eqb_eq in Hh.
  repeat split; auto using string_length_pos.
Qed.

Lemma ledger_after_step st tx : ledger_step st tx (PharmaLyncAudit.after st tx).
Proof.
  unfold PharmaLyncAudit.after. destruct tx as [m [i a h t|l|l|o|]];
    cbn [fst snd PharmaLyncAudit.exec].
  - destruct (PharmaLyncAudit.logAudit m i a h t st) as [[st' ev]|] eqn:E;
      [|now constructor]. now apply (ledger_logged st _ i a h t st' ev).
  - unfold PharmaLyncAudit.authorizeLogger, PharmaLyncAudit.onlyOwner, require.
    repeat match goal with
           | |- context [if ?b then _ else _] => destruct b
           end; now constructor.
  - unfold PharmaLyncAudit.revokeLogger, PharmaLyncAudit.onlyOwner, require.
    repeat match goal with
           | |- context [if ?b then _ else _] => destruct b
           end; now constructor.
  - unfold PharmaLyncAudit.transferOwnership, PharmaLyncAudit.onlyOwner.
    repeat match goal with
           | |- context [if ?b then _ else _] => destruct b
           end; now constructor.
  - unfold PharmaLyncAudit.renounceOwnership, PharmaLyncAudit.onlyOwner.
    repeat match goal with
           | |- context [if ?b then _ else _] => destruct b
           end; now constructor.
Qed.

Lemma ledger_run_invariant (P : PharmaLyncAudit.State -> Prop) :
  (forall st tx, P st -> P (PharmaLyncAudit.after st tx)) ->
  forall txs st, P st -> P (PharmaLyncAudit.run txs st).
Proof.
  intros Hstep txs. induction txs as [|tx txs IH]; intros st Hst; [exact Hst|].
  apply IH, Hstep, Hst.
Qed.

Lemma record_kept st tx i r :
  PharmaLyncAudit.auditRecords st !! i = Some r -> PharmaLyncAudit.exists_ r = true ->
  PharmaLyncAudit.auditRecords (PharmaLyncAudit.after st tx) !! i = Some r.
Proof.
  intros Hr He. destruct (ledger_after_step st tx) as [st' Hsame _|j a h t st' ev _ E].
  - now rewrite Hsame.
  - apply logAudit_Returned in E as (_ & _ & _ & _ & Hfresh & _ & _ & _ & ->).
    destruct (String.eqb_spec j i) as [->|Hne].
    + unfold PharmaLyncAudit.record_at in Hfresh. rewrite Hr in Hfresh. cbn in Hfresh.
      congruence.
    + now rewrite lookup_insert_ne.
Qed.

(** X5. The ledger is write-once.  After [logAudit] has gone through for
    an audit id, whatever is sent to the contract afterwards,
    [verifyAudit] returns the action, hash, timestamp and actor of that
    call, and every further [logAudit] for the id reverts: an authorized
    logger's well-formed call with "Audit ID already exists". *)
Theorem logAudit_write_once m i a h t st st1 ev txs :
  PharmaLyncAudit.logAudit m i a h t st = Returned (st1, ev) ->
  let st' := PharmaLyncAudit.run txs st1 in
  PharmaLyncAudit.verifyAudit i st' = Returned (a, h, t, sender m) /\
  PharmaLyncAudit.auditExists i st' = true /\
  (forall m' a' h' t', exists r,
     PharmaLyncAudit.logAudit m' i a' h' t' st' = Reverted r) /\
  (forall m' a' h' t',
     PharmaLyncAudit.is_authorized st' (sender m') = true ->
     a' <> "" -> String.length h' = 64%nat ->
     PharmaLyncAudit.logAudit m' i a' h' t' st' =
     Reverted (Require_failed "Audit ID already exists")).
Proof.
  intros E st'.
  set (record := {| PharmaLyncAudit.auditId := i; PharmaLyncAudit.action := a;
                    PharmaLyncAudit.dataHash := h; PharmaLyncAudit.timestamp := t;
                    PharmaLyncAudit.actor := sender m;
                    PharmaLyncAudit.exists_ := true |}).
  assert (Hrec : PharmaLyncAudit.auditRecords st' !! i = Some record).
  { apply (ledger_run_invariant
             (fun s => PharmaLyncAudit.auditRecords s !! i = Some record)).
    - intros s tx Hs. now apply record_kept.
    - apply logAudit_Returned in E as (_ & _ & _ & _ & _ & _ & _ & _ & ->).
      apply lookup_insert_eq. }
  assert (Hat : PharmaLyncAudit.record_at st' i = record)
    by (unfold PharmaLyncAudit.record_at; now rewrite Hrec).
  assert (Hi : i <> "") by (now apply logAudit_Returned in E as (_ & ? & _)).
  assert (Hlog : forall m' a' h' t',
            PharmaLyncAudit.is_authorized st' (sender m') = true ->
            a' <> "" -> String.length h' = 64%nat ->
            PharmaLyncAudit.logAudit m' i a' h' t' st' =
            Reverted (Require_failed "Audit ID already exists")).
  { intros m' a' h' t' Hauth Ha' Hh'.
    unfold PharmaLyncAudit.logAudit, PharmaLyncAudit.onlyAuthorized.
    rewrite Hauth, Hat, Hh'.
    destruct i as [|? ?]; [now contradiction Hi|].
    destruct a' as [|? ?]; [now contradiction Ha'|]. reflexivity. }
  split; [|split; [|split]].
  - unfold PharmaLyncAudit.verifyAudit. now rewrite Hat.
  - unfold PharmaLyncAudit.auditExists. now rewrite Hat.
  - intros m' a' h' t'.
    destruct (PharmaLyncAudit.logAudit m' i a' h' t' st') as [[st2 ev2]|r] eqn:E2;
      [|eauto].
    pose proof E2 as E3.
    apply logAudit_Returned in E3 as (Hauth & _ & Ha' & Hh' & _).
    rewrite (Hlog m' a' h' t' Hauth Ha' Hh') in E2. discriminate.
  - exact Hlog.
Qed.

Lemma ledger_ok_after st tx : ledger_ok st -> ledger_ok (PharmaLyncAudit.after st tx).
Proof.
  intros [Hcount Hrec].
  destruct (ledger_after_step st tx) as [st' Hsame Htotal|j a h t st' ev _ E].
  - split; rewrite Hsame; [now rewrite Htotal | exact Hrec].
  - apply logAudit_Returned in E as (_ & Hj & Ha & Hh & Hfresh & _ & _ & Ht & Hr).
    assert (Hnone : PharmaLyncAudit.auditRecords st !! j = None).
    { unfold PharmaLyncAudit.record_at in Hfresh.
      destruct (PharmaLyncAudit.auditRecords st !! j) as [r|] eqn:Er; [|reflexivity].
      cbn in Hfresh. apply Hrec in Er as (He & _). congruence. }
    split.
    + rewrite Ht, Hr, map_size_insert_None by exact Hnone. lia.
    + intros i r. rewrite Hr. destruct (String.eqb_spec j i) as [->|Hne].
      * rewrite lookup_insert_eq. intros [= <-]. cbn. auto.
      * rewrite lookup_insert_ne by exact Hne. apply Hrec.
Qed.

(** X6. [totalAudits] counts the records.  In every state reached from
    deployment it is the number of audit ids that exist, and each of them
    is a record with a non-empty id and action and a hash of exactly 64
    characters; an id that was never logged makes [verifyAudit] revert
    with "Audit record not found". *)
Theorem totalAudits_counts_records m st0 ev0 txs :
  PharmaLyncAudit.constructor m = Returned (st0, ev0) ->
  let st := PharmaLyncAudit.run txs st0 in
  PharmaLyncAudit.getTotalAudits st = N.of_nat (size (PharmaLyncAudit.auditRecords st)) /\
  (forall i,
     if PharmaLyncAudit.auditExists i st
     then exists a h t actor,
            PharmaLyncAudit.verifyAudit i st = Returned (a, h, t, actor) /\
            i <> "" /\ a <> "" /\ String.length h = 64%nat /\
            is_Some (PharmaLyncAudit.auditRecords st !! i)
     else PharmaLyncAudit.verifyAudit i st =
            Reverted (Require_failed "Audit record not found") /\
          PharmaLyncAudit.auditRecords st !! i = None).
Proof.
  intros Hc st.
  assert (Hok : ledger_ok st).
  { apply ledger_run_invariant; [intros; now apply ledger_ok_after|].
    unfold PharmaLyncAudit.constructor in Hc.
    destruct (sender m =? 0); [discriminate|]. injection Hc as <- <-.
    split; cbn; [now rewrite map_size_empty|].
    intros i r Hr. now rewrite lookup_empty in Hr. }
  destruct Hok as [Hcount Hrec]. split; [exact Hcount|].
  intros i. unfold PharmaLyncAudit.auditExists, PharmaLyncAudit.verifyAudit,
    PharmaLyncAudit.record_at.
  destruct (PharmaLyncAudit.auditRecords st !! i) as [r|] eqn:Er; cbn.
  - destruct (Hrec i r Er) as (He & Hid & Hi & Ha & Hh). rewrite He. cbn.
    eexists _, _, _, _. repeat split; eauto.
  - split; reflexivity.
Qed.

Lemma loggers_after st tx :
  sender (fst tx) <> PharmaLyncAudit.owner st ->
  PharmaLyncAudit.authorizedLoggers (PharmaLyncAudit.after st tx) =
    PharmaLyncAudit.authorizedLoggers st /\
  PharmaLyncAudit.owner (PharmaLyncAudit.after st tx) = PharmaLyncAudit.owner st.
Proof.
  intros Hs. unfold PharmaLyncAudit.after.
  destruct tx as [m [i a h t|l|l|o|]]; cbn [fst snd PharmaLyncAudit.exec] in *.
  - destruct (PharmaLyncAudit.logAudit m i a h t st) as [[st' ev]|] eqn:E; [|auto].
    apply logAudit_Returned in E as (_ & _ & _ & _ & _ & -> & -> & _). auto.
  - unfold PharmaLyncAudit.authorizeLogger, PharmaLyncAudit.onlyOwner.
    destruct (N.eqb_spec (PharmaLyncAudit.owner st) (sender m)); [congruence | auto].
  - unfold PharmaLyncAudit.revokeLogger, PharmaLyncAudit.onlyOwner.
    destruct (N.eqb_spec (PharmaLyncAudit.owner st) (sender m)); [congruence | auto].
  - unfold PharmaLyncAudit.transferOwnership, PharmaLyncAudit.onlyOwner.
    destruct (N.eqb_spec (PharmaLyncAudit.owner st) (sender m)); [congruence | auto].
  - unfold PharmaLyncAudit.renounceOwnership, PharmaLyncAudit.onlyOwner.
    destruct (N.eqb_spec (PharmaLyncAudit.owner st) (sender m)); [congruence | auto].
Qed.

(** X7. Who may log is in the owner's hands only, and ownership does not
    carry it.  A transaction that the owner did not send leaves the set of
    authorized loggers and the owner as they were.  [transferOwnership]
    changes the owner and not the loggers: the previous owner keeps its
    authorization and the new owner has none unless it had one.  After
    [renounceOwnership] the loggers are fixed for good: no history of
    transactions with a sender changes them. *)
Theorem loggers_owner_only st :
  (forall tx,
     sender (fst tx) <> PharmaLyncAudit.owner st ->
     PharmaLyncAudit.authorizedLoggers (PharmaLyncAudit.after st tx) =
       PharmaLyncAudit.authorizedLoggers st /\
     PharmaLyncAudit.owner (PharmaLyncAudit.after st tx) = PharmaLyncAudit.owner st) /\
  (forall m newOwner st' ev,
     PharmaLyncAudit.transferOwnership m newOwner st = Returned (st', ev) ->
     PharmaLyncAudit.owner st' = newOwner /\
     forall a, PharmaLyncAudit.is_authorized st' a = PharmaLyncAudit.is_authorized st a) /\
  (forall m st' ev txs,
     PharmaLyncAudit.renounceOwnership m st = Returned (st', ev) ->
     senders_nonzero txs = true ->
     PharmaLyncAudit.authorizedLoggers (PharmaLyncAudit.run txs st') =
       PharmaLyncAudit.authorizedLoggers st /\
     PharmaLyncAudit.owner (PharmaLyncAudit.run txs st') = 0).
Proof.
  split; [intros tx; apply loggers_after|]. split.
  - intros m newOwner st' ev. unfold PharmaLyncAudit.transferOwnership,
      PharmaLyncAudit.onlyOwner.
    destruct (PharmaLyncAudit.owner st =? sender m); [|discriminate].
    destruct (newOwner =? 0); [discriminate|]. intros [= <- <-]. auto.
  - intros m st' ev txs. unfold PharmaLyncAudit.renounceOwnership,
      PharmaLyncAudit.onlyOwner.
    destruct (PharmaLyncAudit.owner st =? sender m); [|discriminate].
    intros [= <- <-]. revert txs.
    assert (Hgen : forall txs s,
              PharmaLyncAudit.owner s = 0 -> senders_nonzero txs = true ->
              PharmaLyncAudit.authorizedLoggers (PharmaLyncAudit.run txs s) =
                PharmaLyncAudit.authorizedLoggers s /\
              PharmaLyncAudit.owner (PharmaLyncAudit.run txs s) = 0).
    { induction txs as [|tx txs IH]; intros s Hs Hn; [auto|].
      cbn [senders_nonzero forallb] in Hn. apply andb_true_iff in Hn as [Hn1 Hn2].
      apply negb_true_iff, N.eqb_neq in Hn1.
      destruct (loggers_after s tx) as [Hl Ho]; [congruence|].
      cbn [PharmaLyncAudit.run fold_left].
      destruct (IH (PharmaLyncAudit.after s tx)) as [Hl' Ho'];
        [congruence | exact Hn2 |].
      unfold PharmaLyncAudit.run in Hl', Ho'. rewrite Hl', Ho'. auto. }
    intros txs Hn.
    exact (Hgen txs (PharmaLyncAudit.set_owner st 0) eq_refl Hn).
Qed.

End AuditLedgerFacts.

(** * Concrete runs

    The theorems above applied to concrete inputs, the primitives being the
    reference instance. *)

Section ConcreteRuns.
#[local] Existing Instance Reference.crypto.
#[local] Existing Instance Reference.buffer_coercion.

Lemma verifyPassword_hashPassword_witness :
  exists s g',
    AuthService.hashPassword (AuthService.new Reference.env) "correct horse"
      Reference.rng = Ok (s, g') /\
    AuthService.verifyPassword (AuthService.new Reference.env) "correct horse" s = Ok true.
Proof.
  eexists _, _. split.
  - apply (hashPassword_ok Reference.env _ _ 64); reflexivity.
  - refine (proj1 (verifyPassword_hashPassword Reference.env "correct horse"
                     Reference.rng _ _ _)).
    apply (hashPassword_ok Reference.env _ _ 64); reflexivity.
Defined.

(** C8, counterexample to the claim as stated: a password different from
    the one hashed (it has one more character, NUL) verifies as true. *)
Lemma verifyPassword_wrong_password_accepted :
  exists s g',
    AuthService.hashPassword (AuthService.new Reference.env) "correct horse"
      Reference.rng = Ok (s, g') /\
    "correct horse" +:+ Reference.nul <> "correct horse" /\
    AuthService.verifyPassword (AuthService.new Reference.env)
      ("correct horse" +:+ Reference.nul) s = Ok true.
Proof.
  eexists _, _. split; [|split].
  - apply (hashPassword_ok Reference.env _ _ 64); reflexivity.
  - discriminate.
  - eapply (verifyPassword_trailing_nul Reference.env "correct horse" Reference.rng).
    + cbn; lia.
    + apply (hashPassword_ok Reference.env _ _ 64); reflexivity.
Qed.

Lemma tokenizeAadhaar_witness :
  exists token,
    AadhaarService.tokenizeAadhaar {| AadhaarService.kms := Reference.kms |}
      "490154203517" = Ok token /\
    String.length token = 32%nat /\
    AadhaarService.tokenizeAadhaar {| AadhaarService.kms := Reference.kms |} "12345" =
      Throw (mkExn Error "Invalid Aadhaar format. Must be exactly 12 digits.").
Proof.
  assert (Hnew : AadhaarService.new Reference.env =
                 Ok {| AadhaarService.kms := Reference.kms |})
    by (vm_compute; reflexivity).
  destruct (tokenizeAadhaar_deterministic_validated Reference.env _ "490154203517" Hnew)
    as [Hvalid _].
  destruct (tokenizeAadhaar_deterministic_validated Reference.env _ "12345" Hnew)
    as (_ & Hinvalid & _).
  destruct (Hvalid eq_refl) as (token & Hcalls & Hlen & _).
  exists token. split; [|split].
  - exact (proj1 (Hcalls _ _ eq_refl eq_refl)).
  - exact Hlen.
  - exact (Hinvalid eq_refl).
Defined.

Lemma verifyAadhaarHash_witness :
  AadhaarService.verifyAadhaarHash {| AadhaarService.kms := Reference.kms |}
    "490154203517" "9f86d081884c7d65" =
  Throw (mkExn RangeError "Input buffers must have the same byte length").
Proof.
  apply (verifyAadhaarHash_length_mismatch_throws
           {| AadhaarService.kms := Reference.kms |} "490154203517" "9f86d081884c7d65").
  - reflexivity.
  - cbn. lia.
Defined.

(** C1: the access token issued for a doctor at [Reference.now], with the
    default expiry of 15 minutes, presented one second later. *)
Lemma verifyAccessToken_rejects_issued_token_witness :
  AuthService.generateAccessToken (AuthService.new Reference.env) Reference.doctor
    Reference.now = Ok Reference.access_token /\
  AuthService.verifyAccessToken (AuthService.new Reference.env)
    Reference.access_token (Reference.now + 1000) = Throw (mkExn Error "Invalid token").
Proof.
  destruct (verifyAccessToken_rejects_issued_token (AuthService.new Reference.env)
              Reference.doctor Reference.now "access-secret"
              (Reference.now / 1000 + 900) eq_refl eq_refl (timespan_15m _))
    as (token & Hgen & Hverify).
  assert (Htoken : token = Reference.access_token).
  { assert (E : Ok token = Ok Reference.access_token)
      by (rewrite <- Hgen; vm_compute; reflexivity).
    now injection E. }
  subst token. split; [exact Hgen | exact (Hverify (Reference.now + 1000)%Z)].
Defined.

(** C2: a grant, its token verified, the grant revoked, the token verified
    again. *)
Lemma verifyConsentToken_after_revoke_witness :
  ConsentService.generateConsentToken (ConsentService.new Reference.env) ∅ "consent-1"
    "patient-4" "user-17" [ConsentService.VIEW_AADHAAR] 60 Reference.now
    = Ok ((Reference.consent_token, "consent-1"),
          {[ "consent-1" := Reference.consent_row ]}) /\
  ConsentService.valid
    (ConsentService.verifyConsentToken (ConsentService.new Reference.env)
       {[ "consent-1" := Reference.consent_row ]} Reference.consent_token
       [ConsentService.VIEW_AADHAAR] (Reference.now + 1000)) = true /\
  ConsentService.verifyConsentToken (ConsentService.new Reference.env)
    (<[ "consent-1" := Reference.consent_row_revoked ]>
       {[ "consent-1" := Reference.consent_row ]})
    Reference.consent_token [ConsentService.VIEW_AADHAAR] (Reference.now + 1000) =
  ConsentService.invalid "Consent has been revoked".
Proof.
  split; [vm_compute; reflexivity|].
  split; [vm_compute; reflexivity|].
  eapply (verifyConsentToken_after_revoke (ConsentService.new Reference.env)
            {[ "consent-1" := Reference.consent_row ]} _ "consent-1").
  - unfold ConsentService.revokeConsent, ConsentService.prisma_consent_update_revoked.
    rewrite lookup_singleton_eq. reflexivity.
  - vm_compute. reflexivity.
  - reflexivity.
Defined.

(** C3: a string that is not a token is refused with [INVALID_QR]. *)
Lemma verifyToken_failures_uniform_witness :
  QrSecurityService.verifyToken Reference.env Reference.malformed_token "MEDICINE" =
  (Throw QrSecurityService.INVALID_QR,
   ["QR Verification Failed: Unexpected token in JSON"]).
Proof.
  refine (proj1 (proj2 (verifyToken_failures_uniform Reference.env Reference.kms
                          Reference.malformed_token "MEDICINE" _))
                (mkExn SyntaxError "Unexpected token in JSON") _);
    vm_compute; reflexivity.
Defined.

(** C3, counterexample to the claim as stated: a token that does not parse
    and a well-formed token with an altered signature digit raise the same
    error; only the log tells them apart. *)
Lemma verifyToken_malformed_and_tampered_same_error :
  is_Ok (JSON_parse (toString_utf8 (Buffer_from_base64url Reference.malformed_token)))
    = false /\
  is_Ok (JSON_parse (toString_utf8 (Buffer_from_base64url
                                      Reference.medicine_token_tampered))) = true /\
  Reference.differences Reference.medicine_token Reference.medicine_token_tampered
    = Some 1%nat /\
  QrSecurityService.verifyToken Reference.env Reference.malformed_token "MEDICINE" =
    (Throw QrSecurityService.INVALID_QR,
     ["QR Verification Failed: Unexpected token in JSON"]) /\
  QrSecurityService.verifyToken Reference.env Reference.medicine_token_tampered "MEDICINE" =
    (Throw QrSecurityService.INVALID_QR,
     ["QR Verification Failed: SECURITY_ALERT: QR Token signature is invalid or tampered"]).
Proof. repeat split; vm_compute; reflexivity. Qed.

(** C4: the medicine payload, packaged and verified. *)
Lemma verifyToken_generateSecureToken_witness :
  exists token g',
    QrSecurityService.generateSecureToken Reference.env Reference.medicine "MEDICINE"
      Reference.rng Reference.now = Ok (token, g') /\
    QrSecurityService.verifyToken Reference.env token "MEDICINE" =
      (Ok (JObj (QrSecurityService.augment Reference.medicine
                   (toString_hex (fst (randomBytes 16 Reference.rng))) Reference.now)),
       []).
Proof.
  apply (verifyToken_generateSecureToken Reference.env Reference.kms Reference.medicine
           "MEDICINE" Reference.rng Reference.now); vm_compute; reflexivity.
Defined.

(** C4, counterexample to the claim as stated.  (1) A token with one
    character changed, so that the hex digit [b] of the IV reads [B], is
    accepted and returns the payload.  (2) A payload field named [nonce]
    does not come back with its value. *)
Lemma verifyToken_accepts_mutated_token :
  Reference.differences Reference.medicine_token Reference.medicine_token_case
    = Some 1%nat /\
  QrSecurityService.verifyToken Reference.env Reference.medicine_token_case "MEDICINE" =
    (Ok (JObj [("medicineId", JStr "med-001"); ("batchNumber", JStr "B-77");
               ("nonce", JStr "abb2b9c0c7ced5dce3eaf1f8ff060d14");
               ("timestamp", JNum 1700000000123)]), []) /\
  (token ← match QrSecurityService.generateSecureToken Reference.env
                   [("nonce", JStr "mine")] "MEDICINE" Reference.rng Reference.now with
           | Ok (token, _) => Some token
           | Throw _ => None
           end;
   Some (QrSecurityService.verifyToken Reference.env token "MEDICINE")) =
    Some (Ok (JObj [("nonce", JStr "abb2b9c0c7ced5dce3eaf1f8ff060d14");
                    ("timestamp", JNum 1700000000123)]), []).
Proof. repeat split; vm_compute; reflexivity. Qed.

(** C6: an anchored entry, verified while the contract call fails. *)
Lemma verifyAuditIntegrity_unreachable_is_mismatch_witness :
  AuditService.verifyAuditIntegrity Reference.audit_service
    {[ "audit-1" := Reference.anchored_row ]} "audit-1" =
  {| AuditService.valid := false;
     AuditService.localHash :=
       AuditService.hashAuditData (audit_data_of Reference.anchored_row);
     AuditService.blockchainHash := Some "";
     AuditService.error := Some "Hash mismatch - data may be tampered" |}.
Proof.
  apply (verifyAuditIntegrity_unreachable_is_mismatch Reference.audit_service
           {[ "audit-1" := Reference.anchored_row ]} "audit-1" Reference.anchored_row
           "0x5e1f").
  - apply lookup_singleton_eq.
  - reflexivity.
  - reflexivity.
  - right. exists Reference.failing_contract, (mkExn Error "timeout").
    split; reflexivity.
Defined.

(** C7: a critical action logged while the contract call fails. *)
Lemma logAudit_tier1_independent_of_ledger_witness :
  exists db1 task,
    AuditService.logAudit Reference.audit_service ∅ "audit-1" Reference.view_aadhaar
      Reference.now = Ok ("audit-1", db1, Some task) /\
    AuditService.getAuditLog db1 "audit-1" =
      Some (audit_row "audit-1" Reference.view_aadhaar Reference.now).
Proof.
  assert (Hcritical : AuditService.isCriticalAction
                        (AuditService.p_action Reference.view_aadhaar) = true)
    by (vm_compute; reflexivity).
  destruct (logAudit_tier1_independent_of_ledger Reference.audit_service ∅ "audit-1"
              Reference.view_aadhaar Reference.now (lookup_empty _) Hcritical)
    as (db1 & task & Hlog & Hrow & _).
  exists db1, task. split; [exact Hlog | exact Hrow].
Defined.

End ConcreteRuns.

(** * Concrete runs: text *)

Section ConcreteText.
#[local] Existing Instance Reference.crypto.
#[local] Open Scope N_scope.

(** C5: a well-formed string with a two-byte, a three-byte and a
    four-byte character (the last a surrogate pair), encrypted for a user
    and decrypted. *)
Lemma decryptPII_encryptPII_witness :
  exists buf g' text,
    EncryptionService.encryptPII {| EncryptionService.kms := Reference.kms |}
      (utf8_of_js [0x41; 0xE9; 0x20AC; 0xD83D; 0xDE00]) (Some "user-17")
      Reference.rng = Ok (buf, g') /\
    EncryptionService.decryptPII {| EncryptionService.kms := Reference.kms |}
      buf (Some "user-17") = Ok text /\
    js_of_utf8 text = [0x41; 0xE9; 0x20AC; 0xD83D; 0xDE00].
Proof.
  destruct (decryptPII_encryptPII Reference.env
              {| EncryptionService.kms := Reference.kms |}
              [0x41; 0xE9; 0x20AC; 0xD83D; 0xDE00] (Some "user-17") Reference.rng)
    as (buf & g' & text & Henc & Hdec & _ & Hsame);
    [vm_compute; reflexivity | discriminate | reflexivity |].
  exists buf, g', text. split; [exact Henc|]. split; [exact Hdec|].
  apply Hsame. reflexivity.
Defined.

(** C5, counterexample to the claim as stated: the string that consists of
    one lone surrogate, U+D800, is not empty; it is encrypted as the three
    bytes EF BF BD, and what [decryptPII] returns stands for U+FFFD, not
    for the string that was encrypted. *)
Lemma decryptPII_encryptPII_lone_surrogate :
  exists buf g' text,
    EncryptionService.encryptPII {| EncryptionService.kms := Reference.kms |}
      (utf8_of_js [0xD800]) (Some "user-17") Reference.rng = Ok (buf, g') /\
    EncryptionService.decryptPII {| EncryptionService.kms := Reference.kms |}
      buf (Some "user-17") = Ok text /\
    Buffer_from_utf8 (utf8_of_js [0xD800]) = [xef; xbf; xbd] /\
    js_of_utf8 text = [0xFFFD] /\
    js_of_utf8 text <> [0xD800].
Proof.
  destruct (decryptPII_encryptPII_bytes Reference.env
              {| EncryptionService.kms := Reference.kms |}
              (utf8_of_js [0xD800]) (Some "user-17") Reference.rng)
    as (buf & g' & Henc & Hdec); [vm_compute; reflexivity | discriminate|].
  exists buf, g', (utf8_of_js [0xD800]).
  split; [exact Henc|]. split; [exact Hdec|].
  split; [reflexivity|]. split; [reflexivity | discriminate].
Qed.

End ConcreteText.

(** * Concrete runs of the contracts *)

Section ConcreteContracts.
Import Solidity.
#[local] Existing Instance ReferenceChain.keccak.
#[local] Open Scope N_scope.

Lemma dispenseMedicine_once_witness :
  exists st1 ev,
    PharmaLyncCore.dispenseMedicine (ReferenceChain.at_ ReferenceChain.pharmacy 30) 1
      ReferenceChain.registry = Returned (st1, ev) /\
    PharmaLyncCore.isMedicineDispensed 1
      (PharmaLyncCore.run ReferenceChain.registry_later st1) = Returned true /\
    PharmaLyncCore.dispensedAt
      (PharmaLyncCore.medicine_at
         (PharmaLyncCore.run ReferenceChain.registry_later st1) 1) = 30.
Proof.
  eexists _, _. split; [vm_compute; reflexivity|].
  refine (let H := dispenseMedicine_once (ReferenceChain.at_ ReferenceChain.pharmacy 30) 1
                     ReferenceChain.registry _ _ ReferenceChain.registry_later _ in
          conj (proj1 (proj2 (proj2 (proj2 H)))) (proj1 (proj2 (proj2 H)))).
  vm_compute; reflexivity.
Defined.

Lemma roles_need_grant_witness :
  PharmaLyncCore.getTotalMedicines
    (PharmaLyncCore.run ReferenceChain.registry_no_maker
       (fst (PharmaLyncCore.constructor (ReferenceChain.at_ ReferenceChain.deployer 1)))) = 0 /\
  PharmaLyncCore.hasRole
    (PharmaLyncCore.run ReferenceChain.registry_no_maker
       (fst (PharmaLyncCore.constructor (ReferenceChain.at_ ReferenceChain.deployer 1))))
    PharmaLyncCore.MANUFACTURER_ROLE ReferenceChain.deployer = false.
Proof.
  assert (Hne0 : PharmaLyncCore.MANUFACTURER_ROLE <> PharmaLyncCore.DEFAULT_ADMIN_ROLE)
    by (vm_compute; discriminate).
  assert (Hne1 : PharmaLyncCore.MANUFACTURER_ROLE <> PharmaLyncCore.ADMIN_ROLE)
    by (vm_compute; discriminate).
  pose proof (roles_need_grant (ReferenceChain.at_ ReferenceChain.deployer 1)
                ReferenceChain.registry_no_maker PharmaLyncCore.MANUFACTURER_ROLE
                Hne0 Hne1 eq_refl) as [Hnone [Hreg _]].
  split; [exact (proj1 (Hreg eq_refl)) | apply Hnone].
Defined.

Lemma logAudit_write_once_witness :
  exists st1 ev,
    PharmaLyncAudit.logAudit (ReferenceChain.at_ ReferenceChain.deployer 5) "audit-1"
      "VIEW_AADHAAR" ReferenceChain.sample_hash 1700000000 ReferenceChain.ledger =
      Returned (st1, ev) /\
    PharmaLyncAudit.verifyAudit "audit-1"
      (PharmaLyncAudit.run ReferenceChain.ledger_later st1) =
      Returned ("VIEW_AADHAAR", ReferenceChain.sample_hash, 1700000000,
                ReferenceChain.deployer).
Proof.
  eexists _, _. split; [vm_compute; reflexivity|].
  refine (proj1 (logAudit_write_once (ReferenceChain.at_ ReferenceChain.deployer 5)
                   "audit-1" "VIEW_AADHAAR" ReferenceChain.sample_hash 1700000000
                   ReferenceChain.ledger _ _ ReferenceChain.ledger_later _)).
  vm_compute; reflexivity.
Defined.

Lemma totalAudits_counts_records_witness :
  exists ev0,
    PharmaLyncAudit.constructor (ReferenceChain.at_ ReferenceChain.deployer 1) =
      Returned (ReferenceChain.ledger, ev0) /\
    PharmaLyncAudit.getTotalAudits
      (PharmaLyncAudit.run ReferenceChain.ledger_later ReferenceChain.ledger) =
      N.of_nat (size (PharmaLyncAudit.auditRecords
                        (PharmaLyncAudit.run ReferenceChain.ledger_later
                           ReferenceChain.ledger))).
Proof.
  eexists. split; [vm_compute; reflexivity|].
  refine (proj1 (totalAudits_counts_records (ReferenceChain.at_ ReferenceChain.deployer 1)
                   ReferenceChain.ledger _ ReferenceChain.ledger_later _)).
  vm_compute; reflexivity.
Defined.

End ConcreteContracts.
